(** * Target-size encoder: bitrate calculator, quality estimator, batch loop

    A shallow embedding of the [EncodingWorker] class of [src/main.py]
    (the worker thread that computes a video bitrate or searches a quality
    value for every file of a batch and drives the external transcoder),
    of the two other workers ([CheckMediaWorker], which writes missing
    bitrate statistics into the files, and [AddMediaWorker], which describes
    the files for the media list) and of the parts of the window that make
    the encoder's input (the selection of audio tracks, the validation of
    the settings, the start of a batch), followed by the properties of them
    that the specification states and by further properties of the code.

    Python's [float] is IEEE 754 binary64; it is modelled by Rocq's primitive
    [float], which is the same format with the same round-to-nearest-even
    operations, so the arithmetic below is bit-for-bit that of the program.
    Python's [int] is [Z].  Python strings are modelled as ASCII [string]s:
    for text outside ASCII the program sees Unicode code points (and Unicode
    digits and spaces), which this model does not represent. *)

From Stdlib Require Import ZArith List String Ascii Bool Lia Floats Sorted.
From Stdlib Require Import DecimalString DecimalPos.
Import ListNotations.

#[local] Set Warnings "-inexact-float".
#[local] Open Scope Z_scope.

(** ** Python values and built-ins *)

Module Py.

(** The exceptions the modelled code can meet. *)
Inductive exn : Type :=
| ValueError
| ZeroDivisionError
| OverflowError
| IndexError
| KeyError
| StopIteration
| OSError.

(** The result of evaluating an expression: a value, or a raised exception. *)
Inductive res (A : Type) : Type :=
| Ret (a : A)
| Raise (e : exn).
Arguments Ret {A} a.
Arguments Raise {A} e.

Definition rbind {A B : Type} (r : res A) (k : A -> res B) : res B :=
  match r with
  | Ret a => k a
  | Raise e => Raise e
  end.

Fixpoint rmap {A B : Type} (f : A -> res B) (l : list A) : res (list B) :=
  match l with
  | [] => Ret []
  | x :: l' => rbind (f x) (fun y => rbind (rmap f l') (fun ys => Ret (y :: ys)))
  end.

(** *** Numbers *)

Definition Z2SF (z : Z) : spec_float :=
  match z with
  | Z0 => S754_zero false
  | Zpos p => S754_finite false p 0
  | Zneg p => S754_finite true p 0
  end.

(** The double nearest to the integer [z] (ties to even, infinite on overflow). *)
Definition nearest_of_Z (z : Z) : float :=
  SF2Prim (binary_normalize prec emax z 0 false).

(** The double nearest to the rational [n / d] (ties to even): IEEE division
    carried out on the two integers as exact significands. *)
Definition nearest_of_ratio (n : Z) (d : positive) : float :=
  SF2Prim (SFdiv prec emax (Z2SF n) (S754_finite false d 0)).

(** [float(z)] for an [int]. *)
Definition float_of_int (z : Z) : res float :=
  let f := nearest_of_Z z in
  if is_infinity f then Raise OverflowError else Ret f.

(** The integer part (rounding toward zero) and the floor of a finite double. *)
Definition trunc_SF (x : spec_float) : option Z :=
  match x with
  | S754_zero _ => Some 0
  | S754_finite s m e =>
      let v := if 0 <=? e then Zpos m * 2 ^ e else Zpos m / 2 ^ (- e) in
      Some (if s then - v else v)
  | _ => None
  end.

Definition floor_SF (x : spec_float) : option Z :=
  match x with
  | S754_zero _ => Some 0
  | S754_finite s m e =>
      let sm := if s then Zneg m else Zpos m in
      Some (if 0 <=? e then sm * 2 ^ e else sm / 2 ^ (- e))
  | _ => None
  end.

Definition trunc (f : float) : option Z := trunc_SF (Prim2SF f).
Definition floor (f : float) : option Z := floor_SF (Prim2SF f).

(** [int(f)] for a [float]: truncation; [OverflowError] on an infinity,
    [ValueError] on a NaN. *)
Definition int_of_float (f : float) : res Z :=
  match trunc f with
  | Some z => Ret z
  | None => if is_nan f then Raise ValueError else Raise OverflowError
  end.

(** [x / y] on floats: Python raises on a zero divisor. *)
Definition truediv (x y : float) : res float :=
  if is_zero y then Raise ZeroDivisionError else Ret (x / y)%float.

(** [a / b] on ints: the correctly rounded quotient. *)
Definition int_truediv (a b : Z) : res float :=
  match b with
  | Z0 => Raise ZeroDivisionError
  | Zpos d => let f := nearest_of_ratio a d in
              if is_infinity f then Raise OverflowError else Ret f
  | Zneg d => let f := nearest_of_ratio (- a) d in
              if is_infinity f then Raise OverflowError else Ret f
  end.

(** [sum(l)] on a list of floats: left to right from 0.  (On the values the
    worker passes, integers well below 2^53, every partial sum is exact.) *)
Definition sum (l : list float) : float :=
  fold_left PrimFloat.add l 0%float.

(** [round(f, 2)]: the exact value of [f] rounded half-to-even to two
    decimals, then the nearest double. *)
Definition round_half_even (n : Z) (d : Z) : Z :=
  let q := n / d in
  let r := n mod d in
  match 2 * r ?= d with
  | Lt => q
  | Gt => q + 1
  | Eq => if Z.even q then q else q + 1
  end.

Definition round2 (f : float) : float :=
  match Prim2SF f with
  | S754_finite s m e =>
      let n := if 0 <=? e then Zpos m * 2 ^ e * 100 else Zpos m * 100 in
      let d := if 0 <=? e then 1 else 2 ^ (- e) in
      let a := nearest_of_ratio (round_half_even n d) 100 in
      if s then (- a)%float else a
  | _ => f
  end.

(** *** Strings *)

Definition is_space (c : ascii) : bool :=
  let n := nat_of_ascii c in
  (((9 <=? n) && (n <=? 13)) || ((28 <=? n) && (n <=? 32)))%nat.

Definition digit_val (c : ascii) : option Z :=
  let n := nat_of_ascii c in
  if ((48 <=? n) && (n <=? 57))%nat then Some (Z.of_nat n - 48) else None.

Definition is_digit (c : ascii) : bool :=
  match digit_val c with Some _ => true | None => false end.

Definition lower (c : ascii) : ascii :=
  let n := nat_of_ascii c in
  if ((65 <=? n) && (n <=? 90))%nat then ascii_of_nat (n + 32) else c.

Fixpoint lstrip (l : list ascii) : list ascii :=
  match l with
  | c :: l' => if is_space c then lstrip l' else l
  | [] => []
  end.

(** [s.strip()] *)
Definition strip_chars (l : list ascii) : list ascii :=
  rev (lstrip (rev (lstrip l))).

Definition strip (s : string) : string :=
  string_of_list_ascii (strip_chars (list_ascii_of_string s)).

(** [s.lower()] *)
Definition lower_str (s : string) : string :=
  string_of_list_ascii (map lower (list_ascii_of_string s)).

(** [s.split(',')] *)
Fixpoint split_chars (sep : ascii) (l : list ascii) (cur : list ascii)
  : list (list ascii) :=
  match l with
  | [] => [rev cur]
  | c :: l' => if Ascii.eqb c sep then rev cur :: split_chars sep l' []
               else split_chars sep l' (c :: cur)
  end.

Definition split (sep : ascii) (s : string) : list string :=
  map string_of_list_ascii (split_chars sep (list_ascii_of_string s) []).

(** [sep.join(l)] *)
Definition join (sep : string) (l : list string) : string :=
  String.concat sep l.

(** [str(z)] for an [int]. *)
Definition str_of_int (z : Z) : string :=
  NilZero.string_of_int (Z.to_int z).

(** A run of digits in which single underscores may separate digits
    ([digit (["_"] digit)*]); [n] counts the digits read so far. *)
Fixpoint scan_digits (l : list ascii) (acc : Z) (n : nat)
  : Z * nat * list ascii :=
  match l with
  | [] => (acc, n, [])
  | c :: l' =>
      match digit_val c with
      | Some d => scan_digits l' (acc * 10 + d) (S n)
      | None =>
          match n, Ascii.eqb c "_", l' with
          | S _, true, c2 :: l'' =>
              match digit_val c2 with
              | Some d => scan_digits l'' (acc * 10 + d) (S n)
              | None => (acc, n, l)
              end
          | _, _, _ => (acc, n, l)
          end
      end
  end.

Definition scan_sign (l : list ascii) : bool * list ascii :=
  match l with
  | "-"%char :: l' => (true, l')
  | "+"%char :: l' => (false, l')
  | _ => (false, l)
  end.

(** [int(s)] for a string, base 10. *)
Definition int_of_str (s : string) : res Z :=
  let (neg, l) := scan_sign (strip_chars (list_ascii_of_string s)) in
  match scan_digits l 0 0 with
  | (v, S _, []) => Ret (if neg then - v else v)
  | _ => Raise ValueError
  end.

(** The double nearest to [m * 10^e]. *)
Definition nearest_of_decimal (m : Z) (e : Z) : float :=
  match m with
  | Z0 => 0%float
  | _ => if 0 <=? e then nearest_of_Z (m * 10 ^ e)
         else nearest_of_ratio m (Z.to_pos (10 ^ (- e)))
  end.

Definition scan_exponent (l : list ascii) : option (Z * list ascii) :=
  match l with
  | c :: l' =>
      if Ascii.eqb (lower c) "e" then
        let (neg, l1) := scan_sign l' in
        match scan_digits l1 0 0 with
        | (v, S _, rest) => Some (if neg then - v else v, rest)
        | _ => None
        end
      else Some (0, l)
  | [] => Some (0, [])
  end.

Definition float_of_unsigned (l : list ascii) : option float :=
  let low := string_of_list_ascii (map lower l) in
  if String.eqb low "inf" || String.eqb low "infinity" then Some infinity
  else if String.eqb low "nan" then Some nan
  else
    let '(ip, n1, r1) := scan_digits l 0 0 in
    let '(m, n2, r2) :=
      match r1 with
      | "."%char :: r => scan_digits r ip 0
      | _ => (ip, O, r1)
      end in
    match (n1 + n2)%nat, scan_exponent r2 with
    | S _, Some (ex, []) => Some (nearest_of_decimal m (ex - Z.of_nat n2))
    | _, _ => None
    end.

(** [float(s)] for a string. *)
Definition float_of_str (s : string) : res float :=
  let (neg, l) := scan_sign (strip_chars (list_ascii_of_string s)) in
  match float_of_unsigned l with
  | Some f => Ret (if neg then (- f)%float else f)
  | None => Raise ValueError
  end.

(** *** Paths (POSIX) *)

Fixpoint basename_chars (l : list ascii) (cur : list ascii) : list ascii :=
  match l with
  | [] => rev cur
  | c :: l' => if Ascii.eqb c "/" then basename_chars l' []
               else basename_chars l' (c :: cur)
  end.

(** [os.path.basename(p)] *)
Definition basename (p : string) : string :=
  string_of_list_ascii (basename_chars (list_ascii_of_string p) []).

(** [os.path.join(a, b)] for a relative [b]. *)
Definition path_join (a b : string) : string :=
  match rev (list_ascii_of_string a) with
  | [] => b
  | c :: _ => if Ascii.eqb c "/" then a ++ b else a ++ "/" ++ b
  end%string.

End Py.

Import Py.

(** ** The worker, its signals and the world around it *)

(** One track of the inspector's JSON: the fields the worker reads, each
    absent or a string. *)
Record track : Type := {
  track_type : option string;       (* '@type' *)
  track_Duration : option string;   (* 'Duration' *)
  track_BitRate : option string     (* 'BitRate' *)
}.

(** A command-line argument: a string, or [str(f)] of a float. *)
Inductive arg : Type :=
| Str (s : string)
| StrFloat (f : float).

(** What a finished external process leaves: its exit code, the lines it
    printed, and the size of the output file if it wrote one. *)
Record tool_result : Type := {
  returncode : Z;
  stdout : list string;
  written : option Z
}.

(** The external collaborators.  [mediainfo] answers with the track list of
    the JSON ([None] when the JSON has no [media.track]); a [Raise] stands for
    a failed process or unreadable output. *)
Record environment : Type := {
  mediainfo : string -> res (option (list track));
  ffmpeg : list arg -> res tool_result;
  handbrake : list arg -> res tool_result
}.

(** The fields of [EncodingWorker] set by [__init__] and never written again. *)
Record worker : Type := {
  media_files : list string;            (* the 'path' of every media dict *)
  handbrake_cli : string;
  mediainfo_exe : string;
  ffmpeg_exe : string;
  target_size_mb : string;
  audio_bitrate : option string;
  preset_file : option string;
  preset_name : option string;
  destination_folder : string;
  per_file_output_only : bool;
  delete_source_files : string;
  selected_encoder : string;
  selected_audio_encoder : string;
  selected_audio_tracks : list (list Z);
  variable_bitrate : bool;
  multi_pass : bool
}.

Definition total_files (self : worker) : Z :=
  Z.of_nat (List.length (media_files self)).

Definition hardware_encoders : list string :=
  ["nvenc_h264"; "nvenc_h265"; "nvenc_h265_10bit"]%string.

(** The texts sent on the [progress] signal, one constructor per message. *)
Inductive message : Type :=
| MsgStarting
| MsgProcessing (file_name : string)
| MsgErrorGettingDuration (file_name : string)
| MsgErrorGettingAudioBitrate (file_name : string)
| MsgInvalidAudioBitrateSpecified (file_name : string)
| MsgMismatch (file_name : string)
| MsgNoAudioBitrateSpecified (file_name : string)
| MsgFailedVideoBitrate (file_name : string)
| MsgFailedRF (file_name : string)
| MsgSummaryBitrate (duration : float) (video_bitrate : Z)
| MsgSummaryRF (duration : float) (rf : float)
| MsgCommand (command : list arg)
| MsgHandBrakeError (file_name : string)
| MsgCompleted (file_name : string)
| MsgErrorEncoding (file_name : string) (e : exn)
| MsgDurationNotFound (file_name : string)
| MsgErrorDuration (e : exn)
| MsgErrorAudioBitrate (e : exn)
| MsgInvalidTargetSize
| MsgInvalidDuration
| MsgInvalidAudioBitrateValues
| MsgAudioBitrateMissing
| MsgErrorDurationEstimation (file_name : string)
| MsgExtractingSample
| MsgErrorExtractingSample
| MsgEncodingSample (rf : float)
| MsgErrorEncodingSample
| MsgEncodedSampleNotCreated
| MsgHandBrakeOutput
| MsgEstimatedSize (rf : float) (size_mb : float)
| MsgErrorEstimation (e : exn).

(** The Qt signals of the worker. *)
Inductive signal : Type :=
| progress (m : message)
| clear_progress
| current_file (idx total : Z) (file_name : string)
| current_file_progress (p : Z)
| overall_progress (p : Z)
| handbrake_output (line : string)
| delete_file_signal (path : string) (mode : string)
| finished.

(** What an observer of the worker sees: the signals it emits and the
    external processes it starts ([subprocess.run], [subprocess.Popen]). *)
Inductive event : Type :=
| Signal (x : signal)
| Launch (command : list arg).

(** What the worker changes while it runs: its counter of processed files,
    and the two temporary files of the estimator in the destination folder
    ([temp_sample.mkv] present or not, [temp_encoded_sample.mkv] absent or of
    a given size). *)
Record state : Type := {
  processed_files : Z;
  temp_sample_file : bool;
  temp_encoded_sample : option Z
}.

(** ** A monad for the worker's methods: state, observed events, exceptions *)

Definition M (A : Type) : Type := state -> res A * state * list event.

Definition ret {A : Type} (a : A) : M A := fun s => (Ret a, s, []).

Definition bind {A B : Type} (m : M A) (k : A -> M B) : M B :=
  fun s =>
    match m s with
    | (Ret a, s1, l1) => let '(r, s2, l2) := k a s1 in (r, s2, l1 ++ l2)
    | (Raise e, s1, l1) => (Raise e, s1, l1)
    end.

Definition raise {A : Type} (e : exn) : M A := fun s => (Raise e, s, []).

Definition lift {A : Type} (r : res A) : M A := fun s => (r, s, []).

Definition emit (x : signal) : M unit := fun s => (Ret tt, s, [Signal x]).

Definition launch (command : list arg) : M unit := fun s => (Ret tt, s, [Launch command]).

Definition get : M state := fun s => (Ret s, s, []).

Definition put (s' : state) : M unit := fun _ => (Ret tt, s', []).

(** [try: m  except Exception as e: h e] *)
Definition try_except {A : Type} (m : M A) (h : exn -> M A) : M A :=
  fun s =>
    match m s with
    | (Ret a, s1, l1) => (Ret a, s1, l1)
    | (Raise e, s1, l1) => let '(r, s2, l2) := h e s1 in (r, s2, l1 ++ l2)
    end.

Declare Scope worker_scope.
Delimit Scope worker_scope with worker.
Notation "x <- m ;; k" := (bind m (fun x => k))
  (at level 61, m at next level, right associativity) : worker_scope.
Notation "m ;; k" := (bind m (fun _ => k))
  (at level 61, right associativity) : worker_scope.
#[local] Open Scope worker_scope.

(** [if x:] on an optional string: [None] and the empty string are false. *)
Definition truthy (o : option string) : bool :=
  match o with
  | Some s => negb (String.eqb s "")
  | None => false
  end.

Definition str_or_empty (o : option string) : string :=
  match o with Some s => s | None => ""%string end.

(** ** The temporary files of the estimator *)

Definition temp_sample_path (self : worker) : string :=
  path_join (destination_folder self) "temp_sample.mkv".

Definition temp_encoded_path (self : worker) : string :=
  path_join (destination_folder self) "temp_encoded_sample.mkv".

Definition exists_temp_sample : M bool :=
  s <- get ;; ret (temp_sample_file s).

Definition exists_temp_encoded : M bool :=
  s <- get ;; ret (match temp_encoded_sample s with Some _ => true | None => false end).

(** [os.remove]: an [OSError] when the file is not there. *)
Definition remove_temp_sample : M unit :=
  s <- get ;;
  if temp_sample_file s
  then put {| processed_files := processed_files s;
              temp_sample_file := false;
              temp_encoded_sample := temp_encoded_sample s |}
  else raise OSError.

Definition remove_temp_encoded : M unit :=
  s <- get ;;
  match temp_encoded_sample s with
  | Some _ => put {| processed_files := processed_files s;
                     temp_sample_file := temp_sample_file s;
                     temp_encoded_sample := None |}
  | None => raise OSError
  end.

(** [os.path.getsize] *)
Definition getsize_temp_encoded : M Z :=
  s <- get ;;
  match temp_encoded_sample s with
  | Some n => ret n
  | None => raise OSError
  end.

(** Running the sample extractor: a process that wrote its output leaves
    [temp_sample.mkv] behind. *)
Definition run_ffmpeg (env : environment) (cmd : list arg) : M tool_result :=
  launch cmd ;;
  r <- lift (ffmpeg env cmd) ;;
  s <- get ;;
  put {| processed_files := processed_files s;
         temp_sample_file := match written r with
                             | Some _ => true
                             | None => temp_sample_file s
                             end;
         temp_encoded_sample := temp_encoded_sample s |} ;;
  ret r.

(** Running the transcoder on the sample: a process that wrote its output
    leaves [temp_encoded_sample.mkv] behind, of the size it wrote. *)
Definition run_handbrake_sample (env : environment) (cmd : list arg) : M tool_result :=
  launch cmd ;;
  r <- lift (handbrake env cmd) ;;
  s <- get ;;
  put {| processed_files := processed_files s;
         temp_sample_file := temp_sample_file s;
         temp_encoded_sample := match written r with
                                | Some n => Some n
                                | None => temp_encoded_sample s
                                end |} ;;
  ret r.

(** ** The two regular expressions of the progress parser *)

Module Re.

(** The longest run of digits at the head of [l], and what follows it. *)
Fixpoint span_digits (l : list ascii) : list ascii * list ascii :=
  match l with
  | c :: l' =>
      if is_digit c then let (ds, r) := span_digits l' in (c :: ds, r)
      else ([], l)
  | [] => ([], [])
  end.

(** A match of [(\d+\.\d+) %] starting at the head of [l]: its group 1.
    ([\d+] is greedy, and giving back digits never helps, since what must
    follow a run of digits here is not a digit.) *)
Definition match_decimal (l : list ascii) : option (list ascii) :=
  match span_digits l with
  | ((_ :: _) as ip, "."%char :: r) =>
      match span_digits r with
      | ((_ :: _) as fp, " "%char :: "%"%char :: _) => Some (ip ++ "."%char :: fp)
      | _ => None
      end
  | _ => None
  end.

(** A match of [(\d+) %] starting at the head of [l]: its group 1. *)
Definition match_integer (l : list ascii) : option (list ascii) :=
  match span_digits l with
  | ((_ :: _) as ip, " "%char :: "%"%char :: _) => Some ip
  | _ => None
  end.

(** [re.search]: the match at the leftmost position that has one. *)
Fixpoint search_chars (m : list ascii -> option (list ascii)) (l : list ascii)
  : option (list ascii) :=
  match m l with
  | Some g => Some g
  | None =>
      match l with
      | [] => None
      | _ :: l' => search_chars m l'
      end
  end.

Definition search (m : list ascii -> option (list ascii)) (s : string)
  : option string :=
  option_map string_of_list_ascii (search_chars m (list_ascii_of_string s)).

End Re.

(** ** The methods of [EncodingWorker] *)

Definition set_processed_files (n : Z) : M unit :=
  s <- get ;;
  put {| processed_files := n;
         temp_sample_file := temp_sample_file s;
         temp_encoded_sample := temp_encoded_sample s |}.

(** [try: m  except ValueError: h] *)
Definition try_except_ValueError {A : Type} (m : M A) (h : M A) : M A :=
  fun s =>
    match m s with
    | (Raise ValueError, s1, l1) => let '(r, s2, l2) := h s1 in (r, s2, l1 ++ l2)
    | other => other
    end.

(** [l[i]] on a Python list: negative indices count from the end. *)
Definition getitem {A : Type} (l : list A) (i : Z) : res A :=
  let n := Z.of_nat (List.length l) in
  let j := if i <? 0 then i + n else i in
  if (0 <=? j) && (j <? n) then
    match nth_error l (Z.to_nat j) with
    | Some x => Ret x
    | None => Raise IndexError
    end
  else Raise IndexError.

(** [next(track for track in tracks if track['@type'] == 'General')] *)
Fixpoint find_general (tracks : list track) : res track :=
  match tracks with
  | [] => Raise StopIteration
  | t :: rest =>
      match track_type t with
      | None => Raise KeyError
      | Some ty => if String.eqb ty "General" then Ret t else find_general rest
      end
  end.

Definition is_audio (t : track) : bool :=
  match track_type t with
  | Some ty => String.eqb ty "Audio"
  | None => false
  end.

(** The test [bitrate_str and str(bitrate_str).lower() != "n/a"]. *)
Definition has_bitrate (t : track) : bool :=
  truthy (track_BitRate t)
  && negb (String.eqb (lower_str (str_or_empty (track_BitRate t))) "n/a").

(** The loop of [get_audio_bitrate] over the audio tracks. *)
Fixpoint add_audio_bitrates (audio_tracks : list track) (audio_bitrate_total : float)
  : res float :=
  match audio_tracks with
  | [] => Ret audio_bitrate_total
  | t :: rest =>
      if has_bitrate t then
        rbind (float_of_str (str_or_empty (track_BitRate t)))
              (fun b => add_audio_bitrates rest (audio_bitrate_total + b / 1000)%float)
      else add_audio_bitrates rest audio_bitrate_total
  end.

(** [hours], [minutes] and [secs] of [format_duration] are [int(...)] of
    floor divisions and remainders of [seconds]: finite for a finite
    [seconds], NaN otherwise, on which [int] raises.  The text is for display
    only; the model keeps the argument in its place. *)
Definition format_duration (seconds : float) : res float :=
  if is_finite seconds then Ret seconds else Raise ValueError.

Definition should_display_line (line : string) : bool := true.

(** [int((processed + fraction) / total * 100)] on an [int] count, a [float]
    fraction and an [int] total. *)
Definition percent_of (total processed : Z) (fraction : float) : res Z :=
  rbind (float_of_int processed) (fun p =>
  rbind (float_of_int total) (fun t =>
  rbind (truediv (p + fraction) t) (fun q =>
  int_of_float (q * 100)))).

(** One pass through the body of the estimator's [while] loop ends in one of
    three ways. *)
Inductive flow : Type :=
| Next (lower_rf upper_rf rf_value : float)   (* fell through to the next test *)
| Break                                        (* [break] *)
| ReturnNone.                                  (* [return None] *)

Section Worker.

Variable env : environment.
Variable self : worker.

Definition is_hardware_encoder : bool :=
  existsb (String.eqb (selected_encoder self)) hardware_encoders.

(** [(processed + fraction) / self.total_files * 100], then [int]. *)
Definition overall_percent (processed : Z) (fraction : float) : res Z :=
  percent_of (total_files self) processed fraction.

Definition update_overall_progress (processed current_file_progress : Z) : M unit :=
  fraction <- lift (int_truediv current_file_progress 100) ;;
  overall <- lift (overall_percent processed fraction) ;;
  emit (overall_progress overall).

Definition get_duration (file_path : string) : M (option float) :=
  try_except
    (data <- lift (mediainfo env file_path) ;;
     tracks <- lift (match data with Some tr => Ret tr | None => Raise KeyError end) ;;
     general_track <- lift (find_general tracks) ;;
     match track_Duration general_track with
     | None =>
         emit (progress (MsgDurationNotFound (basename file_path))) ;;
         ret None
     | Some duration_str =>
         duration_seconds <- lift (float_of_str duration_str) ;;
         ret (Some duration_seconds)
     end)
    (fun e => emit (progress (MsgErrorDuration e)) ;; ret None).

Definition get_audio_bitrate (file_path : string) : M (option Z) :=
  try_except
    (data <- lift (mediainfo env file_path) ;;
     let tracks := match data with Some tr => tr | None => [] end in
     let audio_tracks := filter is_audio tracks in
     audio_bitrate_total <- lift (add_audio_bitrates audio_tracks 0) ;;
     total <- lift (int_of_float audio_bitrate_total) ;;
     ret (Some total))
    (fun e => emit (progress (MsgErrorAudioBitrate e)) ;; ret None).

(** The second parameter is shadowed at once by [float(self.target_size_mb)]. *)
Definition calculate_video_bitrate (duration : option float) (target_size_mb_arg : string)
    (audio_bitrate_values : list string) : M (option Z) :=
  t <- try_except_ValueError
         (x <- lift (float_of_str (target_size_mb self)) ;; ret (Some x))
         (emit (progress MsgInvalidTargetSize) ;; ret None) ;;
  match t, duration with
  | None, _ => ret None
  | Some _, None => emit (progress MsgInvalidDuration) ;; ret None
  | Some target_size, Some duration =>
      if (duration <=? 0)%float then emit (progress MsgInvalidDuration) ;; ret None
      else
        match audio_bitrate_values with
        | [] => emit (progress MsgAudioBitrateMissing) ;; ret None
        | _ :: _ =>
            a <- try_except_ValueError
                   (fs <- lift (rmap float_of_str audio_bitrate_values) ;;
                    let total_audio_bitrate := sum fs in
                    ret (Some (total_audio_bitrate * 1000)%float))
                   (emit (progress MsgInvalidAudioBitrateValues) ;; ret None) ;;
            match a with
            | None => ret None
            | Some audio_bitrate_bps =>
                let target_size_bits := (target_size * 8 * 1024 * 1024)%float in
                total_bitrate_bps <- lift (truediv target_size_bits duration) ;;
                let video_bitrate_bps := (total_bitrate_bps - audio_bitrate_bps)%float in
                let video_bitrate_kbps := (video_bitrate_bps / 1000)%float in
                v <- lift (int_of_float video_bitrate_kbps) ;;
                ret (Some v)
            end
        end
  end.

Definition get_output_file_path (input_file_path : string) : string :=
  path_join (destination_folder self) (basename input_file_path).

Definition parse_handbrake_output (line : string) : M unit :=
  match Re.search Re.match_decimal line with
  | Some g =>
      percentage <- lift (float_of_str g) ;;
      s <- get ;;
      overall <- lift (overall_percent (processed_files s) (percentage / 100)%float) ;;
      emit (overall_progress overall) ;;
      p <- lift (int_of_float percentage) ;;
      emit (current_file_progress p)
  | None =>
      match Re.search Re.match_integer line with
      | Some g =>
          percentage <- lift (int_of_str g) ;;
          s <- get ;;
          fraction <- lift (int_truediv percentage 100) ;;
          overall <- lift (overall_percent (processed_files s) fraction) ;;
          emit (overall_progress overall) ;;
          emit (current_file_progress percentage)
      | None => ret tt
      end
  end.

(** *** The constant-quality estimator *)

Definition preset_args : list arg :=
  [Str "--preset-import-file"; Str (str_or_empty (preset_file self));
   Str "-Z"; Str (str_or_empty (preset_name self))].

(** [if x and x != 'None'] on an encoder name. *)
Definition encoder_given (name : string) : bool :=
  negb (String.eqb name "") && negb (String.eqb name "None").

Definition ffmpeg_cmd (file_path : string) (sample_start sample_duration : float)
  : list arg :=
  [Str (ffmpeg_exe self); Str "-y";
   Str "-ss"; StrFloat sample_start;
   Str "-i"; Str file_path;
   Str "-t"; StrFloat sample_duration;
   Str "-c"; Str "copy";
   Str (temp_sample_path self)].

Definition sample_command (rf_value : float) : list arg :=
  [Str (handbrake_cli self);
   Str "-i"; Str (temp_sample_path self);
   Str "-o"; Str (temp_encoded_path self);
   Str "-e"; Str (selected_encoder self);
   Str "-q"; StrFloat rf_value]
  ++ (if truthy (preset_file self) && truthy (preset_name self)
      then preset_args else [Str "--all-subtitles"])
  ++ (if encoder_given (selected_audio_encoder self)
      then [Str "-E"; Str (selected_audio_encoder self)]
           ++ (if truthy (audio_bitrate self)
               then [Str "-B"; Str (str_or_empty (audio_bitrate self))] else [])
      else []).

(** [estimated_total_size_mb] of one iteration. *)
Definition estimated_total_size_mb (sample_size_bytes duration_ratio
    total_audio_bitrate_kbps duration : float) : float :=
  let estimated_video_size_bytes := (sample_size_bytes * duration_ratio)%float in
  let total_audio_size_bytes := ((total_audio_bitrate_kbps * 1000 / 8) * duration)%float in
  let estimated_total_size_bytes :=
    (estimated_video_size_bytes + total_audio_size_bytes)%float in
  (estimated_total_size_bytes / (1024 * 1024))%float.

(** The body of the [while] loop. *)
Definition rf_iteration (duration sample_duration : float)
    (acceptable_lower_size acceptable_upper_size : float)
    (audio_bitrate_values : list string)
    (lower_rf upper_rf rf_value : float) : M flow :=
  emit (progress (MsgEncodingSample rf_value)) ;;
  result <- run_handbrake_sample env (sample_command rf_value) ;;
  if negb (returncode result =? 0) then
    emit (progress MsgErrorEncodingSample) ;;
    ret ReturnNone
  else
    there <- exists_temp_encoded ;;
    if negb there then
      emit (progress MsgEncodedSampleNotCreated) ;;
      emit (progress MsgHandBrakeOutput) ;;
      ret ReturnNone
    else
      sample_size_bytes <- getsize_temp_encoded ;;
      duration_ratio <- lift (truediv duration sample_duration) ;;
      size <- lift (float_of_int sample_size_bytes) ;;
      fs <- lift (rmap float_of_str audio_bitrate_values) ;;
      let total_audio_bitrate_kbps := sum fs in
      let size_mb :=
        estimated_total_size_mb size duration_ratio total_audio_bitrate_kbps duration in
      emit (progress (MsgEstimatedSize rf_value size_mb)) ;;
      if (acceptable_lower_size <=? size_mb)%float
         && (size_mb <=? acceptable_upper_size)%float
      then ret Break
      else
        let lower_rf' := if (acceptable_upper_size <? size_mb)%float
                         then rf_value else lower_rf in
        let upper_rf' := if (acceptable_upper_size <? size_mb)%float
                         then upper_rf else rf_value in
        let rf_value' := ((lower_rf' + upper_rf') / 2)%float in
        remove_temp_encoded ;;
        ret (Next lower_rf' upper_rf' rf_value').

(** The [while iteration < max_iterations] loop with [remaining] passes
    left: [Some rf_value] when the loop is left by [break] or by its test,
    [None] when a pass returned [None] from the method. *)
Fixpoint rf_loop (remaining : nat) (duration sample_duration : float)
    (acceptable_lower_size acceptable_upper_size : float)
    (audio_bitrate_values : list string)
    (lower_rf upper_rf rf_value : float) : M (option float) :=
  match remaining with
  | O => ret (Some rf_value)
  | S remaining' =>
      f <- rf_iteration duration sample_duration
             acceptable_lower_size acceptable_upper_size
             audio_bitrate_values lower_rf upper_rf rf_value ;;
      match f with
      | Next lower_rf' upper_rf' rf_value' =>
          rf_loop remaining' duration sample_duration
            acceptable_lower_size acceptable_upper_size
            audio_bitrate_values lower_rf' upper_rf' rf_value'
      | Break => ret (Some rf_value)
      | ReturnNone => ret None
      end
  end.

Definition max_iterations : nat := 10.

(** What follows the loop: "Clean up temporary files", then
    [return round(rf_value, 2)]. *)
Definition clean_up_and_return (rf_value : float) : M (option float) :=
  remove_temp_sample ;;
  left_over <- exists_temp_encoded ;;
  (if left_over then remove_temp_encoded else ret tt) ;;
  ret (Some (round2 rf_value)).

Definition estimate_rf_value (file_path : string) (target_size : float)
    (audio_bitrate_values : list string) : M (option float) :=
  try_except
    (duration <- get_duration file_path ;;
     match duration with
     | None =>
         emit (progress (MsgErrorDurationEstimation (basename file_path))) ;;
         ret None
     | Some duration =>
         let sample_percentage := 0.05%float in
         let sample_duration := (duration * sample_percentage)%float in
         let sample_start := ((duration - sample_duration) / 2)%float in
         old_sample <- exists_temp_sample ;;
         (if old_sample then remove_temp_sample else ret tt) ;;
         old_encoded <- exists_temp_encoded ;;
         (if old_encoded then remove_temp_encoded else ret tt) ;;
         emit (progress MsgExtractingSample) ;;
         result <- run_ffmpeg env (ffmpeg_cmd file_path sample_start sample_duration) ;;
         if negb (returncode result =? 0) then
           emit (progress MsgErrorExtractingSample) ;;
           ret None
         else
           let acceptable_lower_size := (target_size * 0.95)%float in
           let acceptable_upper_size := (target_size * 1.05)%float in
           let lower_rf := 18%float in
           let upper_rf := 40%float in
           let rf_value := ((lower_rf + upper_rf) / 2)%float in
           r <- rf_loop max_iterations duration sample_duration
                  acceptable_lower_size acceptable_upper_size
                  audio_bitrate_values lower_rf upper_rf rf_value ;;
           match r with
           | None => ret None
           | Some rf_value => clean_up_and_return rf_value
           end
     end)
    (fun e => emit (progress (MsgErrorEstimation e)) ;; ret None).

(** *** The batch loop *)

(** [self.update_overall_progress(self.processed_files, 0)] before a [continue]. *)
Definition report_skipped : M unit :=
  s <- get ;;
  update_overall_progress (processed_files s) 0.

(** [[bitrate_values[i] for i in selected_tracks if i < len(bitrate_values)]] *)
Fixpoint select_bitrates (bitrate_values : list string) (selected_tracks : list Z)
  : res (list string) :=
  match selected_tracks with
  | [] => Ret []
  | i :: rest =>
      if i <? Z.of_nat (List.length bitrate_values) then
        rbind (getitem bitrate_values i) (fun b =>
        rbind (select_bitrates bitrate_values rest) (fun bs => Ret (b :: bs)))
      else select_bitrates bitrate_values rest
  end.

(** "Determine audio bitrate": the bitrate strings handed to the
    calculators, or [None] when the file is given up ([continue]). *)
Definition determine_audio_bitrate (idx : Z) (file_path file_name : string)
  : M (option (list string)) :=
  if String.eqb (selected_audio_encoder self) "copy" then
    audio_bitrate_total <- get_audio_bitrate file_path ;;
    match audio_bitrate_total with
    | None =>
        emit (progress (MsgErrorGettingAudioBitrate file_name)) ;;
        report_skipped ;;
        ret None
    | Some total => ret (Some [str_of_int total])
    end
  else if truthy (audio_bitrate self) then
    let bitrate_values :=
      map strip (split "," (str_or_empty (audio_bitrate self))) in
    valid <- try_except_ValueError
               (_ <- lift (rmap int_of_str bitrate_values) ;; ret true)
               (emit (progress (MsgInvalidAudioBitrateSpecified file_name)) ;;
                report_skipped ;;
                ret false) ;;
    if valid then
      selected_tracks <- lift (getitem (selected_audio_tracks self) (idx - 1)) ;;
      selected_bitrate_values <- lift (select_bitrates bitrate_values selected_tracks) ;;
      if negb (Nat.eqb (List.length selected_bitrate_values) (List.length selected_tracks))
      then
        emit (progress (MsgMismatch file_name)) ;;
        report_skipped ;;
        ret None
      else ret (Some selected_bitrate_values)
    else ret None
  else
    emit (progress (MsgNoAudioBitrateSpecified file_name)) ;;
    report_skipped ;;
    ret None.

(** The encode parameter of a file: [-b video_bitrate] or [-q rf_value]. *)
Inductive parameter : Type :=
| Bitrate (video_bitrate : Z)
| Quality (estimated_rf_value : float).

Definition handbrake_command (file_path : string) (p : parameter)
    (selected_tracks : list Z) : list arg :=
  [Str (handbrake_cli self);
   Str "-i"; Str file_path;
   Str "-o"; Str (get_output_file_path file_path)]
  ++ (if truthy (preset_file self) && truthy (preset_name self)
      then preset_args else [])
  ++ (match p with
      | Quality estimated_rf_value => [Str "-q"; StrFloat estimated_rf_value]
      | Bitrate video_bitrate => [Str "-b"; Str (str_of_int video_bitrate)]
      end)
  ++ (if negb (variable_bitrate self) && negb is_hardware_encoder
      then (if multi_pass self then [Str "--multi-pass"] else [Str "--no-multi-pass"])
      else [])
  ++ (match preset_name self with None => [Str "--all-subtitles"] | Some _ => [] end)
  ++ (if encoder_given (selected_encoder self)
      then [Str "-e"; Str (selected_encoder self)] else [])
  ++ (match selected_tracks with
      | [] => []
      | _ :: _ =>
          [Str "-a"; Str (join "," (map (fun i => str_of_int (i + 1)) selected_tracks))]
      end)
  ++ (if truthy (audio_bitrate self)
         && (match selected_tracks with [] => false | _ :: _ => true end)
         && negb (String.eqb (selected_audio_encoder self) "copy")
         && negb (String.eqb (selected_audio_encoder self) "None")
      then [Str "-B"; Str (str_or_empty (audio_bitrate self))] else [])
  ++ (if encoder_given (selected_audio_encoder self)
      then [Str "-E"; Str (selected_audio_encoder self)] else []).

(** [for line in process.stdout: ...] *)
Fixpoint read_output (lines : list string) : M unit :=
  match lines with
  | [] => ret tt
  | line :: rest =>
      (if should_display_line line then
         emit (handbrake_output (strip line)) ;;
         parse_handbrake_output (strip line)
       else ret tt) ;;
      read_output rest
  end.

(** The [try] block around the transcoder and what follows it. *)
Definition run_handbrake (file_path file_name : string) (command : list arg) : M unit :=
  try_except
    (launch command ;;
     process <- lift (handbrake env command) ;;
     read_output (stdout process) ;;
     if negb (returncode process =? 0) then
       emit (progress (MsgHandBrakeError file_name)) ;;
       emit (current_file_progress 0)
     else
       emit (current_file_progress 100) ;;
       emit (progress (MsgCompleted file_name)) ;;
       emit (delete_file_signal file_path (delete_source_files self)))
    (fun e => emit (progress (MsgErrorEncoding file_name e))) ;;
  s <- get ;;
  set_processed_files (processed_files s + 1) ;;
  update_overall_progress (processed_files s + 1) 0.

(** The encode parameter, or [None] when the file is given up. *)
Definition encode_parameter (file_path file_name : string) (duration : float)
    (selected_bitrate_values : list string) : M (option parameter) :=
  video_bitrate <- calculate_video_bitrate (Some duration) (target_size_mb self)
                     selected_bitrate_values ;;
  match video_bitrate with
  | None =>
      emit (progress (MsgFailedVideoBitrate file_name)) ;;
      report_skipped ;;
      ret None
  | Some _ =>
      duration_formatted <- lift (format_duration duration) ;;
      if variable_bitrate self then
        target_size <- lift (float_of_str (target_size_mb self)) ;;
        estimated_rf_value <- estimate_rf_value file_path target_size
                                selected_bitrate_values ;;
        match estimated_rf_value with
        | None =>
            emit (progress (MsgFailedRF file_name)) ;;
            report_skipped ;;
            ret None
        | Some rf =>
            emit (progress (MsgSummaryRF duration_formatted rf)) ;;
            ret (Some (Quality rf))
        end
      else
        video_bitrate <- calculate_video_bitrate (Some duration) (target_size_mb self)
                           selected_bitrate_values ;;
        match video_bitrate with
        | None =>
            emit (progress (MsgFailedVideoBitrate file_name)) ;;
            report_skipped ;;
            ret None
        | Some v =>
            emit (progress (MsgSummaryBitrate duration_formatted v)) ;;
            ret (Some (Bitrate v))
        end
  end.

(** The body of the [for] loop of [run] for one file. *)
Definition process_file (idx : Z) (file_path : string) : M unit :=
  (if per_file_output_only self then
     emit clear_progress ;;
     emit (progress MsgStarting)
   else ret tt) ;;
  let file_name := basename file_path in
  emit (current_file idx (total_files self) file_name) ;;
  emit (progress (MsgProcessing file_name)) ;;
  emit (current_file_progress 0) ;;
  duration <- get_duration file_path ;;
  match duration with
  | None =>
      emit (progress (MsgErrorGettingDuration file_name)) ;;
      report_skipped
  | Some duration =>
      selected <- determine_audio_bitrate idx file_path file_name ;;
      match selected with
      | None => ret tt
      | Some selected_bitrate_values =>
          p <- encode_parameter file_path file_name duration selected_bitrate_values ;;
          match p with
          | None => ret tt
          | Some p =>
              selected_tracks <- lift (getitem (selected_audio_tracks self) (idx - 1)) ;;
              let command := handbrake_command file_path p selected_tracks in
              emit (progress (MsgCommand command)) ;;
              run_handbrake file_path file_name command
          end
      end
  end.

(** [for idx, media in enumerate(self.media_files, start=1)] *)
Fixpoint run_files (idx : Z) (files : list string) : M unit :=
  match files with
  | [] => ret tt
  | file_path :: rest =>
      process_file idx file_path ;;
      run_files (idx + 1) rest
  end.

Definition run : M unit :=
  emit (progress MsgStarting) ;;
  set_processed_files 0 ;;
  run_files 1 (media_files self) ;;
  emit (overall_progress 100) ;;
  emit finished.

End Worker.

(** ** Inputs used in the examples *)

Definition idle : state :=
  {| processed_files := 0; temp_sample_file := false; temp_encoded_sample := None |}.

(** A worker for the files [files] with target size [target], audio encoder
    [encoder] with bitrates [bitrates], selected tracks [tracks], in
    constant-quality mode when [vbr]. *)
Definition a_worker (files : list string) (target : string) (encoder : string)
    (bitrates : option string) (tracks : list (list Z)) (vbr : bool) : worker :=
  {| media_files := files;
     handbrake_cli := "HandBrakeCLI";
     mediainfo_exe := "mediainfo";
     ffmpeg_exe := "ffmpeg";
     target_size_mb := target;
     audio_bitrate := bitrates;
     preset_file := None;
     preset_name := None;
     destination_folder := "/out";
     per_file_output_only := false;
     delete_source_files := "Never";
     selected_encoder := "x264";
     selected_audio_encoder := encoder;
     selected_audio_tracks := tracks;
     variable_bitrate := vbr;
     multi_pass := false |}.

(** An inspector answer: a general track of the given duration and one
    audio track per given bitrate field. *)
Definition some_tracks (duration : option string) (bitrates : list (option string))
  : list track :=
  {| track_type := Some "General"%string; track_Duration := duration; track_BitRate := None |}
  :: map (fun b => {| track_type := Some "Audio"%string;
                      track_Duration := None; track_BitRate := b |}) bitrates.

(** A process that exits with [code], prints [lines] and writes [size] bytes. *)
Definition exits (code : Z) (lines : list string) (size : option Z) : res tool_result :=
  Ret {| returncode := code; stdout := lines; written := size |}.

(** A world in which the inspector answers [answer] for every file. *)
Definition a_world (answer : res (option (list track)))
    (extractor transcoder : list arg -> res tool_result) : environment :=
  {| mediainfo := fun _ => answer; ffmpeg := extractor; handbrake := transcoder |}.

(** A stub transcoder: the sample it encodes at quality [q] (the argument
    after [-q]) is 40 MB below 24, 30 MB above 26 and 35 MB in between. *)
Definition a_transcoder (command : list arg) : res tool_result :=
  match nth_error command 8 with
  | Some (StrFloat q) =>
      if (q <? 24)%float then exits 0 [] (Some 41943040)
      else if (26 <? q)%float then exits 0 [] (Some 31457280)
      else exits 0 [] (Some 36700160)
  | _ => exits 0 [] (Some 36700160)
  end.

(** ** The bisection, stated apart from the estimator *)

Definition mid (l u : float) : float := ((l + u) / 2)%float.

(** One bisection of the interval [[l, u]]: the lower bound moves up to the
    midpoint when the estimate was too large, the upper bound moves down to
    it otherwise. *)
Definition bisect (too_large : bool) (iv : float * float) : float * float :=
  if too_large then (mid (fst iv) (snd iv), snd iv)
  else (fst iv, mid (fst iv) (snd iv)).

(** The interval reached from [iv] by the decisions of [path]. *)
Fixpoint walk (iv : float * float) (path : list bool) : float * float :=
  match path with
  | [] => iv
  | b :: rest => walk (bisect b iv) rest
  end.

(** The midpoints of the intervals met along [path], the first one included. *)
Fixpoint midpoints (iv : float * float) (path : list bool) : list float :=
  mid (fst iv) (snd iv)
  :: match path with
     | [] => []
     | b :: rest => midpoints (bisect b iv) rest
     end.

(** The quality values the estimator had the transcoder encode the sample
    at, in order, as read off the events. *)
Definition candidate (e : event) : option float :=
  match e with
  | Signal (progress (MsgEncodingSample rf)) => Some rf
  | _ => None
  end.

Fixpoint candidates (evs : list event) : list float :=
  match evs with
  | [] => []
  | e :: rest =>
      match candidate e with
      | Some rf => rf :: candidates rest
      | None => candidates rest
      end
  end.

(** All lists of booleans of length at most [n]. *)
Fixpoint paths (n : nat) : list (list bool) :=
  match n with
  | O => [[]]
  | S n' => [] :: map (cons true) (paths n') ++ map (cons false) (paths n')
  end.

(** What is checked of the interval reached from [[18, 40]] by [path] and of
    its two halves: it lies within [[18, 40]] around its midpoint, its width
    is [22 / 2^(length path)], either bisection of it has half that width,
    and its midpoint rounded to two decimals is within [[18, 40]] too. *)
Definition width (iv : float * float) : float := (snd iv - fst iv)%float.

Definition check_interval (path : list bool) : bool :=
  let iv := walk (18, 40)%float path in
  let m := mid (fst iv) (snd iv) in
  ((18 <=? fst iv) && (fst iv <=? m) && (m <=? snd iv) && (snd iv <=? 40)
   && (width iv =? 22 / nearest_of_Z (2 ^ Z.of_nat (List.length path)))
   && (width (bisect true iv) =? width iv / 2)
   && (width (bisect false iv) =? width iv / 2)
   && (18 <=? round2 m) && (round2 m <=? 40))%float.

(** The acceptance test of the estimator: within 95% and 105% of the target. *)
Definition in_band (target estimate : float) : bool :=
  ((target * 0.95 <=? estimate) && (estimate <=? target * 1.05))%float.



(** ** The size estimate, stated apart from the estimator *)

(** The size of the whole file in bytes as the specification extrapolates
    it from the encoded sample. *)
Definition extrapolated_size_bytes (sample_output_size full_duration sample_duration
    total_audio_bitrate_kbps : float) : float :=
  let audio_size_estimate := (total_audio_bitrate_kbps * 1000 / 8 * full_duration)%float in
  (sample_output_size * (full_duration / sample_duration) + audio_size_estimate)%float.

(** The estimates the estimator reports, each with the quality value it is
    the estimate of, in order, as read off the events. *)
Definition estimate_of (e : event) : option (float * float) :=
  match e with
  | Signal (progress (MsgEstimatedSize rf size_mb)) => Some (rf, size_mb)
  | _ => None
  end.

Fixpoint estimates (evs : list event) : list (float * float) :=
  match evs with
  | [] => []
  | e :: rest =>
      match estimate_of e with
      | Some x => x :: estimates rest
      | None => estimates rest
      end
  end.

(** [path] is the way the search takes from the interval [iv] when the
    estimate for a quality value [rf] is [estimate rf] MB: at each step the
    estimate for the midpoint is outside the band, and the decision is
    whether it is above the band. *)
Fixpoint outside_band (target : float) (estimate : float -> float)
    (iv : float * float) (path : list bool) : Prop :=
  match path with
  | [] => True
  | b :: rest =>
      in_band target (estimate (mid (fst iv) (snd iv))) = false
      /\ b = (target * 1.05 <? estimate (mid (fst iv) (snd iv)))%float
      /\ outside_band target estimate (bisect b iv) rest
  end.

(** The sizes of the samples that the stub transcoder [a_transcoder] leaves. *)
Definition a_transcoder_bytes (q : float) : Z :=
  if (q <? 24)%float then 41943040
  else if (26 <? q)%float then 31457280
  else 36700160.

(** ** The audio total of the pass-through mode, stated apart from the code *)

(** A track that adds to the total: its type is [Audio], and its bitrate is
    there, is not empty and is not [N/A], in whatever case of letters. *)
Definition adds_to_total (t : track) : Prop :=
  track_type t = Some "Audio"%string
  /\ exists b, track_BitRate t = Some b
               /\ b <> ""%string /\ lower_str b <> "n/a"%string.

(** [audio_bitrates_of tracks bitrates]: [bitrates] are the bitrate fields
    of the tracks of [tracks] that add to the total, in the order of the
    tracks; every other track is passed over. *)
Inductive audio_bitrates_of : list track -> list string -> Prop :=
| no_track : audio_bitrates_of [] []
| audio_track_with_bitrate (t : track) (b : string) (tracks : list track)
    (bitrates : list string) :
    adds_to_total t -> track_BitRate t = Some b ->
    audio_bitrates_of tracks bitrates ->
    audio_bitrates_of (t :: tracks) (b :: bitrates)
| track_passed_over (t : track) (tracks : list track) (bitrates : list string) :
    ~ adds_to_total t ->
    audio_bitrates_of tracks bitrates ->
    audio_bitrates_of (t :: tracks) bitrates.

(** An inspector answer with tracks of every kind: the general and the
    video track have a bitrate too, and of the four audio tracks one has
    [N/A] for a bitrate and one has none. *)
Definition mixed_tracks : list track :=
  [ {| track_type := Some "General"%string; track_Duration := Some "100"%string;
       track_BitRate := Some "5200000"%string |};
    {| track_type := Some "Video"%string; track_Duration := None;
       track_BitRate := Some "5000000"%string |};
    {| track_type := Some "Audio"%string; track_Duration := None;
       track_BitRate := Some "128000"%string |};
    {| track_type := Some "Audio"%string; track_Duration := None;
       track_BitRate := Some "N/A"%string |};
    {| track_type := Some "Audio"%string; track_Duration := None;
       track_BitRate := Some "64500"%string |};
    {| track_type := Some "Audio"%string; track_Duration := None;
       track_BitRate := None |};
    {| track_type := Some "Text"%string; track_Duration := None;
       track_BitRate := Some "90"%string |} ].

(** ** Progress tokens, stated apart from the parser *)

(** A non-empty run of decimal digits. *)
Definition digits (l : list ascii) : Prop :=
  l <> [] /\ Forall (fun c => is_digit c = true) l.




(** The number a run of digits denotes, read from [acc] on. *)
Definition digits_value (ds : list ascii) (acc : Z) : Z :=
  fold_left (fun a c => a * 10 + match digit_val c with Some d => d | None => 0 end) ds acc.



(** ** What the batch loop reports once the transcoder has been run *)

(** The three reports of the [try] block around the transcoder: one of them
    is made for every file the transcoder is started on. *)
Definition transcode_outcome (e : event) : bool :=
  match e with
  | Signal (progress (MsgCompleted _))
  | Signal (progress (MsgHandBrakeError _))
  | Signal (progress (MsgErrorEncoding _ _)) => true
  | _ => false
  end.

(** The events that only the end of the loop body produces: the three
    reports above and the request to delete the source file. *)
Definition after_transcode (e : event) : bool :=
  transcode_outcome e
  || match e with Signal (delete_file_signal _ _) => true | _ => false end.

(** How many files the events tell the transcoder was run on. *)
Definition counted (evs : list event) : Z :=
  Z.of_nat (List.length (filter transcode_outcome evs)).

(** A computation that leaves the counter of processed files alone and
    produces none of the events of the end of the loop body. *)
Definition inert {A : Type} (m : M A) : Prop :=
  forall st r st' evs,
    m st = (r, st', evs) ->
    processed_files st' = processed_files st
    /\ existsb after_transcode evs = false.

(** A computation on the files [files] that adds to the counter of
    processed files the number of files it reports the transcoder was run
    on, at most one per file, and that requests the deletion of a source file
    only for one of its files that it reports completed, after a transcoder
    process it started has exited with code 0. *)
Definition accounts {A : Type} (env : environment) (self : worker)
    (files : list string) (m : M A) : Prop :=
  forall st r st' evs,
    m st = (r, st', evs) ->
    processed_files st' = processed_files st + counted evs
    /\ 0 <= counted evs <= Z.of_nat (List.length files)
    /\ forall p mode,
         In (Signal (delete_file_signal p mode)) evs ->
         In p files
         /\ mode = delete_source_files self
         /\ In (Signal (progress (MsgCompleted (basename p)))) evs
         /\ exists command result,
              In (Launch command) evs
              /\ handbrake env command = Ret result
              /\ returncode result = 0.

(** Further inputs used in the examples: an inspector that finds a general
    track of 3600.5 s and two audio tracks in every file, no sample
    extractor, and a transcoder that succeeds; a batch of three files of
    which the second selects a track that has no bitrate value. *)
Definition two_track_world : environment :=
  a_world (Ret (Some (some_tracks (Some "3600.5"%string)
                        [Some "128000"; Some "64000"]%string)))
          (fun _ => Raise OSError) (fun _ => exits 0 [] (Some 1)).

Definition three_files : worker :=
  a_worker ["/in/a.mkv"; "/in/b.mkv"; "/in/c.mkv"]%string "700" "av_aac"
           (Some "128,64"%string) [[0; 1]; [0; 2]; [1]] false.

(** A batch given the audio encoder [None] and no audio bitrate. *)
Definition encoder_None : worker :=
  a_worker ["/in/a.mkv"; "/in/b.mkv"]%string "700" "None" None [[0; 1]; [0; 1]] false.

(** ** The media checker: the class [CheckMediaWorker] *)

Module CheckMediaWorker.

(** What a finished [mkvpropedit] process leaves. *)
Record completed : Type := {
  code : Z;            (* result.returncode *)
  stderr : string      (* result.stderr *)
}.

(** The two external programs of the checker.  [mkvpropedit] rewrites the
    file it is given, so that what the inspector finds in a file depends on
    the state of the [world]; the inspector answers as for the encoder. *)
Record tools (world : Type) : Type := {
  inspect : world -> string -> res (option (list track));
  propedit : world -> string -> res completed * world
}.
Arguments inspect {world} t w file_path.
Arguments propedit {world} t w file_path.

Record worker : Type := {
  media_files : list string;            (* the 'path' of every media dict *)
  mediainfo_exe : string;
  mkvpropedit_exe : string;
  per_file_output_only : bool
}.

(** The texts sent on the [progress] signal, one constructor per message. *)
Inductive message : Type :=
| MsgStarting
| MsgChecking (file_name : string)
| MsgNoUpdateNeeded (file_name : string)
| MsgUpdating (file_name : string) (attempt : Z)
| MsgUpdated (file_name : string) (attempts : Z)
| MsgFailedOnAttempt (file_name : string) (attempt : Z)
| MsgFailedAfter (file_name : string) (attempts : Z)
| MsgCompleted
| MsgErrorChecking (file_path : string) (e : exn)
| MsgErrorUpdating (file_path : string) (attempt : Z) (stderr : string)
| MsgExceptionUpdating (file_path : string) (e : exn).

Inductive signal : Type :=
| progress (m : message)
| clear_progress
| finished.

Inductive tool : Type := MediaInfo | MkvPropEdit.

(** What an observer sees: the signals, and the processes started. *)
Inductive event : Type :=
| Signal (x : signal)
| Launch (t : tool) (command : list string).

Section Worker.

Variable world : Type.
Variable env : tools world.
Variable self : worker.

(** The methods of the checker catch every exception themselves: a
    computation changes the world and is observed, and returns. *)
Definition C (A : Type) : Type := world -> A * world * list event.

Definition ret {A : Type} (a : A) : C A := fun w => (a, w, []).

Definition bind {A B : Type} (m : C A) (k : A -> C B) : C B :=
  fun w =>
    let '(a, w1, l1) := m w in
    let '(b, w2, l2) := k a w1 in
    (b, w2, l1 ++ l2).

Definition emit (x : signal) : C unit := fun w => (tt, w, [Signal x]).

Declare Scope checker_scope.
Notation "x <- m ;; k" := (bind m (fun x => k))
  (at level 61, m at next level, right associativity) : checker_scope.
Notation "m ;; k" := (bind m (fun _ => k))
  (at level 61, right associativity) : checker_scope.
#[local] Open Scope checker_scope.

(** [subprocess.check_output] of the inspector, with [json.loads] and the
    two [get]s. *)
Definition check_output (file_path : string) : C (res (option (list track))) :=
  fun w => (inspect env w file_path, w,
            [Launch MediaInfo [mediainfo_exe self; "--Output=JSON"; file_path]%string]).

(** [subprocess.run] of [mkvpropedit]. *)
Definition subprocess_run (file_path : string) : C (res completed) :=
  fun w => let (r, w') := propedit env w file_path in
           (r, w', [Launch MkvPropEdit
                      [mkvpropedit_exe self; file_path;
                       "--add-track-statistics-tags"]%string]).

(** The test [not bitrate or str(bitrate).lower() == "n/a"]. *)
Definition bitrate_missing (t : track) : bool :=
  negb (truthy (track_BitRate t))
  || String.eqb (lower_str (str_or_empty (track_BitRate t))) "n/a".

Definition has_type (t : track) (ty : string) : bool :=
  match track_type t with
  | Some ty' => String.eqb ty' ty
  | None => false
  end.

(** The loop of [check_needs_update] over the tracks, with its two flags. *)
Fixpoint scan_tracks (tracks : list track)
    (video_bitrate_missing audio_bitrate_missing : bool) : bool * bool :=
  match tracks with
  | [] => (video_bitrate_missing, audio_bitrate_missing)
  | t :: rest =>
      if has_type t "Video" then
        scan_tracks rest
          (if bitrate_missing t then true else video_bitrate_missing)
          audio_bitrate_missing
      else if has_type t "Audio" then
        scan_tracks rest video_bitrate_missing
          (if bitrate_missing t then true else audio_bitrate_missing)
      else scan_tracks rest video_bitrate_missing audio_bitrate_missing
  end.

Definition check_needs_update (file_path : string) : C bool :=
  output <- check_output file_path ;;
  match output with
  | Ret data =>
      let tracks := match data with Some tr => tr | None => [] end in
      let '(video_bitrate_missing, audio_bitrate_missing) :=
        scan_tracks tracks false false in
      ret (video_bitrate_missing || audio_bitrate_missing)
  | Raise e =>
      emit (progress (MsgErrorChecking file_path e)) ;;
      ret false
  end.

(** [for attempt in range(2)] of [update_duration], over the attempts left. *)
Fixpoint update_attempts (file_path : string) (attempts : list Z) : C bool :=
  match attempts with
  | [] => ret true
  | attempt :: rest =>
      result <- subprocess_run file_path ;;
      match result with
      | Ret result =>
          if negb (code result =? 0) then
            emit (progress (MsgErrorUpdating file_path (attempt + 1) (stderr result))) ;;
            ret false
          else update_attempts file_path rest
      | Raise e =>
          emit (progress (MsgExceptionUpdating file_path e)) ;;
          ret false
      end
  end.

Definition update_duration (file_path : string) : C bool :=
  update_attempts file_path [0; 1].

Definition max_attempts : Z := 2.

(** The [while needs_update and attempts < max_attempts] loop of [run],
    with [remaining] = [max_attempts - attempts] passes left; it yields the
    variables [needs_update], [attempts] and [success] as the loop leaves
    them. *)
Fixpoint update_loop (remaining : nat) (file_path file_name : string)
    (needs_update : bool) (attempts : Z) (success : bool) : C (bool * Z * bool) :=
  match remaining with
  | O => ret (needs_update, attempts, success)
  | S remaining' =>
      if needs_update then
        emit (progress (MsgUpdating file_name (attempts + 1))) ;;
        update_success <- update_duration file_path ;;
        if update_success then
          needs_update' <- check_needs_update file_path ;;
          if negb needs_update' then
            emit (progress (MsgUpdated file_name (attempts + 1))) ;;
            ret (needs_update', attempts, true)
          else
            update_loop remaining' file_path file_name needs_update' (attempts + 1) success
        else
          emit (progress (MsgFailedOnAttempt file_name (attempts + 1))) ;;
          ret (needs_update, attempts, success)
      else ret (needs_update, attempts, success)
  end.

(** The body of the [for] loop of [run] for one file. *)
Definition check_file (file_path : string) : C unit :=
  let file_name := basename file_path in
  (if per_file_output_only self then
     emit clear_progress ;;
     emit (progress MsgStarting)
   else ret tt) ;;
  emit (progress (MsgChecking file_name)) ;;
  needs_update <- check_needs_update file_path ;;
  if negb needs_update then
    emit (progress (MsgNoUpdateNeeded file_name))
  else
    v <- update_loop (Z.to_nat max_attempts) file_path file_name needs_update 0 false ;;
    let '(needs_update, attempts, success) := v in
    if negb success && needs_update then
      emit (progress (MsgFailedAfter file_name attempts))
    else ret tt.

Fixpoint run_files (files : list string) : C unit :=
  match files with
  | [] => ret tt
  | file_path :: rest =>
      check_file file_path ;;
      run_files rest
  end.

Definition run : C unit :=
  emit (progress MsgStarting) ;;
  run_files (media_files self) ;;
  emit (progress MsgCompleted) ;;
  emit finished.

End Worker.

(** The processes started with the given tool, among the events. *)
Definition launches (t : tool) (evs : list event) : Z :=
  Z.of_nat (List.length
    (filter (fun e => match e, t with
                      | Launch MediaInfo _, MediaInfo => true
                      | Launch MkvPropEdit _, MkvPropEdit => true
                      | _, _ => false
                      end) evs)).

(** The verdicts on a file. *)
Definition verdict (e : event) : bool :=
  match e with
  | Signal (progress (MsgNoUpdateNeeded _))
  | Signal (progress (MsgUpdated _ _))
  | Signal (progress (MsgFailedAfter _ _)) => true
  | _ => false
  end.

(** A computation that starts the inspector between [lo] and [hi] times and
    the editor at most [edits] times. *)
Definition effort {world A : Type} (lo hi edits : Z) (m : C world A) : Prop :=
  forall w a w' evs,
    m w = (a, w', evs) ->
    lo <= launches MediaInfo evs <= hi
    /\ 0 <= launches MkvPropEdit evs <= edits.

(** An example world: the number of times the editor has run.  The audio
    track of every file shows its bitrate once the editor has run [needed]
    times; the editor always succeeds. *)
Definition after_edits (needed : nat) : tools nat :=
  {| inspect := fun w _ =>
       Ret (Some (some_tracks (Some "100"%string)
                    [if (w <? needed)%nat then None else Some "128000"%string]));
     propedit := fun w _ => (Ret {| code := 0; stderr := "" |}, S w) |}.

Definition two_files : worker :=
  {| media_files := ["/in/a.mkv"; "/in/b.mkv"]%string;
     mediainfo_exe := "mediainfo";
     mkvpropedit_exe := "mkvpropedit";
     per_file_output_only := false |}.

End CheckMediaWorker.

(** ** The media list: what is shown of a file *)

(** More of Python's built-ins, for the texts of the media list. *)
Module Text.

(** [l] starts with [p]. *)
Fixpoint starts_with (p l : list ascii) : bool :=
  match p, l with
  | [], _ => true
  | a :: p', b :: l' => Ascii.eqb a b && starts_with p' l'
  | _ :: _, [] => false
  end.

(** [s.endswith(suffix)] *)
Definition endswith (s suffix : string) : bool :=
  starts_with (rev (list_ascii_of_string suffix)) (rev (list_ascii_of_string s)).

(** [s.replace(a, b)] for two characters. *)
Definition replace (a b : ascii) (s : string) : string :=
  string_of_list_ascii
    (map (fun c => if Ascii.eqb c a then b else c) (list_ascii_of_string s)).

Definition newline : string := String (ascii_of_nat 10) "".

(** The [,] option of the format mini-language on a run of digits: a comma
    before every group of three digits counted from the right.  The digits
    come least significant first; [k] digits of the current group are out. *)
Fixpoint group_rev (l : list ascii) (k : nat) : list ascii :=
  match l with
  | [] => []
  | c :: l' =>
      match k with
      | 3%nat => ","%char :: c :: group_rev l' 1
      | _ => c :: group_rev l' (S k)
      end
  end.

Definition group_thousands (digits : string) : string :=
  string_of_list_ascii (rev (group_rev (rev (list_ascii_of_string digits)) 0)).

(** [f"{x:,.0f}"] for a float: the exact value rounded half-to-even to an
    integer, its digits grouped by thousands. *)
Definition format_grouped_0f (x : float) : string :=
  match Prim2SF x with
  | S754_nan => "nan"
  | S754_infinity s => if s then "-inf" else "inf"
  | S754_zero s => if s then "-0" else "0"
  | S754_finite s m e =>
      let n := if 0 <=? e then Zpos m * 2 ^ e
               else round_half_even (Zpos m) (2 ^ (- e)) in
      ((if s then "-" else "") ++ group_thousands (str_of_int n))%string
  end.

(** [f"{n:02d}"] for an int. *)
Definition format_02d (n : Z) : string :=
  if (0 <=? n) && (n <? 10) then ("0" ++ str_of_int n)%string else str_of_int n.

(** C's [fmod(vx, w)] for a positive integer [w]: exact. *)
Definition fmod (vx : float) (w : positive) : float :=
  match Prim2SF vx with
  | S754_zero _ => vx
  | S754_finite s m e =>
      let r := if 0 <=? e then (Zpos m * 2 ^ e) mod Zpos w
               else Zpos m mod (Zpos w * 2 ^ (- e)) in
      SF2Prim (binary_normalize prec emax (if s then - r else r)
                 (if 0 <=? e then 0 else e) s)
  | _ => nan
  end.

(** C's [floor]. *)
Definition floor_float (x : float) : float :=
  match floor x with
  | Some 0 => if is_zero x then x else 0%float
  | Some z => nearest_of_Z z
  | None => x
  end.

(** [vx % w] on a float and a positive int ([float_rem]). *)
Definition float_rem (vx : float) (w : positive) : float :=
  let wx := nearest_of_Z (Zpos w) in
  let m := fmod vx w in
  if negb (is_zero m) then
    if (m <? 0)%float then (m + wx)%float else m
  else 0%float.

(** [vx // w] on a float and a positive int ([float_floor_div]). *)
Definition float_floordiv (vx : float) (w : positive) : float :=
  let wx := nearest_of_Z (Zpos w) in
  let m := fmod vx w in
  let div := ((vx - m) / wx)%float in
  let div := if negb (is_zero m) && (m <? 0)%float then (div - 1)%float else div in
  if negb (is_zero div) then
    let floordiv := floor_float div in
    if (0.5 <? div - floordiv)%float then (floordiv + 1)%float else floordiv
  else if get_sign (vx / wx) then (-0)%float else 0%float.

End Text.

Module Media.

(** One track of the inspector's JSON, with all the keys read for the media
    list, each absent or a string. *)
Record full_track : Type := {
  type_ : option string;            (* '@type' *)
  Duration : option string;
  BitRate : option string;
  Format : option string;
  Width : option string;
  Height : option string;
  FrameRate : option string;
  Language_String : option string;  (* 'Language/String' *)
  Language : option string;
  Title : option string
}.

(** The three keys that the encoder reads. *)
Definition brief (t : full_track) : track :=
  {| track_type := type_ t; track_Duration := Duration t; track_BitRate := BitRate t |}.

(** [pycountry.languages]: [get(alpha_2=...)], [get(alpha_3=...)] and
    [lookup], each answering with the [name] of the language found. *)
Record pycountry : Type := {
  get_alpha_2 : string -> option string;
  get_alpha_3 : string -> option string;
  lookup : string -> option string          (* [None]: LookupError *)
}.

(** The world of the media list. *)
Record environment : Type := {
  languages : pycountry;
  mediainfo : string -> res (option (list full_track));
  getsize : string -> res Z                  (* os.path.getsize *)
}.

(** [d.get(key, default)] *)
Definition get_or (o : option string) (default : string) : string :=
  match o with Some s => s | None => default end.

(** [a or b] on optional strings. *)
Definition or_else (a b : option string) : option string :=
  if truthy a then a else b.

Definition has_type (t : full_track) (ty : string) : bool :=
  match type_ t with
  | Some s => String.eqb s ty
  | None => false
  end.

(** The test [bitrate_str and str(bitrate_str).lower() != "n/a"]. *)
Definition usable (bitrate : option string) : bool :=
  truthy bitrate && negb (String.eqb (lower_str (str_or_empty bitrate)) "n/a").

Section Languages.

Variable pc : pycountry.

(** The loop of [get_full_language_name] over the languages. *)
Fixpoint full_languages (langs : list string) : list string :=
  match langs with
  | [] => []
  | lang :: rest =>
      if String.eqb lang "" then full_languages rest
      else
        let full_name :=
          match get_alpha_2 pc (lower_str lang) with
          | Some name => name
          | None =>
              match get_alpha_3 pc (lower_str lang) with
              | Some name => name
              | None =>
                  match lookup pc lang with
                  | Some name => name
                  | None => lang
                  end
              end
          end in
        full_name :: full_languages rest
  end.

Definition get_full_language_name (language_str : string) : string :=
  let langs := map strip (split "," language_str) in
  join ", " (full_languages langs).

End Languages.

(** What the loop over the tracks gathers. *)
Record gathered : Type := {
  general_track : option full_track;
  video_track : option full_track;
  audio_tracks_found : list full_track;
  total_kbps : float
}.

(** One pass of the loop over the tracks of [get_media_info]. *)
Definition gather_track (g : gathered) (t : full_track) : gathered :=
  if has_type t "General" then
    {| general_track := Some t; video_track := video_track g;
       audio_tracks_found := audio_tracks_found g; total_kbps := total_kbps g |}
  else if has_type t "Video"
          && match video_track g with None => true | Some _ => false end then
    {| general_track := general_track g; video_track := Some t;
       audio_tracks_found := audio_tracks_found g; total_kbps := total_kbps g |}
  else if has_type t "Audio" then
    {| general_track := general_track g; video_track := video_track g;
       audio_tracks_found := audio_tracks_found g ++ [t];
       total_kbps :=
         if usable (BitRate t) then
           match float_of_str (str_or_empty (BitRate t)) with
           | Ret b => (total_kbps g + b / 1000)%float
           | Raise _ => total_kbps g               (* except ValueError: pass *)
           end
         else total_kbps g |}
  else g.

Definition gather (tracks : list full_track) : gathered :=
  fold_left gather_track tracks
    {| general_track := None; video_track := None;
       audio_tracks_found := []; total_kbps := 0 |}.

(** [format_bitrate_kbps] *)
Definition format_bitrate_kbps (value : float) : string :=
  Text.replace "," "." (Text.format_grouped_0f value).

(** "Video bitrate formatting": [video_info] and [video_summary]. *)
Definition video_texts (video_track : full_track) : string * string :=
  let video_codec := get_or (Format video_track) "Unknown" in
  let video_bitrate_formatted :=
    if usable (BitRate video_track) then
      match float_of_str (str_or_empty (BitRate video_track)) with
      | Ret f => format_bitrate_kbps (f / 1000)%float
      | Raise _ => "Unknown"%string
      end
    else "Unknown"%string in
  let resolution :=
    (get_or (Width video_track) "Unknown" ++ "x"
     ++ get_or (Height video_track) "Unknown")%string in
  let frame_rate := get_or (FrameRate video_track) "Unknown" in
  (join Text.newline
     [("Codec: " ++ video_codec)%string;
      ("Bitrate: " ++ video_bitrate_formatted ++ " kbps")%string;
      ("Resolution: " ++ resolution)%string;
      ("Frame Rate: " ++ frame_rate ++ " fps")%string],
   (video_codec ++ " " ++ video_bitrate_formatted ++ " kbps")%string).

(** [bitrate_display] of an audio track; [int] raises on an infinite
    bitrate, past the [except ValueError]. *)
Definition bitrate_display (audio_track : full_track) : res string :=
  if usable (BitRate audio_track) then
    match float_of_str (str_or_empty (BitRate audio_track)) with
    | Ret f =>
        let bitrate_float := (f / 1000)%float in
        if negb (is_zero bitrate_float) then
          match int_of_float bitrate_float with
          | Ret n => Ret (str_of_int n ++ " kbps")%string
          | Raise ValueError => Ret "Unknown Bitrate"%string
          | Raise e => Raise e
          end
        else Ret "Unknown Bitrate"%string
    | Raise _ => Ret "Unknown Bitrate"%string
    end
  else Ret "Unknown Bitrate"%string.

(** One line of the audio column. *)
Definition audio_text (pc : pycountry) (idx : Z) (audio_track : full_track) : res string :=
  let language_str :=
    get_or (or_else (or_else (Language_String audio_track) (Language audio_track))
                    (Some "Unknown"%string)) "Unknown" in
  let full_language := get_full_language_name pc language_str in
  rbind (bitrate_display audio_track) (fun bitrate_display =>
  let title := strip (get_or (Title audio_track) "") in
  if negb (String.eqb title "") then
    Ret (str_of_int idx ++ ": " ++ title ++ " - "
         ++ get_or (Format audio_track) "Unknown" ++ " " ++ bitrate_display
         ++ " [" ++ full_language ++ "]")%string
  else
    Ret (str_of_int idx ++ ": "
         ++ get_or (Format audio_track) "Unknown" ++ " " ++ bitrate_display
         ++ " [" ++ full_language ++ "]")%string).

(** [for idx, audio_track in enumerate(audio_tracks, start=1)] *)
Fixpoint audio_texts (pc : pycountry) (idx : Z) (audio_tracks : list full_track)
  : res (list string) :=
  match audio_tracks with
  | [] => Ret []
  | t :: rest =>
      rbind (audio_text pc idx t) (fun line =>
      rbind (audio_texts pc (idx + 1) rest) (fun lines => Ret (line :: lines)))
  end.

(** The dict that [get_media_info] returns.  ([total_audio_bitrate_kbps]
    is the int 0 in the program when no bitrate was added; here it is the
    float 0.) *)
Record info : Type := {
  filename : string;
  duration : string;
  duration_seconds : option float;
  video : string;
  video_info : string;
  audio : string;
  size : string;
  size_bytes : Z;
  total_audio_bitrate_kbps : float;
  path : string;
  audio_tracks : list full_track
}.

(** "Get duration and format it", with the [format_duration] of the class. *)
Definition duration_texts (format_duration : float -> res string)
    (general_track : full_track) : res (string * option float) :=
  match Duration general_track with
  | None => Ret ("Unknown"%string, None)
  | Some duration_str =>
      if String.eqb (lower_str duration_str) "n/a" then Ret ("Unknown"%string, None)
      else
        match float_of_str duration_str with
        | Raise ValueError => Ret ("Unknown"%string, None)
        | Raise e => Raise e
        | Ret duration_seconds =>
            match format_duration duration_seconds with
            | Ret duration_formatted => Ret (duration_formatted, Some duration_seconds)
            | Raise ValueError => Ret ("Unknown"%string, None)
            | Raise e => Raise e
            end
        end
  end.

(** The [try] block of [get_media_info], the same in [AddMediaWorker] and
    in the window but for the [format_duration] it calls. *)
Definition media_info (env : environment) (format_duration : float -> res string)
    (file_path : string) : res info :=
  rbind (mediainfo env file_path) (fun data =>
  let tracks := match data with Some tr => tr | None => [] end in
  let g := gather tracks in
  match general_track g, video_track g, audio_tracks_found g with
  | Some general_track, Some video_track, (_ :: _) as audio_tracks =>
      rbind (getsize env file_path) (fun file_size =>
      let '(video_info, video_summary) := video_texts video_track in
      rbind (audio_texts (languages env) 1 audio_tracks) (fun audio_info_list =>
      let audio_info := join Text.newline audio_info_list in
      rbind (duration_texts format_duration general_track) (fun d =>
      rbind (int_truediv file_size (1024 * 1024)) (fun mb =>
      rbind (int_of_float mb) (fun mb =>
      Ret {| filename := basename file_path;
             duration := fst d;
             duration_seconds := snd d;
             video := video_summary;
             video_info := video_info;
             audio := audio_info;
             size := (str_of_int mb ++ " MB")%string;
             size_bytes := file_size;
             total_audio_bitrate_kbps := total_kbps g;
             path := file_path;
             audio_tracks := audio_tracks |})))))
  | _, _, _ => Raise ValueError        (* "Missing required track information." *)
  end).

End Media.

(** *** [AddMediaWorker] *)

Module AddMediaWorker.

(** What leaves a method of the worker: a value, or an exception; the one
    exception that is not of the encoder's is the [AttributeError] for a
    method the class does not have. *)
Inductive raised : Type :=
| Exception (e : exn)
| AttributeError (attribute : string).

Inductive outcome (A : Type) : Type :=
| Returns (a : A)
| Raises (e : raised).
Arguments Returns {A} a.
Arguments Raises {A} e.

Inductive signal : Type :=
| progress (media_files : list Media.info)
| log (text : string)
| finished.

Inductive event : Type :=
| Signal (x : signal)
| Launch (command : list string).

Definition is_media_file (file_path : string) : bool :=
  existsb (Text.endswith (lower_str file_path)) [".mp4"; ".mkv"; ".avi"; ".mov"]%string.

(** [format_duration]: every exception ends in ["Unknown"]. *)
Definition format_duration (duration_seconds : float) : string :=
  match int_of_float (Text.float_floordiv duration_seconds 3600),
        int_of_float (Text.float_floordiv (Text.float_rem duration_seconds 3600) 60),
        int_of_float (Text.float_rem duration_seconds 60) with
  | Ret hours, Ret minutes, Ret seconds =>
      (Text.format_02d hours ++ ":" ++ Text.format_02d minutes
       ++ ":" ++ Text.format_02d seconds)%string
  | _, _, _ => "Unknown"%string
  end.

Section Worker.

Variable env : Media.environment.
Variable mediainfo_exe : string.

(** [self.update_progress(...)]: neither the class nor [QThread] has an
    attribute of that name. *)
Definition update_progress (text : string) : outcome unit :=
  Raises (AttributeError "update_progress").

(** The [try] block of [get_media_info]. *)
Definition described (file_path : string) : res Media.info :=
  Media.media_info env (fun d => Ret (format_duration d)) file_path.

Definition get_media_info (file_path : string)
  : outcome (option Media.info) * list event :=
  (match described file_path with
   | Ret info => Returns (Some info)
   | Raise e =>
       match update_progress ("Error getting media info for " ++ file_path) with
       | Returns _ => Returns None
       | Raises e' => Raises e'
       end
   end,
   [Launch [mediainfo_exe; "--Output=JSON"; file_path]%string]).

(** [for file_path in self.file_paths] *)
Fixpoint run_files (file_paths : list string) : outcome unit * list event :=
  match file_paths with
  | [] => (Returns tt, [])
  | file_path :: rest =>
      if is_media_file file_path then
        match get_media_info file_path with
        | (Returns media_info, evs) =>
            let shown := match media_info with
                         | Some media_info => [Signal (progress [media_info])]
                         | None => []
                         end in
            let '(r, evs') := run_files rest in
            (r, evs ++ shown ++ evs')
        | (Raises e, evs) => (Raises e, evs)
        end
      else run_files rest
  end.

Definition run (file_paths : list string) : outcome unit * list event :=
  match run_files file_paths with
  | (Returns _, evs) => (Returns tt, evs ++ [Signal finished])
  | (Raises e, evs) => (Raises e, evs)
  end.

End Worker.

End AddMediaWorker.

(** *** The window's own [get_media_info] and [format_duration] *)

Module MediaList.

(** [MediaEncoderGUI.format_duration] *)
Definition format_duration (seconds : float) : res string :=
  rbind (int_of_float (Text.float_floordiv seconds 3600)) (fun hours =>
  rbind (int_of_float (Text.float_floordiv (Text.float_rem seconds 3600) 60)) (fun minutes =>
  Ret (str_of_int hours ++ "h:" ++ str_of_int minutes ++ "min")%string)).

(** [MediaEncoderGUI.get_media_info]: the window has an [update_progress];
    the error goes to the progress area, and [None] is returned. *)
Definition get_media_info (env : Media.environment) (file_path : string)
  : option Media.info * list exn :=
  match Media.media_info env format_duration file_path with
  | Ret info => (Some info, [])
  | Raise e => (None, [e])
  end.

End MediaList.

(** Example worlds of the media list: no language is known, every file is
    1 GiB, and the inspector finds a video and two audio tracks in every
    file, but for the files whose name starts with [/silent], which have no
    audio track. *)
Definition no_languages : Media.pycountry :=
  {| Media.get_alpha_2 := fun _ => None;
     Media.get_alpha_3 := fun _ => None;
     Media.lookup := fun _ => None |}.

Definition a_track (ty : string) (bitrate : option string) : Media.full_track :=
  {| Media.type_ := Some ty; Media.Duration := Some "3725.5"%string;
     Media.BitRate := bitrate; Media.Format := Some "X"%string;
     Media.Width := None; Media.Height := None; Media.FrameRate := None;
     Media.Language_String := None; Media.Language := Some "en"%string;
     Media.Title := None |}.

Definition a_library : Media.environment :=
  {| Media.languages := no_languages;
     Media.mediainfo := fun file_path =>
       if Text.starts_with (list_ascii_of_string "/silent") (list_ascii_of_string file_path)
       then Ret (Some [a_track "General" None; a_track "Video" (Some "5000000"%string)])
       else Ret (Some [a_track "General" None; a_track "Video" (Some "5000000"%string);
                       a_track "Audio" (Some "128000"%string);
                       a_track "Audio" (Some "64000"%string)]);
     Media.getsize := fun _ => Ret 1073741824 |}.

(** The same library as the encoder sees it. *)
Definition encoder_view (env : Media.environment) : environment :=
  {| mediainfo := fun file_path =>
       rbind (Media.mediainfo env file_path) (fun data =>
       Ret (option_map (map Media.brief) data));
     ffmpeg := fun _ => Raise OSError;
     handbrake := fun _ => Raise OSError |}.

Definition blank_info : Media.info :=
  {| Media.filename := ""; Media.duration := ""; Media.duration_seconds := None;
     Media.video := ""; Media.video_info := ""; Media.audio := "";
     Media.size := ""; Media.size_bytes := 0; Media.total_audio_bitrate_kbps := 0;
     Media.path := ""; Media.audio_tracks := [] |}.

(** What [AddMediaWorker] tells of a file of [env] that it can describe. *)
Definition info_in (env : Media.environment) (file_path : string) : Media.info :=
  match AddMediaWorker.described env file_path with
  | Ret info => info
  | Raise _ => blank_info
  end.

(** The events of [AddMediaWorker.run] for the media files among [files]
    when each is described by [info]: the inspector is launched, and the
    file is shown. *)
Definition listing (mediainfo_exe : string) (info : string -> Media.info)
    (files : list string) : list AddMediaWorker.event :=
  flat_map (fun f => [AddMediaWorker.Launch [mediainfo_exe; "--Output=JSON"; f]%string;
                      AddMediaWorker.Signal (AddMediaWorker.progress [info f])])
           (filter AddMediaWorker.is_media_file files).

(** ** The window: the validation of the settings and the start of a batch *)

(** [EncodingWorker(...)]: the fields as [__init__] sets them. *)
Definition EncodingWorker (media_files : list string)
    (handbrake_cli mediainfo_exe target_size_mb : string)
    (audio_bitrate preset_file preset_name : option string)
    (destination_folder : string) (per_file_output_only : bool)
    (delete_source_files selected_encoder selected_audio_encoder : string)
    (selected_audio_tracks : list (list Z)) (variable_bitrate : bool)
    (ffmpeg_exe : string) (multi_pass : bool) : worker :=
  {| media_files := media_files;
     handbrake_cli := handbrake_cli;
     mediainfo_exe := mediainfo_exe;
     ffmpeg_exe := ffmpeg_exe;
     target_size_mb := target_size_mb;
     audio_bitrate := audio_bitrate;
     preset_file := preset_file;
     preset_name := preset_name;
     destination_folder := destination_folder;
     per_file_output_only := per_file_output_only;
     delete_source_files := delete_source_files;
     selected_encoder := selected_encoder;
     selected_audio_encoder := selected_audio_encoder;
     selected_audio_tracks := selected_audio_tracks;
     variable_bitrate := variable_bitrate;
     multi_pass := multi_pass |}.

(** The selection of audio tracks: [AudioSelectionDialog.get_selected_tracks],
    the adjustment of [open_audio_selection_dialog], and the default of
    [add_media_files_incrementally]. *)
Module AudioSelectionDialog.

(** [for index in range(self.list_widget.count())], from [index] on, over
    the check states of the items. *)
Fixpoint selected_from (index : Z) (checked : list bool) : list Z :=
  match checked with
  | [] => []
  | c :: rest =>
      if c then index :: selected_from (index + 1) rest
      else selected_from (index + 1) rest
  end.

Definition get_selected_tracks (checked : list bool) : list Z :=
  selected_from 0 checked.

End AudioSelectionDialog.

Module MediaEncoderGUI.

(** [PER_FILE_OUTPUT_ONLY] *)
Definition PER_FILE_OUTPUT_ONLY : bool := true.

(** A media dict of the window: the keys read here.  Every media dict is
    made with its [selected_audio_tracks], by [add_media_files_incrementally],
    [refresh_media_info] or [open_audio_selection_dialog]. *)
Record media : Type := {
  path : string;
  selected_audio_tracks : list Z
}.

(** The attributes and widget values that the validation and the start of
    a batch read. *)
Record gui : Type := {
  media_files : list media;
  target_size_mb : string;
  audio_bitrate : option string;
  selected_preset : string;
  destination_folder : string;
  selected_audio_encoder : string;
  preset_files : list (string * string);       (* a dict: preset name, path *)
  encoding_in_progress : bool;
  handbrake_cli : string;
  mediainfo_exe : string;
  ffmpeg_exe : string;
  encoder_combo : string;                      (* currentText() *)
  audio_encoder_combo : string;
  delete_source_combo : string;
  variable_bitrate_checkbox : bool;            (* isChecked() *)
  multi_pass_checkbox : bool
}.

(** [list(range(n))]: the selection a file is added with, all its tracks. *)
Definition range (n : nat) : list Z := map Z.of_nat (seq 0 n).

(** [[idx for idx in selected_tracks if idx < available_tracks]] *)
Definition adjusted_selected_tracks (selected_tracks : list Z) (available_tracks : Z)
  : list Z :=
  filter (fun idx => idx <? available_tracks) selected_tracks.

(** [text.strip() if text.strip() else None]: the audio bitrate as
    [on_settings_changed] reads it off its input field. *)
Definition read_audio_bitrate (text : string) : option string :=
  if negb (String.eqb (strip text) "") then Some (strip text) else None.

(** The reasons for which the start button stays disabled. *)
Inductive validation_error : Type :=
| NoMediaFiles
| InvalidTargetSize
| InvalidDestinationFolder
| AudioBitrateRequired
| BitrateCountMismatch (given selected : Z)
| InvalidAudioBitrateValue (bitrate : string)
| InvalidPreset.

(** [inputs_valid = False; validation_errors.append(e)] *)
Definition invalid (e : validation_error) (v : bool * list validation_error)
  : bool * list validation_error :=
  (false, snd v ++ [e]).

(** [s.isdigit()] *)
Definition isdigit (s : string) : bool :=
  match list_ascii_of_string s with
  | [] => false
  | l => forallb is_digit l
  end.

(** [key in d] and [d[key]] on a dict. *)
Definition contains (d : list (string * string)) (key : string) : bool :=
  existsb (fun kv => String.eqb (fst kv) key) d.

Fixpoint lookup (d : list (string * string)) (key : string) : res string :=
  match d with
  | [] => Raise KeyError
  | (k, v) :: rest => if String.eqb k key then Ret v else lookup rest key
  end.

(** The loop over the media files that finds the largest number of selected
    audio tracks. *)
Definition max_selected_audio_tracks (files : list media) : Z :=
  fold_left (fun m media => Z.max m (Z.of_nat (List.length (selected_audio_tracks media))))
            files 0.

(** [for bitrate in bitrate_values: if not bitrate.isdigit() or
    int(bitrate) <= 0: ...; break] *)
Fixpoint check_bitrate_values (bitrate_values : list string)
    (v : bool * list validation_error) : res (bool * list validation_error) :=
  match bitrate_values with
  | [] => Ret v
  | bitrate :: rest =>
      if negb (isdigit bitrate) then Ret (invalid (InvalidAudioBitrateValue bitrate) v)
      else
        rbind (int_of_str bitrate) (fun n =>
        if n <=? 0 then Ret (invalid (InvalidAudioBitrateValue bitrate) v)
        else check_bitrate_values rest v)
  end.

Section Validation.

(** [os.path.isdir] *)
Variable isdir : string -> bool.
Variable self : gui.

(** "Validate inputs for Start Encoding button" of [on_settings_changed]:
    [inputs_valid] and [validation_errors] when the block is done. *)
Definition validate : res (bool * list validation_error) :=
  let v := (true, []) in
  let v := match media_files self with
           | [] => invalid NoMediaFiles v
           | _ :: _ => v
           end in
  let v := match float_of_str (target_size_mb self) with
           | Ret _ => Ret v
           | Raise ValueError => Ret (invalid InvalidTargetSize v)
           | Raise e => Raise e
           end in
  rbind v (fun v =>
  let v := if String.eqb (destination_folder self) ""
              || negb (isdir (destination_folder self))
           then invalid InvalidDestinationFolder v else v in
  let v :=
    if negb (String.eqb (selected_audio_encoder self) "copy"
             || String.eqb (selected_audio_encoder self) "None") then
      let max_selected_audio_tracks := max_selected_audio_tracks (media_files self) in
      if 0 <? max_selected_audio_tracks then
        if negb (truthy (audio_bitrate self)) then Ret (invalid AudioBitrateRequired v)
        else
          let bitrate_values :=
            map strip (split "," (str_or_empty (audio_bitrate self))) in
          if negb (Z.of_nat (List.length bitrate_values) =? max_selected_audio_tracks)
          then Ret (invalid (BitrateCountMismatch (Z.of_nat (List.length bitrate_values))
                                                  max_selected_audio_tracks) v)
          else check_bitrate_values bitrate_values v
      else Ret v
    else Ret v in
  rbind v (fun v =>
  Ret (if negb (String.eqb (selected_preset self) "None")
          && negb (contains (preset_files self) (selected_preset self))
       then invalid InvalidPreset v else v))).

(** The validation block of [on_settings_changed] and what follows it:
    the argument of [self.start_encoding_btn.setEnabled(...)] when the slot
    gets as far as the block.  (The slot calls [update_info_panel] before
    it; see [on_settings_changed] below for the whole slot.) *)
Definition start_encoding_btn_enabled : res bool :=
  rbind validate (fun v =>
  Ret (if encoding_in_progress self then false else fst v)).

(** [start_encoding]: the worker it creates. *)
Definition start_encoding : res worker :=
  rbind (if String.eqb (selected_preset self) "None" then Ret (None, None)
         else rbind (lookup (preset_files self) (selected_preset self)) (fun preset_file =>
              Ret (Some preset_file, Some (selected_preset self)))) (fun preset =>
  let selected_encoder := encoder_combo self in
  let delete_source_files := delete_source_combo self in
  let selected_audio_encoder := audio_encoder_combo self in
  let selected_audio_tracks := map selected_audio_tracks (media_files self) in
  let variable_bitrate := variable_bitrate_checkbox self in
  Ret (EncodingWorker (map path (media_files self))
         (handbrake_cli self) (mediainfo_exe self)
         (target_size_mb self) (audio_bitrate self)
         (fst preset) (snd preset)
         (destination_folder self)
         PER_FILE_OUTPUT_ONLY delete_source_files
         selected_encoder selected_audio_encoder
         selected_audio_tracks variable_bitrate
         (ffmpeg_exe self) (multi_pass_checkbox self))).

End Validation.

(** *** The info panel, and the whole slot *)

(** A selected item of the media list: its media dict, of which the key
    ['info'] is kept apart ([None] after a refresh that could not describe
    the file). *)
Record item : Type := {
  media_dict : media;
  info : option Media.info
}.

(** What the two labels of the info panel are set to: [N/A], or a number
    (the text of the second label is [f"{percentage_saved:.1f}%"], which
    formats any float). *)
Inductive calculated_bitrate : Type :=
| BitrateNA
| BitrateKbps (video_bitrate_kbps : Z).

Inductive space_saved : Type :=
| SpaceNA
| SpaceSaved (percentage_saved : float).

(** The cumulative values of [update_info_panel]. *)
Record totals : Type := {
  total_duration : float;
  total_input_size : Z;
  total_audio_bitrate_bps : float
}.

(** [for media in media_files_to_use]; [None] when the loop returns from
    the method, both labels at [N/A]. *)
Fixpoint add_up (selected_audio_encoder audio_bitrate_input : string)
    (items : list item) (t : totals) : res (option totals) :=
  match items with
  | [] => Ret (Some t)
  | it :: rest =>
      match info it with
      | None => add_up selected_audio_encoder audio_bitrate_input rest t
      | Some media_info =>
          let total_input_size := total_input_size t + Media.size_bytes media_info in
          match Media.duration_seconds media_info with
          | None => Ret None
          | Some duration_seconds =>
              let total_duration := (total_duration t + duration_seconds)%float in
              if String.eqb selected_audio_encoder "copy"
                 || String.eqb selected_audio_encoder "None" then
                let media_audio_bitrate_kbps := Media.total_audio_bitrate_kbps media_info in
                add_up selected_audio_encoder audio_bitrate_input rest
                  {| total_duration := total_duration;
                     total_input_size := total_input_size;
                     total_audio_bitrate_bps :=
                       (total_audio_bitrate_bps t + media_audio_bitrate_kbps * 1000)%float |}
              else
                let selected_audio_tracks := selected_audio_tracks (media_dict it) in
                let unchanged :=
                  {| total_duration := total_duration;
                     total_input_size := total_input_size;
                     total_audio_bitrate_bps := total_audio_bitrate_bps t |} in
                if negb (String.eqb audio_bitrate_input "") then
                  let bitrate_values := map strip (split "," audio_bitrate_input) in
                  if Nat.eqb (List.length bitrate_values) (List.length selected_audio_tracks)
                  then
                    (* [bitrate_values[i] for i in range(len(selected_audio_tracks))]:
                       all the values, in order *)
                    match rmap float_of_str bitrate_values with
                    | Ret fs =>
                        let total_audio_bitrate_kbps := sum fs in
                        add_up selected_audio_encoder audio_bitrate_input rest
                          {| total_duration := total_duration;
                             total_input_size := total_input_size;
                             total_audio_bitrate_bps :=
                               (total_audio_bitrate_bps t
                                + total_audio_bitrate_kbps * 1000)%float |}
                    | Raise ValueError => Ret None
                    | Raise e => Raise e
                    end
                  else add_up selected_audio_encoder audio_bitrate_input rest unchanged
                else add_up selected_audio_encoder audio_bitrate_input rest unchanged
          end
      end
  end.

(** [update_info_panel], for the selected items [selected_items] and the
    text [audio_bitrate_input] of the audio bitrate field: the two labels
    as they are set when the method returns.  The target size field holds
    [target_size_mb self]. *)
Definition update_info_panel (self : gui) (selected_items : list item)
    (audio_bitrate_input : string) : res (calculated_bitrate * space_saved) :=
  match selected_items with
  | [] => Ret (BitrateNA, SpaceNA)
  | _ :: _ =>
      match float_of_str (target_size_mb self) with
      | Raise ValueError => Ret (BitrateNA, SpaceNA)
      | Raise e => Raise e
      | Ret target_size_mb =>
          rbind (add_up (audio_encoder_combo self) audio_bitrate_input selected_items
                   {| total_duration := 0; total_input_size := 0;
                      total_audio_bitrate_bps := 0 |}) (fun t =>
          match t with
          | None => Ret (BitrateNA, SpaceNA)
          | Some t =>
              if (total_duration t <=? 0)%float then Ret (BitrateNA, SpaceNA)
              else
                rbind (float_of_int (Z.of_nat (List.length selected_items))) (fun n =>
                let total_target_size_bits := (target_size_mb * 8 * 1024 * 1024 * n)%float in
                rbind (truediv total_target_size_bits (total_duration t))
                  (fun total_bitrate_bps =>
                let total_video_bitrate_bps :=
                  (total_bitrate_bps - total_audio_bitrate_bps t)%float in
                rbind (if (total_video_bitrate_bps <? 0)%float then Ret BitrateNA
                       else
                         let video_bitrate_kbps := (total_video_bitrate_bps / 1000)%float in
                         rbind (int_of_float video_bitrate_kbps) (fun v =>
                         Ret (BitrateKbps v))) (fun calculated =>
                rbind (int_truediv (total_input_size t) (1024 * 1024))
                  (fun total_input_size_mb =>
                let space_saved_mb := (total_input_size_mb - target_size_mb * n)%float in
                if (0 <? total_input_size_mb)%float then
                  rbind (truediv space_saved_mb total_input_size_mb) (fun q =>
                  Ret (calculated, SpaceSaved (q * 100)%float))
                else Ret (calculated, SpaceNA)))))
          end)
      end
  end.

(** [on_settings_changed]: the info panel is updated, then the inputs are
    validated and the start button set.  [self] holds the attributes as the
    first lines of the slot set them from the widgets; the result is the
    argument of [self.start_encoding_btn.setEnabled(...)]. *)
Definition on_settings_changed (isdir : string -> bool) (self : gui)
    (selected_items : list item) (audio_bitrate_input : string) : res bool :=
  rbind (update_info_panel self selected_items audio_bitrate_input) (fun _ =>
  start_encoding_btn_enabled isdir self).

End MediaEncoderGUI.

(** Example windows: two files, of which the first has both its audio
    tracks selected and the second its first one, with the audio encoder
    [encoder] and the text [bitrates] in the audio bitrate field. *)
Definition a_window (encoder bitrates : string) : MediaEncoderGUI.gui :=
  {| MediaEncoderGUI.media_files :=
       [ {| MediaEncoderGUI.path := "/in/a.mkv";
            MediaEncoderGUI.selected_audio_tracks := [0; 1] |};
         {| MediaEncoderGUI.path := "/in/b.mkv";
            MediaEncoderGUI.selected_audio_tracks := [0] |} ];
     MediaEncoderGUI.target_size_mb := "700";
     MediaEncoderGUI.audio_bitrate := MediaEncoderGUI.read_audio_bitrate bitrates;
     MediaEncoderGUI.selected_preset := "None";
     MediaEncoderGUI.destination_folder := "/out";
     MediaEncoderGUI.selected_audio_encoder := encoder;
     MediaEncoderGUI.preset_files := [];
     MediaEncoderGUI.encoding_in_progress := false;
     MediaEncoderGUI.handbrake_cli := "HandBrakeCLI";
     MediaEncoderGUI.mediainfo_exe := "mediainfo";
     MediaEncoderGUI.ffmpeg_exe := "ffmpeg";
     MediaEncoderGUI.encoder_combo := "x264";
     MediaEncoderGUI.audio_encoder_combo := encoder;
     MediaEncoderGUI.delete_source_combo := "No";
     MediaEncoderGUI.variable_bitrate_checkbox := false;
     MediaEncoderGUI.multi_pass_checkbox := true |}.

(** The example window with the target size [target] instead of 700. *)
Definition with_target (target : string) (g : MediaEncoderGUI.gui) : MediaEncoderGUI.gui :=
  {| MediaEncoderGUI.media_files := MediaEncoderGUI.media_files g;
     MediaEncoderGUI.target_size_mb := target;
     MediaEncoderGUI.audio_bitrate := MediaEncoderGUI.audio_bitrate g;
     MediaEncoderGUI.selected_preset := MediaEncoderGUI.selected_preset g;
     MediaEncoderGUI.destination_folder := MediaEncoderGUI.destination_folder g;
     MediaEncoderGUI.selected_audio_encoder := MediaEncoderGUI.selected_audio_encoder g;
     MediaEncoderGUI.preset_files := MediaEncoderGUI.preset_files g;
     MediaEncoderGUI.encoding_in_progress := MediaEncoderGUI.encoding_in_progress g;
     MediaEncoderGUI.handbrake_cli := MediaEncoderGUI.handbrake_cli g;
     MediaEncoderGUI.mediainfo_exe := MediaEncoderGUI.mediainfo_exe g;
     MediaEncoderGUI.ffmpeg_exe := MediaEncoderGUI.ffmpeg_exe g;
     MediaEncoderGUI.encoder_combo := MediaEncoderGUI.encoder_combo g;
     MediaEncoderGUI.audio_encoder_combo := MediaEncoderGUI.audio_encoder_combo g;
     MediaEncoderGUI.delete_source_combo := MediaEncoderGUI.delete_source_combo g;
     MediaEncoderGUI.variable_bitrate_checkbox :=
       MediaEncoderGUI.variable_bitrate_checkbox g;
     MediaEncoderGUI.multi_pass_checkbox := MediaEncoderGUI.multi_pass_checkbox g |}.

(** The first file of the example window, selected in the media list, as
    [AddMediaWorker] describes it in the example library. *)
Definition first_selected : list MediaEncoderGUI.item :=
  [ {| MediaEncoderGUI.media_dict :=
         {| MediaEncoderGUI.path := "/in/a.mkv";
            MediaEncoderGUI.selected_audio_tracks := [0; 1] |};
       MediaEncoderGUI.info := Some (info_in a_library "/in/a.mkv") |} ].

(** The worker that [start_encoding] makes of a window ([idle]'s worker when
    the preset is unknown). *)
Definition worker_of (g : MediaEncoderGUI.gui) : worker :=
  match MediaEncoderGUI.start_encoding g with
  | Ret self => self
  | Raise _ => a_worker [] "" "" None [] false
  end.

(** A selection as the window stores it for a file with [n] audio tracks:
    indices of tracks of the file, in increasing order. *)
Definition selection_of (n : Z) (selected_tracks : list Z) : Prop :=
  StronglySorted Z.lt selected_tracks
  /\ Forall (fun i => 0 <= i < n) selected_tracks.

(** A bitrate value that the validation lets pass: digits only, and a
    positive number. *)
Definition valid_bitrate (bitrate : string) : Prop :=
  MediaEncoderGUI.isdigit bitrate = true
  /\ 0 < digits_value (list_ascii_of_string bitrate) 0.

(** What the validation requires of the audio bitrate. *)
Definition audio_bitrate_accepted (g : MediaEncoderGUI.gui) : Prop :=
  String.eqb (MediaEncoderGUI.selected_audio_encoder g) "copy" = false ->
  String.eqb (MediaEncoderGUI.selected_audio_encoder g) "None" = false ->
  0 < MediaEncoderGUI.max_selected_audio_tracks (MediaEncoderGUI.media_files g) ->
  truthy (MediaEncoderGUI.audio_bitrate g) = true
  /\ Z.of_nat (List.length
       (map strip (split "," (str_or_empty (MediaEncoderGUI.audio_bitrate g)))))
     = MediaEncoderGUI.max_selected_audio_tracks (MediaEncoderGUI.media_files g)
  /\ Forall valid_bitrate
       (map strip (split "," (str_or_empty (MediaEncoderGUI.audio_bitrate g)))).

(** ** The fates of the files of a batch, stated apart from the loop *)










(** ** The end of a run, as the events tell it *)

Definition closing (e : event) : bool :=
  match e with
  | Signal finished => true
  | _ => false
  end.

(** A computation that does not emit [finished], however it ends. *)
Definition unfinished {A : Type} (m : M A) : Prop :=
  forall st r st' evs, m st = (r, st', evs) -> existsb closing evs = false.

(** A batch of three files with the target size [nan], and an inspector
    that finds no duration in [/in/a.mkv] and 3600.5 s in every other file. *)
Definition nan_target : worker :=
  a_worker ["/in/a.mkv"; "/in/b.mkv"; "/in/c.mkv"]%string "nan" "av_aac"
           (Some "128,64"%string) [[0; 1]; [0; 1]; [0; 1]] false.

Definition no_duration_for_a : environment :=
  {| mediainfo := fun file_path =>
       if String.eqb file_path "/in/a.mkv"
       then Ret (Some (some_tracks None [Some "128000"%string]))
       else Ret (Some (some_tracks (Some "3600.5"%string)
                         [Some "128000"; Some "64000"]%string));
     ffmpeg := fun _ => Raise OSError;
     handbrake := fun _ => exits 0 [] (Some 1) |}.

(** * Properties *)

(** ** Floating-point facts used below *)

Lemma Prim2SF_0 : Prim2SF 0%float = S754_zero false.
Proof. reflexivity. Qed.

Lemma positive_not_le_0 (d : float) :
  (0 <? d)%float = true -> (d <=? 0)%float = false.
Proof.
  rewrite ltb_spec, leb_spec, Prim2SF_0.
  unfold SFltb, SFleb. destruct (Prim2SF d) as [s| s| |s m e]; simpl; try discriminate.
  - destruct s; [discriminate | reflexivity].
  - destruct s; [discriminate | reflexivity].
Qed.

Lemma positive_not_zero (d : float) :
  (0 <? d)%float = true -> is_zero d = false.
Proof.
  unfold is_zero. rewrite ltb_spec, eqb_spec. change (Prim2SF zero) with (S754_zero false).
  rewrite Prim2SF_0.
  unfold SFltb, SFeqb. destruct (Prim2SF d) as [s| s| |s m e]; simpl; try discriminate.
  - destruct s; [discriminate | reflexivity].
  - destruct s; [discriminate | reflexivity].
Qed.

Lemma finite_Prim2SF (x : float) :
  is_finite x = true ->
  (exists s, Prim2SF x = S754_zero s) \/ (exists s m e, Prim2SF x = S754_finite s m e).
Proof.
  unfold is_finite, Prim2SF. intros H.
  destruct (is_nan x); [discriminate |].
  destruct (is_infinity x); [discriminate |].
  destruct (is_zero x); [left; eauto |].
  destruct (Z.frexp x) as [r ex].
  destruct (shr_fexp prec emax _ _ _) as [sh e'].
  destruct (shr_m sh); [left | right | left]; eauto.
Qed.

Lemma finite_trunc (x : float) :
  is_finite x = true -> exists z, trunc x = Some z.
Proof.
  intros H. unfold trunc.
  destruct (finite_Prim2SF x H) as [[s E] | (s & m & e & E)]; rewrite E; simpl; eauto.
Qed.

Lemma int_of_float_finite (x : float) :
  is_finite x = true -> exists z, int_of_float x = Ret z /\ trunc x = Some z.
Proof.
  intros H. destruct (finite_trunc x H) as [z Hz].
  exists z. unfold int_of_float. rewrite Hz. auto.
Qed.

Lemma int_of_float_trunc (f : float) (z : Z) :
  trunc f = Some z -> int_of_float f = Ret z.
Proof. unfold int_of_float. now intros ->. Qed.

Lemma nonneg_trunc_floor (x : float) :
  (0 <=? x)%float = true -> trunc x = floor x.
Proof.
  rewrite leb_spec, Prim2SF_0. unfold trunc, floor, SFleb.
  destruct (Prim2SF x) as [s| s| |s m e]; simpl; try reflexivity.
  destruct s; [discriminate | reflexivity].
Qed.

(** ** Numbers written in decimal *)

Lemma digit_is_plain (c : ascii) :
  is_digit c = true ->
  is_space c = false /\ lower c = c
  /\ Ascii.eqb c "_" = false /\ Ascii.eqb c "-" = false /\ Ascii.eqb c "+" = false
  /\ Ascii.eqb c "i" = false /\ Ascii.eqb c "n" = false.
Proof.
  destruct c as [[] [] [] [] [] [] [] []]; cbv; intros H; try discriminate H;
    repeat split; reflexivity.
Qed.

(** [scan_digits] reads a whole run of digits when what follows it is
    neither a digit nor an underscore. *)
Lemma scan_digits_run (ds r : list ascii) :
  Forall (fun c => is_digit c = true) ds ->
  match r with
  | [] => True
  | c :: _ => is_digit c = false /\ Ascii.eqb c "_" = false
  end ->
  forall acc n,
    scan_digits (ds ++ r) acc n = (digits_value ds acc, (n + List.length ds)%nat, r).
Proof.
  intros Hds Hr. induction Hds as [| c ds Hc Hds IH]; intros acc n.
  - cbn [app digits_value fold_left List.length]. rewrite Nat.add_0_r.
    destruct r as [| c r]; [reflexivity |]. destruct Hr as [Hd Hu].
    cbn [scan_digits]. unfold is_digit in Hd.
    destruct (digit_val c); [discriminate |]. rewrite Hu.
    destruct n; reflexivity.
  - cbn [app scan_digits]. unfold is_digit in Hc.
    destruct (digit_val c) as [d |] eqn:Ed; [| discriminate].
    rewrite IH. unfold digits_value. cbn [fold_left List.length]. rewrite Ed.
    f_equal. f_equal. lia.
Qed.

Lemma strip_chars_plain (l : list ascii) :
  Forall (fun c => is_space c = false) l -> strip_chars l = l.
Proof.
  intros H. unfold strip_chars.
  assert (forall l', Forall (fun c => is_space c = false) l' -> lstrip l' = l') as Hl.
  { intros l' Hl'. destruct Hl' as [| c l' Hc _]; [reflexivity |]. cbn. now rewrite Hc. }
  rewrite (Hl l H), (Hl (rev l)); [apply rev_involutive |].
  apply Forall_rev. exact H.
Qed.

(** [int] of a run of digits is its value, and so is [float], rounded to
    the nearest double. *)
Lemma int_of_str_digits (ds : list ascii) :
  digits ds -> int_of_str (string_of_list_ascii ds) = Ret (digits_value ds 0).
Proof.
  intros [Hne Hds]. unfold int_of_str. rewrite list_ascii_of_string_of_list_ascii.
  rewrite strip_chars_plain.
  2:{ eapply Forall_impl; [| exact Hds]. intros c Hc. now apply digit_is_plain. }
  destruct ds as [| c ds]; [congruence |].
  assert (scan_sign (c :: ds) = (false, c :: ds)) as ->.
  { inversion Hds as [| ? ? Hc _]; subst.
    destruct (digit_is_plain c Hc) as (_ & _ & _ & Hm & Hp & _).
    unfold scan_sign.
    destruct c as [[] [] [] [] [] [] [] []]; try reflexivity; discriminate. }
  rewrite <- (app_nil_r (c :: ds)) at 1.
  rewrite (scan_digits_run (c :: ds) [] Hds I). reflexivity.
Qed.

Lemma not_a_word (c : ascii) (l : list ascii) :
  is_digit c = true ->
  let low := string_of_list_ascii (map lower (c :: l)) in
  String.eqb low "inf" || String.eqb low "infinity" = false
  /\ String.eqb low "nan" = false.
Proof.
  intros Hc. destruct (digit_is_plain c Hc) as (_ & Hl & _ & _ & _ & Hi & Hn).
  cbn [map string_of_list_ascii String.eqb]. rewrite Hl, Hi, Hn. auto.
Qed.


Lemma float_of_unsigned_digits (ds : list ascii) :
  digits ds ->
  float_of_unsigned ds = Some (nearest_of_decimal (digits_value ds 0) 0).
Proof.
  intros [Hne Hds]. unfold float_of_unsigned.
  destruct ds as [| c ds]; [congruence |].
  inversion Hds as [| ? ? Hc _]; subst.
  destruct (not_a_word c ds Hc) as [H1 H2].
  cbv zeta in H1, H2. rewrite H1, H2.
  rewrite <- (app_nil_r (c :: ds)) at 1.
  rewrite (scan_digits_run (c :: ds) [] Hds I).
  cbn [List.length Nat.add scan_exponent]. reflexivity.
Qed.


Lemma nearest_of_Z_opp (p : positive) :
  nearest_of_Z (Zneg p) = (- nearest_of_Z (Zpos p))%float.
Proof.
  unfold nearest_of_Z, binary_normalize, binary_round.
  destruct (shl_align p 0 _) as [mz ez]. unfold binary_round_aux.
  destruct (shr_fexp prec emax (Z.pos mz) ez loc_Exact) as [mrs' e'].
  destruct (shr_fexp prec emax _ e' loc_Exact) as [mrs'' e''].
  destruct (shr_m mrs''); [reflexivity | | reflexivity].
  destruct (e'' <=? emax - prec); reflexivity.
Qed.

Lemma string_of_uint_digits (d : Decimal.uint) :
  Forall (fun c => is_digit c = true)
         (list_ascii_of_string (NilEmpty.string_of_uint d)).
Proof.
  induction d; cbn [NilEmpty.string_of_uint list_ascii_of_string]; constructor;
    solve [reflexivity | assumption].
Qed.

Lemma digits_value_of_uint_acc (d : Decimal.uint) :
  forall a : positive,
    digits_value (list_ascii_of_string (NilEmpty.string_of_uint d)) (Zpos a)
    = Zpos (Pos.of_uint_acc d a).
Proof.
  unfold digits_value.
  induction d; intros a;
    cbn [NilEmpty.string_of_uint list_ascii_of_string fold_left Pos.of_uint_acc];
    try reflexivity.
  all: match goal with
       | |- context [digit_val ?c] =>
           let v := eval vm_compute in (digit_val c) in
           change (digit_val c) with v; cbv beta iota
       end.
  all: match goal with
       | |- fold_left _ _ ?x = Zpos (Pos.of_uint_acc _ ?y) =>
           replace x with (Zpos y) by lia
       end.
  all: apply IHd.
Qed.

Lemma digits_value_of_uint (d : Decimal.uint) :
  digits_value (list_ascii_of_string (NilEmpty.string_of_uint d)) 0
  = Z.of_N (Pos.of_uint d).
Proof.
  induction d;
    cbn [NilEmpty.string_of_uint list_ascii_of_string Pos.of_uint];
    try reflexivity.
  - exact IHd.
  - apply (digits_value_of_uint_acc d 1).
  - apply (digits_value_of_uint_acc d 2).
  - apply (digits_value_of_uint_acc d 3).
  - apply (digits_value_of_uint_acc d 4).
  - apply (digits_value_of_uint_acc d 5).
  - apply (digits_value_of_uint_acc d 6).
  - apply (digits_value_of_uint_acc d 7).
  - apply (digits_value_of_uint_acc d 8).
  - apply (digits_value_of_uint_acc d 9).
Qed.

Lemma float_of_str_digits (ds : list ascii) :
  digits ds ->
  float_of_str (string_of_list_ascii ds) = Ret (nearest_of_decimal (digits_value ds 0) 0)
  /\ float_of_str (String "-" (string_of_list_ascii ds))
     = Ret (- nearest_of_decimal (digits_value ds 0) 0)%float.
Proof.
  intros Hds. pose proof Hds as [Hne Hall].
  assert (Forall (fun c => is_space c = false) ds) as Hplain.
  { eapply Forall_impl; [| exact Hall]. intros c Hc. now apply digit_is_plain. }
  unfold float_of_str. cbn [list_ascii_of_string].
  rewrite list_ascii_of_string_of_list_ascii. split.
  - rewrite strip_chars_plain by exact Hplain.
    destruct ds as [| c ds]; [congruence |].
    assert (scan_sign (c :: ds) = (false, c :: ds)) as ->.
    { inversion Hall as [| ? ? Hc _]; subst. unfold scan_sign.
      destruct c as [[] [] [] [] [] [] [] []]; try reflexivity; discriminate. }
    now rewrite (float_of_unsigned_digits _ Hds).
  - rewrite strip_chars_plain by (constructor; [reflexivity | exact Hplain]).
    cbn [scan_sign]. now rewrite (float_of_unsigned_digits _ Hds).
Qed.

(** [float(str(z))] is the double nearest to [z]: the value that
    [get_audio_bitrate] returns reaches the calculators unchanged. *)
Lemma float_of_str_str_of_int (z : Z) :
  float_of_str (str_of_int z) = Ret (nearest_of_Z z).
Proof.
  destruct z as [| p | p]; [reflexivity | |].
  - unfold str_of_int. cbn [Z.to_int NilZero.string_of_int].
    pose proof (DecimalPos.Unsigned.to_uint_nonnil p) as Hnn.
    assert (NilZero.string_of_uint (Pos.to_uint p)
            = NilEmpty.string_of_uint (Pos.to_uint p)) as ->
      by (unfold NilZero.string_of_uint; destruct (Pos.to_uint p); congruence).
    rewrite <- (string_of_list_ascii_of_string (NilEmpty.string_of_uint (Pos.to_uint p))).
    assert (digits (list_ascii_of_string (NilEmpty.string_of_uint (Pos.to_uint p)))) as Hd.
    { split; [| apply string_of_uint_digits].
      destruct (Pos.to_uint p); cbn; congruence. }
    rewrite (proj1 (float_of_str_digits _ Hd)).
    rewrite digits_value_of_uint, DecimalPos.Unsigned.of_to.
    cbn [Z.of_N nearest_of_decimal Z.leb Z.compare]. now rewrite Z.mul_1_r.
  - unfold str_of_int. cbn [Z.to_int NilZero.string_of_int].
    pose proof (DecimalPos.Unsigned.to_uint_nonnil p) as Hnn.
    assert (NilZero.string_of_uint (Pos.to_uint p)
            = NilEmpty.string_of_uint (Pos.to_uint p)) as ->
      by (unfold NilZero.string_of_uint; destruct (Pos.to_uint p); congruence).
    rewrite <- (string_of_list_ascii_of_string (NilEmpty.string_of_uint (Pos.to_uint p))).
    assert (digits (list_ascii_of_string (NilEmpty.string_of_uint (Pos.to_uint p)))) as Hd.
    { split; [| apply string_of_uint_digits].
      destruct (Pos.to_uint p); cbn; congruence. }
    rewrite (proj2 (float_of_str_digits _ Hd)).
    rewrite digits_value_of_uint, DecimalPos.Unsigned.of_to.
    cbn [Z.of_N nearest_of_decimal Z.leb Z.compare]. rewrite Z.mul_1_r.
    now rewrite nearest_of_Z_opp.
Qed.

(** ** The fixed-bitrate calculator *)

Lemma float_of_str_raises (s : string) (e : exn) :
  float_of_str s = Raise e -> e = ValueError.
Proof.
  unfold float_of_str. destruct (scan_sign _) as [neg l].
  destruct (float_of_unsigned l); [discriminate | congruence].
Qed.

Lemma rmap_float_of_str_raises (l : list string) (e : exn) :
  rmap float_of_str l = Raise e -> e = ValueError.
Proof.
  induction l as [| x l IH]; simpl; [discriminate |].
  destruct (float_of_str x) eqn:Ex; simpl.
  - destruct (rmap float_of_str l); simpl; [discriminate |].
    intros H. injection H as <-. now apply IH.
  - intros H. injection H as <-. now apply (float_of_str_raises x).
Qed.

(** The calculator depends neither on the state nor on its second argument,
    and leaves the state as it found it. *)
Lemma calculate_video_bitrate_frame (self : worker) (duration : option float)
    (arg arg' : string) (audio : list string) (st st' : state) :
  let '(r, st1, evs) := calculate_video_bitrate self duration arg audio st in
  st1 = st /\ calculate_video_bitrate self duration arg' audio st' = (r, st', evs).
Proof.
  unfold calculate_video_bitrate, bind, try_except_ValueError, lift, ret, emit.
  destruct (float_of_str (target_size_mb self)) as [T | e] eqn:ET; simpl.
  - destruct duration as [d |]; simpl; [| auto].
    destruct (d <=? 0)%float; simpl; [auto |].
    destruct audio as [| a audio]; [simpl; auto |].
    destruct (rmap float_of_str (a :: audio)) as [fs | e] eqn:Efs.
    + cbn [fst snd app]. destruct (truediv _ d); [| simpl; auto].
      destruct (int_of_float _); simpl; auto.
    + rewrite (rmap_float_of_str_raises _ _ Efs). simpl. auto.
  - rewrite (float_of_str_raises _ _ ET). simpl. auto.
Qed.

(** With valid inputs the calculator returns [int] of the value of its
    formula, whenever [int] has a value there. *)
Lemma calculate_video_bitrate_value (self : worker) (d T : float)
    (audio : list string) (fs : list float) (z : Z) :
  (0 <? d)%float = true ->
  float_of_str (target_size_mb self) = Ret T ->
  audio <> [] ->
  rmap float_of_str audio = Ret fs ->
  trunc (((T * 8 * 1024 * 1024 / d) - sum fs * 1000) / 1000)%float = Some z ->
  forall (arg : string) (st : state),
    calculate_video_bitrate self (Some d) arg audio st = (Ret (Some z), st, []).
Proof.
  intros Hd HT Hne Hfs Hz arg st.
  unfold calculate_video_bitrate, bind, try_except_ValueError, lift, ret, emit.
  rewrite HT. cbn [fst snd app].
  rewrite (positive_not_le_0 d Hd).
  destruct audio as [| a audio]; [congruence |].
  rewrite Hfs. cbn [fst snd app].
  unfold truediv. rewrite (positive_not_zero d Hd).
  rewrite (int_of_float_trunc _ _ Hz). reflexivity.
Qed.

(** C1 (as amended).  For a duration above 0, a target size that parses as a
    float and a non-empty list of numeric audio bitrates, whenever the value
    [((target * 8 * 1024 * 1024 / duration) - total_audio * 1000) / 1000] is
    finite the calculator returns its integer part (rounding toward zero),
    which is its floor when the value is not negative, and emits nothing.
    It is deterministic in its inputs: on any input at all, changing the
    state or the shadowed second argument changes neither the result nor
    what is emitted. *)
Theorem calculate_video_bitrate_integer_part
    (self : worker) (d T : float) (audio : list string) (fs : list float) :
  (0 <? d)%float = true ->
  float_of_str (target_size_mb self) = Ret T ->
  audio <> [] ->
  rmap float_of_str audio = Ret fs ->
  is_finite (((T * 8 * 1024 * 1024 / d) - sum fs * 1000) / 1000)%float = true ->
  exists z : Z,
    trunc (((T * 8 * 1024 * 1024 / d) - sum fs * 1000) / 1000)%float = Some z
    /\ ((0 <=? ((T * 8 * 1024 * 1024 / d) - sum fs * 1000) / 1000)%float = true ->
        floor (((T * 8 * 1024 * 1024 / d) - sum fs * 1000) / 1000)%float = Some z)
    /\ (forall (arg : string) (st : state),
          calculate_video_bitrate self (Some d) arg audio st = (Ret (Some z), st, []))
    /\ (forall (duration : option float) (arg arg' : string) (values : list string)
               (st st' : state),
          let '(r, st1, evs) := calculate_video_bitrate self duration arg values st in
          st1 = st
          /\ calculate_video_bitrate self duration arg' values st' = (r, st', evs)).
Proof.
  intros Hd HT Hne Hfs Hfin.
  destruct (int_of_float_finite _ Hfin) as (z & Hint & Htr).
  exists z. split; [exact Htr | split; [| split]].
  - intros Hpos. rewrite <- (nonneg_trunc_floor _ Hpos). exact Htr.
  - now apply (calculate_video_bitrate_value self d T audio fs z).
  - intros. apply calculate_video_bitrate_frame.
Qed.

(** A run of the theorem above: 700 MB over 3600.5 s with 128 + 64 kbps of
    audio gives 1438 kbps. *)
Lemma calculate_video_bitrate_integer_part_witness :
  exists z : Z,
    trunc (((700 * 8 * 1024 * 1024 / 3600.5) - sum [128; 64] * 1000) / 1000)%float = Some z
    /\ ((0 <=? ((700 * 8 * 1024 * 1024 / 3600.5) - sum [128; 64] * 1000) / 1000)%float = true ->
        floor (((700 * 8 * 1024 * 1024 / 3600.5) - sum [128; 64] * 1000) / 1000)%float = Some z)
    /\ forall (arg : string) (st : state),
         calculate_video_bitrate (a_worker [] "700" "av_aac" (Some "128,64"%string) [] false)
           (Some 3600.5%float) arg ["128"; "64"]%string st = (Ret (Some z), st, []).
Proof.
  cut (exists z : Z,
    trunc (((700 * 8 * 1024 * 1024 / 3600.5) - sum [128; 64] * 1000) / 1000)%float = Some z
    /\ ((0 <=? ((700 * 8 * 1024 * 1024 / 3600.5) - sum [128; 64] * 1000) / 1000)%float = true ->
        floor (((700 * 8 * 1024 * 1024 / 3600.5) - sum [128; 64] * 1000) / 1000)%float = Some z)
    /\ (forall (arg : string) (st : state),
          calculate_video_bitrate (a_worker [] "700" "av_aac" (Some "128,64"%string) [] false)
            (Some 3600.5%float) arg ["128"; "64"]%string st = (Ret (Some z), st, []))
    /\ (forall (duration : option float) (arg arg' : string) (values : list string)
               (st st' : state),
          let '(r, st1, evs) :=
            calculate_video_bitrate (a_worker [] "700" "av_aac" (Some "128,64"%string) [] false)
              duration arg values st in
          st1 = st
          /\ calculate_video_bitrate (a_worker [] "700" "av_aac" (Some "128,64"%string) [] false)
               duration arg' values st' = (r, st', evs))).
  { intros (z & H1 & H2 & H3 & _). exists z. auto. }
  apply (calculate_video_bitrate_integer_part
           (a_worker [] "700" "av_aac" (Some "128,64"%string) [] false)
           3600.5%float 700%float ["128"; "64"]%string [128; 64]%float);
    solve [vm_compute; reflexivity | discriminate].
Defined.

(** C1 as stated fails where the value is negative and not an integer:
    1 MB over 100 s with 84 kbps of audio leaves -0.11392 kbps, of which the
    calculator returns the integer part 0, while the floor is -1. *)
Lemma calculate_video_bitrate_is_not_floor :
  calculate_video_bitrate (a_worker [] "1" "av_aac" (Some "84"%string) [] false)
    (Some 100%float) "1" ["84"]%string idle = (Ret (Some 0), idle, [])
  /\ floor (((1 * 8 * 1024 * 1024 / 100) - sum [84] * 1000) / 1000)%float = Some (-1).
Proof. split; vm_compute; reflexivity. Qed.




(** ** The constant-quality estimator *)

Ltac break_inner x :=
  lazymatch x with
  | context [match ?y with _ => _ end] => break_inner y
  | _ => let E := fresh "E" in destruct x eqn:E
  end.

Ltac break_match :=
  match goal with
  | |- context [match ?x with _ => _ end] => break_inner x
  end.

(** One pass of the loop encodes the current candidate and no other; when it
    falls through, one bound has become the candidate, the new candidate is
    the midpoint of the new bounds, and the encoded sample is gone while the
    extracted sample is as before. *)
Lemma rf_iteration_step env self d sd lo hi audio l u r st res st' evs :
  rf_iteration env self d sd lo hi audio l u r st = (res, st', evs) ->
  candidates evs = [r]
  /\ forall l' u' r', res = Ret (Next l' u' r') ->
       ((l' = r /\ u' = u) \/ (l' = l /\ u' = r))
       /\ r' = mid l' u'
       /\ temp_encoded_sample st' = None
       /\ temp_sample_file st' = temp_sample_file st.
Proof.
  destruct st as [pf ts te].
  cbv beta iota zeta delta [rf_iteration run_handbrake_sample exists_temp_encoded
    getsize_temp_encoded remove_temp_encoded bind lift ret emit launch get put raise
    processed_files temp_sample_file temp_encoded_sample fst snd app negb].
  repeat break_match.
  all: intros H; inversion H; subst; clear H; (split; [reflexivity |]);
    intros l' u' r' Hn; try discriminate.
  all: inversion Hn; subst; clear Hn; unfold mid; cbn; auto.
Qed.

Lemma bind_inv {A B : Type} (m : M A) (k : A -> M B) (s : state)
    (r : res B) (s' : state) (evs : list event) :
  bind m k s = (r, s', evs) ->
  (exists a s1 e1 e2, m s = (Ret a, s1, e1) /\ k a s1 = (r, s', e2) /\ evs = e1 ++ e2)
  \/ (exists e, m s = (Raise e, s', evs) /\ r = Raise e).
Proof.
  unfold bind. destruct (m s) as [[[a | e] s1] e1].
  - destruct (k a s1) as [[r2 s2] e2] eqn:Ek. intros H. inversion H; subst.
    left. exists a, s1, e1, e2. auto.
  - intros H. inversion H; subst. right. eauto.
Qed.

Lemma candidates_app (a b : list event) :
  candidates (a ++ b) = candidates a ++ candidates b.
Proof.
  induction a as [| e a IH]; simpl; [reflexivity |].
  destruct (candidate e); simpl; now rewrite IH.
Qed.

(** The loop follows one bisection path: the candidates it encodes are the
    midpoints along a path shorter than the number of passes left, and a
    value it ends with is the midpoint reached by a path not longer than
    that number. *)
Lemma rf_loop_path env self d sd lo hi audio (n : nat) :
  forall l u st res st' evs,
    rf_loop env self n d sd lo hi audio l u (mid l u) st = (res, st', evs) ->
    ((n = O /\ candidates evs = [])
     \/ exists path, (List.length path < n)%nat
                     /\ candidates evs = midpoints (l, u) path)
    /\ forall v, res = Ret (Some v) ->
         exists path, (List.length path <= n)%nat
                      /\ v = mid (fst (walk (l, u) path)) (snd (walk (l, u) path)).
Proof.
  induction n as [| n IH]; intros l u st res st' evs H.
  - cbv [rf_loop ret] in H. inversion H; subst. split; [left; auto |].
    intros v Hv. inversion Hv; subst. exists []. simpl. auto.
  - cbn [rf_loop] in H. apply bind_inv in H.
    destruct H as [(f & s1 & e1 & e2 & Hit & Hk & ->) | (e & Hit & ->)].
    + apply rf_iteration_step in Hit. destruct Hit as [Hc Hnext].
      rewrite candidates_app, Hc.
      destruct f as [l' u' r' | |].
      * destruct (Hnext l' u' r' eq_refl) as (Hb & -> & _).
        assert (exists b, (l', u') = bisect b (l, u)) as [b Eb].
        { destruct Hb as [[-> ->] | [-> ->]]; [exists true | exists false]; reflexivity. }
        apply IH in Hk. destruct Hk as [Hcands Hres]. split.
        -- right. destruct Hcands as [[-> ->] | (path & Hlen & ->)].
           ++ exists []. simpl. split; [lia | reflexivity].
           ++ exists (b :: path). simpl. rewrite <- Eb. split; [lia | reflexivity].
        -- intros v Hv. destruct (Hres v Hv) as (path & Hlen & ->).
           exists (b :: path). simpl. rewrite <- Eb. split; [lia | reflexivity].
      * cbv [ret] in Hk. inversion Hk; subst. split.
        -- right. exists []. simpl. split; [lia | reflexivity].
        -- intros v Hv. inversion Hv; subst. exists []. simpl. split; [lia | reflexivity].
      * cbv [ret] in Hk. inversion Hk; subst. split.
        -- right. exists []. simpl. split; [lia | reflexivity].
        -- intros v Hv. discriminate.
    + apply rf_iteration_step in Hit. destruct Hit as [Hc _]. rewrite Hc. split.
      * right. exists []. simpl. split; [lia | reflexivity].
      * intros v Hv. discriminate.
Qed.

(** [get_duration] always returns, changes nothing and starts neither the
    extractor nor the transcoder. *)
Lemma get_duration_total env file_path st :
  exists o evs,
    get_duration env file_path st = (Ret o, st, evs)
    /\ candidates evs = []
    /\ (forall c, ~ In (Launch c) evs).
Proof.
  cbv beta iota zeta delta [get_duration try_except bind lift ret emit fst snd app].
  repeat break_match.
  all: do 2 eexists; split; [reflexivity | split; [reflexivity |]].
  all: intros c Hin; cbn in Hin; intuition discriminate.
Qed.

Lemma estimate_rf_value_inv env self file_path target audio st r st' evs :
  estimate_rf_value env self file_path target audio st = (r, st', evs) ->
  exists o, r = Ret o
    /\ ((candidates evs = [] /\ o = None)
        \/ exists d s0 rl sl el,
             rf_loop env self max_iterations d (d * 0.05)%float
               (target * 0.95)%float (target * 1.05)%float audio
               18%float 40%float (mid 18 40) s0 = (rl, sl, el)
             /\ candidates evs = candidates el
             /\ forall v, o = Some v -> exists rf, rl = Ret (Some rf) /\ v = round2 rf).
Proof.
  destruct st as [pf ts te].
  cbv beta iota zeta delta [estimate_rf_value get_duration try_except bind lift ret emit
    launch get put raise exists_temp_sample exists_temp_encoded remove_temp_sample
    remove_temp_encoded run_ffmpeg clean_up_and_return
    processed_files temp_sample_file temp_encoded_sample fst snd app negb].
  repeat break_match.
  all: intros H; inversion H; subst; clear H; eexists; (split; [reflexivity |]).
  all: try (left; split; reflexivity).
  all: right; do 5 eexists; (split; [eassumption |]).
  all: cbn [candidates candidate app]; rewrite ?candidates_app; cbn [candidates candidate app];
    rewrite ?app_nil_r; (split; [reflexivity |]).
  all: intros v Hv; try discriminate; inversion Hv; subst; eauto.
Qed.

Lemma paths_complete (n : nat) :
  forall p : list bool, (List.length p <= n)%nat -> In p (paths n).
Proof.
  induction n as [| n IH]; intros [| b p] Hlen; simpl in *; auto; try lia.
  right. apply in_or_app.
  destruct b; [left | right]; apply in_map; apply IH; lia.
Qed.

(** Every interval within ten bisections of [[18, 40]] passes the check: the
    floating-point arithmetic of the search is exact on them. *)
Lemma intervals_checked :
  forallb check_interval (paths 10) = true.
Proof. vm_compute. reflexivity. Qed.

Lemma interval_checked (path : list bool) :
  (List.length path <= 10)%nat -> check_interval path = true.
Proof.
  intros Hlen. pose proof intervals_checked as H.
  rewrite forallb_forall in H. apply H. now apply paths_complete.
Qed.

Lemma interval_facts (path : list bool) :
  (List.length path <= 10)%nat ->
  let iv := walk (18, 40)%float path in
  let m := mid (fst iv) (snd iv) in
  (18 <=? fst iv)%float = true
  /\ (snd iv <=? 40)%float = true
  /\ (width iv =? 22 / nearest_of_Z (2 ^ Z.of_nat (List.length path)))%float = true
  /\ (width (bisect true iv) =? width iv / 2)%float = true
  /\ (width (bisect false iv) =? width iv / 2)%float = true
  /\ (18 <=? round2 m)%float = true
  /\ (round2 m <=? 40)%float = true.
Proof.
  intros Hlen. pose proof (interval_checked path Hlen) as Hc.
  unfold check_interval in Hc. cbv zeta in Hc. cbv zeta.
  repeat (apply andb_prop in Hc; destruct Hc as [Hc ?]).
  repeat split; assumption.
Qed.

Lemma walk_app (iv : float * float) (p q : list bool) :
  walk iv (p ++ q) = walk (walk iv p) q.
Proof.
  revert iv. induction p as [| b p IH]; intros iv; simpl; [reflexivity | apply IH].
Qed.

(** A value the estimator returns is the rounded midpoint of an interval
    within ten bisections of [[18, 40]]. *)
Lemma estimate_rf_value_result env self file_path target audio st v st' evs :
  estimate_rf_value env self file_path target audio st = (Ret (Some v), st', evs) ->
  exists path,
    (List.length path <= 10)%nat
    /\ v = round2 (mid (fst (walk (18, 40)%float path)) (snd (walk (18, 40)%float path))).
Proof.
  intros H. apply estimate_rf_value_inv in H.
  destruct H as (o & Ho & H). inversion Ho; subst o.
  destruct H as [[_ H] | H]; [discriminate |].
  destruct H as (d & s0 & rl & sl & el & Hloop & _ & Hres).
  destruct (Hres v eq_refl) as (rf & -> & ->).
  apply rf_loop_path in Hloop. destruct Hloop as [_ Hloop].
  destruct (Hloop rf eq_refl) as (path & Hlen & ->).
  exists path. auto.
Qed.

(** C3.  Whatever the estimator returns lies within [[18, 40]].  The quality
    values it encodes the sample at are the midpoints of the intervals along
    one bisection path that starts at [[18, 40]] (so it starts at the
    midpoint 29), each interval being the previous one with one bound
    replaced by the candidate just tried; and on every such path each
    bisection halves the width of the interval exactly (after [k] of them it
    is [22 / 2^k]) and stays within [[18, 40]]. *)
Theorem estimate_rf_value_bisects
    (env : environment) (self : worker) (file_path : string) (target : float)
    (audio : list string) (st : state)
    (r : res (option float)) (st' : state) (evs : list event) :
  estimate_rf_value env self file_path target audio st = (r, st', evs) ->
  (forall v, r = Ret (Some v) -> (18 <=? v)%float = true /\ (v <=? 40)%float = true)
  /\ (candidates evs = []
      \/ exists path, (List.length path < 10)%nat
                      /\ candidates evs = midpoints (18, 40)%float path)
  /\ mid 18 40 = 29%float
  /\ (forall path b,
        (List.length path < 10)%nat ->
        let iv := walk (18, 40)%float path in
        (fst (bisect b iv) = mid (fst iv) (snd iv) /\ snd (bisect b iv) = snd iv
         \/ fst (bisect b iv) = fst iv /\ snd (bisect b iv) = mid (fst iv) (snd iv))
        /\ (width (bisect b iv) =? width iv / 2)%float = true
        /\ (width iv =? 22 / nearest_of_Z (2 ^ Z.of_nat (List.length path)))%float = true
        /\ (18 <=? fst (bisect b iv))%float = true
        /\ (snd (bisect b iv) <=? 40)%float = true).
Proof.
  intros H. split; [| split; [| split; [reflexivity |]]].
  - intros v ->. apply estimate_rf_value_result in H.
    destruct H as (path & Hlen & ->).
    destruct (interval_facts path Hlen) as (_ & _ & _ & _ & _ & Hlo & Hhi). auto.
  - apply estimate_rf_value_inv in H. destruct H as (o & _ & H).
    destruct H as [[H _] | H]; [left; exact H | right].
    destruct H as (d & s0 & rl & sl & el & Hloop & -> & _).
    apply rf_loop_path in Hloop. destruct Hloop as [[[Hn _] | Hp] _]; [discriminate |].
    exact Hp.
  - intros path b Hlen iv.
    destruct (interval_facts path (Nat.lt_le_incl _ _ Hlen)) as (_ & _ & Hw & Ht & Hf & _).
    assert (List.length (path ++ [b]) <= 10)%nat as Hlen'
      by (rewrite length_app; simpl; lia).
    destruct (interval_facts (path ++ [b]) Hlen') as (Hlo & Hhi & _).
    rewrite walk_app in Hlo, Hhi. simpl in Hlo, Hhi. fold iv in Hlo, Hhi, Hw, Ht, Hf.
    split; [destruct b; simpl; auto |].
    split; [destruct b; assumption |]. auto.
Qed.

(** A run of the theorem above: a 100 s file, a 700 MB target and a stub
    transcoder that lands in the band between 24 and 26.  The search tries
    29, 23.5, 26.25 and 24.875 and returns 24.88. *)
Lemma estimate_rf_value_bisects_witness :
  exists st' evs,
    estimate_rf_value
      (a_world (Ret (Some (some_tracks (Some "100"%string) [])))
               (fun _ => exits 0 [] (Some 1000)) a_transcoder)
      (a_worker ["/in/a.mkv"%string] "700" "av_aac" (Some "128"%string) [[0]] true)
      "/in/a.mkv" 700%float ["128"%string] idle
    = (Ret (Some 24.88%float), st', evs)
    /\ candidates evs = [29; 23.5; 26.25; 24.875]%float
    /\ (18 <=? 24.88)%float = true /\ (24.88 <=? 40)%float = true.
Proof.
  do 2 eexists.
  assert (estimate_rf_value
      (a_world (Ret (Some (some_tracks (Some "100"%string) [])))
               (fun _ => exits 0 [] (Some 1000)) a_transcoder)
      (a_worker ["/in/a.mkv"%string] "700" "av_aac" (Some "128"%string) [[0]] true)
      "/in/a.mkv" 700%float ["128"%string] idle
    = (Ret (Some 24.88%float), _, _)) as H by (cbv; reflexivity).
  split; [exact H |]. split; [reflexivity |].
  exact (proj1 (estimate_rf_value_bisects _ _ _ _ _ _ _ _ _ H) _ eq_refl).
Defined.

(** A pass of the loop whose sample encode succeeds and leaves [bytes]
    bytes: the estimate is reported, the loop is left when it is within the
    band, and otherwise one bound moves to the candidate and the encoded
    sample is deleted. *)
Lemma rf_iteration_ok env self d sd target audio l u rf pf ts te
    out bytes ratio size fs :
  handbrake env (sample_command self rf)
    = Ret {| returncode := 0; stdout := out; written := Some bytes |} ->
  truediv d sd = Ret ratio ->
  float_of_int bytes = Ret size ->
  rmap float_of_str audio = Ret fs ->
  let estimate := ((size * ratio + (sum fs * 1000 / 8) * d) / (1024 * 1024))%float in
  let seen := [Signal (progress (MsgEncodingSample rf));
               Launch (sample_command self rf);
               Signal (progress (MsgEstimatedSize rf estimate))] in
  let too_large := (target * 1.05 <? estimate)%float in
  let l' := if too_large then rf else l in
  let u' := if too_large then u else rf in
  rf_iteration env self d sd (target * 0.95)%float (target * 1.05)%float audio l u rf
    {| processed_files := pf; temp_sample_file := ts; temp_encoded_sample := te |}
  = if in_band target estimate then
      (Ret Break,
       {| processed_files := pf; temp_sample_file := ts;
          temp_encoded_sample := Some bytes |}, seen)
    else
      (Ret (Next l' u' (mid l' u')),
       {| processed_files := pf; temp_sample_file := ts;
          temp_encoded_sample := None |}, seen).
Proof.
  intros Hhb Hratio Hsize Hfs estimate seen too_large l' u'.
  cbv beta iota zeta delta [rf_iteration run_handbrake_sample exists_temp_encoded
    getsize_temp_encoded remove_temp_encoded bind lift ret emit launch get put raise
    processed_files temp_sample_file temp_encoded_sample fst snd app negb
    returncode written stdout estimated_total_size_mb in_band].
  rewrite Hhb. cbn [Z.eqb]. rewrite Hratio, Hsize, Hfs. fold estimate.
  destruct ((target * 0.95 <=? estimate)%float && (estimate <=? target * 1.05)%float);
    reflexivity.
Qed.

(** ** When the estimator fails *)






Section SuccessfulEncodes.

Variable env : environment.
Variable self : worker.
Variables d sd target ratio : float.
Variable audio : list string.
Variable fs : list float.

(** Every sample encode exits with 0 and leaves a file. *)
Hypothesis encodes :
  forall rf, exists out bytes size,
    handbrake env (sample_command self rf)
      = Ret {| returncode := 0; stdout := out; written := Some bytes |}
    /\ float_of_int bytes = Ret size.
Hypothesis ratio_ok : truediv d sd = Ret ratio.
Hypothesis audio_ok : rmap float_of_str audio = Ret fs.

(** Then the loop ends with a value after at most [n] passes, the extracted
    sample still in place. *)
Lemma rf_loop_succeeds (n : nat) :
  forall l u rf pf te,
  exists v te' evs,
    rf_loop env self n d sd (target * 0.95)%float (target * 1.05)%float audio l u rf
      {| processed_files := pf; temp_sample_file := true; temp_encoded_sample := te |}
    = (Ret (Some v),
       {| processed_files := pf; temp_sample_file := true; temp_encoded_sample := te' |},
       evs).
Proof.
  induction n as [| n IH]; intros l u rf pf te.
  - do 3 eexists. reflexivity.
  - destruct (encodes rf) as (out & bytes & size & Hhb & Hsize).
    pose proof (rf_iteration_ok env self d sd target audio l u rf pf true te
                  out bytes ratio size fs Hhb ratio_ok Hsize audio_ok) as Hit.
    cbv zeta in Hit. cbn [rf_loop]. unfold bind. rewrite Hit.
    destruct (in_band target _).
    + do 3 eexists. reflexivity.
    + match goal with
      | |- context [rf_loop env self n d sd ?lo ?hi audio ?l' ?u' ?r' ?s] =>
          destruct (IH l' u' r' pf None) as (v & te' & evs & Hloop)
      end.
      rewrite Hloop. do 3 eexists. reflexivity.
Qed.

(** No estimate ever enters the band. *)
Hypothesis never_in_band :
  forall rf out bytes size,
    handbrake env (sample_command self rf)
      = Ret {| returncode := 0; stdout := out; written := Some bytes |} ->
    float_of_int bytes = Ret size ->
    in_band target ((size * ratio + (sum fs * 1000 / 8) * d) / (1024 * 1024))%float = false.


End SuccessfulEncodes.

Ltac unfold_estimate :=
  cbv beta iota zeta delta [estimate_rf_value try_except bind lift ret emit
    launch get put raise exists_temp_sample exists_temp_encoded remove_temp_sample
    remove_temp_encoded run_ffmpeg clean_up_and_return
    processed_files temp_sample_file temp_encoded_sample fst snd negb
    returncode written stdout].

(** With the duration known, the sample extracted and every sample encode
    successful, the estimator returns a value and leaves no temporary file. *)
Lemma estimate_rf_value_succeeds env self file_path target audio st
    d e0 out0 b0 ratio fs :
  get_duration env file_path st = (Ret (Some d), st, e0) ->
  ffmpeg env (ffmpeg_cmd self file_path ((d - d * 0.05) / 2)%float (d * 0.05)%float)
    = Ret {| returncode := 0; stdout := out0; written := Some b0 |} ->
  (forall rf, exists out bytes size,
      handbrake env (sample_command self rf)
        = Ret {| returncode := 0; stdout := out; written := Some bytes |}
      /\ float_of_int bytes = Ret size) ->
  truediv d (d * 0.05)%float = Ret ratio ->
  rmap float_of_str audio = Ret fs ->
  exists v evs,
    estimate_rf_value env self file_path target audio st
    = (Ret (Some v),
       {| processed_files := processed_files st;
          temp_sample_file := false; temp_encoded_sample := None |}, evs).
Proof.
  intros Hd Hff Henc Hratio Hfs. destruct st as [pf ts te].
  unfold_estimate. rewrite Hd. cbv beta iota zeta.
  destruct ts, te; cbv beta iota zeta; rewrite Hff; cbv beta iota zeta delta [Z.eqb written].
  all: match goal with
       | |- context [rf_loop _ _ ?n _ ?sd _ _ _ ?l ?u ?r
                       {| processed_files := _; temp_sample_file := true;
                          temp_encoded_sample := ?e |}] =>
           destruct (rf_loop_succeeds env self _ sd target ratio audio fs
                       Henc Hratio Hfs n l u r pf e) as (v & te' & evs & Hloop)
       end.
  all: rewrite Hloop; cbv beta iota zeta; destruct te'; do 2 eexists; reflexivity.
Qed.





(** ** The accepted estimate *)

Lemma estimates_app (a b : list event) :
  estimates (a ++ b) = estimates a ++ estimates b.
Proof.
  induction a as [| e a IH]; simpl; [reflexivity |].
  destruct (estimate_of e); simpl; now rewrite IH.
Qed.

Section AcceptedEstimate.

Variable env : environment.
Variable self : worker.
Variables d sd target : float.
Variable audio : list string.
Variable fs : list float.
Variable bytes : float -> Z.
Variable size : float -> float.

Hypothesis encodes :
  forall rf, exists out,
    handbrake env (sample_command self rf)
    = Ret {| returncode := 0; stdout := out; written := Some (bytes rf) |}.
Hypothesis sizes : forall rf, float_of_int (bytes rf) = Ret (size rf).
Hypothesis sample_duration_ok : is_zero sd = false.
Hypothesis audio_ok : rmap float_of_str audio = Ret fs.

Let estimate (rf : float) : float :=
  (extrapolated_size_bytes (size rf) d sd (sum fs) / (1024 * 1024))%float.

(** Along a path on which every estimate is outside the band, and at the
    end of which the estimate is within it, the loop tries the midpoints of
    the path, reports the estimate of each, and stops with the last. *)
Lemma rf_loop_accepts (path : list bool) :
  forall (n : nat) l u pf te,
    (List.length path < n)%nat ->
    outside_band target estimate (l, u) path ->
    let rf := mid (fst (walk (l, u) path)) (snd (walk (l, u) path)) in
    in_band target (estimate rf) = true ->
    exists evs,
      rf_loop env self n d sd (target * 0.95)%float (target * 1.05)%float audio
        l u (mid l u)
        {| processed_files := pf; temp_sample_file := true; temp_encoded_sample := te |}
      = (Ret (Some rf),
         {| processed_files := pf; temp_sample_file := true;
            temp_encoded_sample := Some (bytes rf) |}, evs)
      /\ candidates evs = midpoints (l, u) path
      /\ estimates evs = map (fun c => (c, estimate c)) (midpoints (l, u) path).
Proof.
  assert (truediv d sd = Ret (d / sd)%float) as Hratio
    by (unfold truediv; now rewrite sample_duration_ok).
  induction path as [| b path IH]; intros n l u pf te Hlen Hout rf Hin;
    (destruct n as [| n]; [simpl in Hlen; lia |]).
  - destruct (encodes (mid l u)) as (out & Hhb).
    pose proof (rf_iteration_ok env self d sd target audio l u (mid l u) pf true te
                  out (bytes (mid l u)) (d / sd)%float (size (mid l u)) fs
                  Hhb Hratio (sizes _) audio_ok) as Hit.
    cbv zeta in Hit. cbn [walk fst snd] in rf. subst rf.
    change ((size (mid l u) * (d / sd) + sum fs * 1000 / 8 * d) / (1024 * 1024))%float
      with (estimate (mid l u)) in Hit.
    rewrite Hin in Hit. cbn [rf_loop]. unfold bind. rewrite Hit.
    eexists. split; [reflexivity |]. split; reflexivity.
  - cbn [outside_band fst snd] in Hout. destruct Hout as (Hnot & Hb & Hout).
    destruct (encodes (mid l u)) as (out & Hhb).
    pose proof (rf_iteration_ok env self d sd target audio l u (mid l u) pf true te
                  out (bytes (mid l u)) (d / sd)%float (size (mid l u)) fs
                  Hhb Hratio (sizes _) audio_ok) as Hit.
    cbv zeta in Hit.
    change ((size (mid l u) * (d / sd) + sum fs * 1000 / 8 * d) / (1024 * 1024))%float
      with (estimate (mid l u)) in Hit.
    rewrite Hnot, <- Hb in Hit. cbn [rf_loop]. unfold bind. rewrite Hit.
    simpl in Hlen.
    destruct (IH n (fst (bisect b (l, u))) (snd (bisect b (l, u))) pf None
                ltac:(lia)) as (evs & Hloop & Hc & He).
    + destruct b; exact Hout.
    + destruct b; exact Hin.
    + exists ([Signal (progress (MsgEncodingSample (mid l u)));
               Launch (sample_command self (mid l u));
               Signal (progress (MsgEstimatedSize (mid l u) (estimate (mid l u))))]
              ++ evs).
      destruct b; cbn [bisect fst snd] in Hloop, Hc, He |- *; rewrite Hloop;
        cbn [walk bisect fst snd midpoints map candidates candidate estimates
             estimate_of app];
        rewrite Hc, He; repeat split; reflexivity.
Qed.

End AcceptedEstimate.

(** C4.  In every pass of the estimator's loop the size of the whole file
    is estimated as [size * (duration / sample_duration) + audio] bytes,
    where [size] is the size of the encoded sample, the sample lasts
    [duration * 0.05] seconds and [audio] is
    [total_audio_kbps * 1000 / 8 * duration]; the estimate is reported in MB
    (bytes divided by [1024 * 1024]).  As soon as an estimate lies between
    95% and 105% of the target size the search stops, and the estimator
    returns the quality value of that pass rounded to two decimals, both
    temporary files deleted: this holds for the first pass and, the earlier
    estimates being outside the band, for any later one. *)
Theorem accepted_estimate_is_returned
    (env : environment) (self : worker) (file_path : string) (target : float)
    (audio : list string) (st : state)
    (d : float) (e0 : list event) (out0 : list string) (b0 : Z) (fs : list float)
    (bytes : float -> Z) (size : float -> float) (path : list bool) :
  get_duration env file_path st = (Ret (Some d), st, e0) ->
  ffmpeg env (ffmpeg_cmd self file_path ((d - d * 0.05) / 2)%float (d * 0.05)%float)
    = Ret {| returncode := 0; stdout := out0; written := Some b0 |} ->
  is_zero (d * 0.05)%float = false ->
  rmap float_of_str audio = Ret fs ->
  (forall rf, exists out,
      handbrake env (sample_command self rf)
      = Ret {| returncode := 0; stdout := out; written := Some (bytes rf) |}) ->
  (forall rf, float_of_int (bytes rf) = Ret (size rf)) ->
  let estimate rf :=
    (extrapolated_size_bytes (size rf) d (d * 0.05) (sum fs) / (1024 * 1024))%float in
  (List.length path < 10)%nat ->
  outside_band target estimate (18, 40)%float path ->
  let rf := mid (fst (walk (18, 40)%float path)) (snd (walk (18, 40)%float path)) in
  (target * 0.95 <=? estimate rf)%float = true ->
  (estimate rf <=? target * 1.05)%float = true ->
  exists evs,
    estimate_rf_value env self file_path target audio st
    = (Ret (Some (round2 rf)),
       {| processed_files := processed_files st;
          temp_sample_file := false; temp_encoded_sample := None |}, evs)
    /\ candidates evs = midpoints (18, 40)%float path
    /\ estimates evs = map (fun c => (c, estimate c)) (midpoints (18, 40)%float path).
Proof.
  intros Hd Hff Hsd Hfs Henc Hsize estimate Hlen Hout rf Hlo Hhi.
  assert (in_band target (estimate rf) = true) as Hin
    by (unfold in_band; now rewrite Hlo, Hhi).
  destruct st as [pf ts te].
  destruct (get_duration_total env file_path
              {| processed_files := pf; temp_sample_file := ts;
                 temp_encoded_sample := te |}) as (o & e0' & Hd' & Hc0 & _).
  rewrite Hd in Hd'. inversion Hd'; subst o e0'. clear Hd'.
  assert (estimates e0 = []) as He0.
  { revert Hd. unfold get_duration, try_except, bind, lift, ret, emit.
    repeat break_match; intros H; inversion H; reflexivity. }
  unfold_estimate. rewrite Hd. cbv beta iota zeta.
  destruct ts, te; cbv beta iota zeta; rewrite Hff; cbv beta iota zeta delta [Z.eqb written].
  all: match goal with
       | |- context [rf_loop _ _ ?n _ ?sd _ _ _ ?l ?u ?r
                       {| processed_files := _; temp_sample_file := true;
                          temp_encoded_sample := ?e |}] =>
           destruct (rf_loop_accepts env self d sd target audio fs bytes size
                       Henc Hsize Hsd Hfs path n l u pf e Hlen Hout Hin)
             as (evs & Hloop & Hc & He)
       end.
  all: unfold mid in Hloop; rewrite Hloop; cbv beta iota zeta.
  all: eexists; split; [reflexivity |].
  all: rewrite !candidates_app, !estimates_app, Hc0, He0;
    cbn [candidates candidate estimates estimate_of app];
    rewrite ?app_nil_r; split; [exact Hc | exact He].
Qed.

(** A run of the theorem above: the search for a 700 MB target on a 100 s
    file (5 s sample, 128 kbps of audio) with the stub transcoder.  The
    estimates at 29, 23.5 and 26.25 are 601.5, 801.5 and 601.5 MB, outside
    the band; the estimate at 24.875 is 701.52587890625 MB, within it, and
    24.88 is returned. *)
Lemma accepted_estimate_is_returned_witness :
  exists evs,
    estimate_rf_value
      (a_world (Ret (Some (some_tracks (Some "100"%string) [])))
               (fun _ => exits 0 [] (Some 1000)) a_transcoder)
      (a_worker ["/in/a.mkv"%string] "700" "av_aac" (Some "128"%string) [[0]] true)
      "/in/a.mkv" 700%float ["128"%string] idle
    = (Ret (Some 24.88%float), idle, evs)
    /\ candidates evs = [29; 23.5; 26.25; 24.875]%float
    /\ estimates evs
       = [(29, 601.52587890625); (23.5, 801.52587890625);
          (26.25, 601.52587890625); (24.875, 701.52587890625)]%float.
Proof.
  apply (accepted_estimate_is_returned
           (a_world (Ret (Some (some_tracks (Some "100"%string) [])))
                    (fun _ => exits 0 [] (Some 1000)) a_transcoder)
           (a_worker ["/in/a.mkv"%string] "700" "av_aac" (Some "128"%string) [[0]] true)
           "/in/a.mkv"%string 700%float ["128"%string] idle
           100%float [] [] 1000 [128]%float
           a_transcoder_bytes (fun rf => nearest_of_Z (a_transcoder_bytes rf))
           [false; true; false]).
  - reflexivity.
  - reflexivity.
  - reflexivity.
  - reflexivity.
  - intros rf. exists []. unfold a_transcoder_bytes.
    cbv [a_world handbrake sample_command a_worker handbrake_cli temp_sample_path
         temp_encoded_path selected_encoder preset_file preset_name truthy andb
         encoder_given selected_audio_encoder audio_bitrate app a_transcoder nth_error
         exits destination_folder].
    destruct (rf <? 24)%float; [reflexivity |].
    destruct (26 <? rf)%float; reflexivity.
  - intros rf. unfold a_transcoder_bytes.
    destruct (rf <? 24)%float; [reflexivity |].
    destruct (26 <? rf)%float; reflexivity.
  - simpl. lia.
  - vm_compute. repeat split; reflexivity.
  - vm_compute. reflexivity.
  - vm_compute. reflexivity.
Defined.

(** ** The sample the estimator extracts *)

(** C6.  For every file whose duration [d] is known, the first process the
    estimator starts is the extractor, asked for a sample of [d * 0.05]
    seconds starting at [(d - d * 0.05) / 2], copied ([-c copy]) into
    [temp_sample.mkv] in the destination folder. *)
Theorem sample_is_the_middle_twentieth
    (env : environment) (self : worker) (file_path : string) (target : float)
    (audio : list string) (st : state) (d : float) (e0 : list event) :
  get_duration env file_path st = (Ret (Some d), st, e0) ->
  (forall c, ~ In (Launch c) e0)
  /\ exists r st' rest,
       estimate_rf_value env self file_path target audio st
       = (r, st',
          e0 ++ Signal (progress MsgExtractingSample)
             :: Launch [Str (ffmpeg_exe self); Str "-y";
                        Str "-ss"; StrFloat ((d - d * 0.05) / 2)%float;
                        Str "-i"; Str file_path;
                        Str "-t"; StrFloat (d * 0.05)%float;
                        Str "-c"; Str "copy";
                        Str (path_join (destination_folder self) "temp_sample.mkv")]
             :: rest).
Proof.
  intros Hd. split.
  - destruct (get_duration_total env file_path st) as (o & e0' & Hd' & _ & Hno).
    rewrite Hd in Hd'. inversion Hd'; subst. exact Hno.
  - destruct st as [pf ts te].
    unfold_estimate. rewrite Hd. cbv beta iota zeta.
    destruct ts, te; cbv beta iota zeta.
    all: repeat break_match; rewrite <- ?app_assoc; cbn [app ffmpeg_cmd temp_sample_path];
      do 3 eexists; reflexivity.
Qed.

(** A run of the theorem above: of a 100 s file, 5 s from 47.5 s on. *)
Lemma sample_is_the_middle_twentieth_witness :
  exists r st' rest,
    estimate_rf_value
      (a_world (Ret (Some (some_tracks (Some "100"%string) [])))
               (fun _ => exits 0 [] (Some 1000)) a_transcoder)
      (a_worker ["/in/a.mkv"%string] "700" "av_aac" (Some "128"%string) [[0]] true)
      "/in/a.mkv" 700%float ["128"%string] idle
    = (r, st',
       [Signal (progress MsgExtractingSample);
        Launch [Str "ffmpeg"; Str "-y"; Str "-ss"; StrFloat 47.5; Str "-i";
                Str "/in/a.mkv"; Str "-t"; StrFloat 5; Str "-c"; Str "copy";
                Str "/out/temp_sample.mkv"]] ++ rest).
Proof.
  exact (proj2 (sample_is_the_middle_twentieth
                  (a_world (Ret (Some (some_tracks (Some "100"%string) [])))
                           (fun _ => exits 0 [] (Some 1000)) a_transcoder)
                  (a_worker ["/in/a.mkv"%string] "700" "av_aac" (Some "128"%string)
                            [[0]] true)
                  "/in/a.mkv"%string 700%float ["128"%string] idle 100%float []
                  eq_refl)).
Defined.

(** ** Progress parsing *)












(** ** The audio bitrate in pass-through mode *)

(** The loop of [get_audio_bitrate] adds up, in kbps, the bitrates of the
    tracks that have one. *)
Lemma add_audio_bitrates_sum (tracks : list track) :
  forall (total : float) (bs : list float),
    rmap float_of_str
      (map (fun t => str_or_empty (track_BitRate t)) (filter has_bitrate tracks)) = Ret bs ->
    add_audio_bitrates tracks total
    = Ret (fold_left PrimFloat.add (map (fun b => b / 1000)%float bs) total).
Proof.
  induction tracks as [| t tracks IH]; intros total bs H; simpl in *.
  - inversion H; subst. reflexivity.
  - destruct (has_bitrate t); [| now apply IH].
    simpl in H. destruct (float_of_str (str_or_empty (track_BitRate t))) as [b | e];
      [| discriminate].
    simpl in *.
    destruct (rmap float_of_str _) as [bs' | e] eqn:E; [| discriminate].
    simpl in H. inversion H; subst. simpl. now apply IH.
Qed.

(** The tracks that add to the total are those that the two tests of
    [get_audio_bitrate] let through. *)
Lemma adds_to_total_spec (t : track) :
  adds_to_total t <-> is_audio t = true /\ has_bitrate t = true.
Proof.
  unfold adds_to_total, is_audio, has_bitrate, truthy, str_or_empty. split.
  - intros (Hty & b & Hb & Hne & Hna). rewrite Hty, Hb.
    apply String.eqb_neq in Hne, Hna. rewrite Hne, Hna. auto.
  - intros [Ha Hb].
    destruct (track_type t) as [ty |]; [| discriminate].
    apply String.eqb_eq in Ha. subst ty. split; [reflexivity |].
    destruct (track_BitRate t) as [b |]; [| discriminate].
    apply andb_true_iff in Hb. destruct Hb as [Hne Hna].
    apply negb_true_iff in Hne, Hna. apply String.eqb_neq in Hne, Hna.
    exists b. auto.
Qed.

Lemma audio_bitrates_of_filter (tracks : list track) (bitrates : list string) :
  audio_bitrates_of tracks bitrates ->
  map (fun t => str_or_empty (track_BitRate t))
      (filter has_bitrate (filter is_audio tracks)) = bitrates.
Proof.
  induction 1 as [| t b tracks bitrates Ht Hb _ IH | t tracks bitrates Ht _ IH];
    [reflexivity | |].
  - apply adds_to_total_spec in Ht. destruct Ht as [Ha Hh].
    cbn [filter]. rewrite Ha. cbn [filter]. rewrite Hh. cbn [map].
    rewrite Hb, IH. reflexivity.
  - cbn [filter]. destruct (is_audio t) eqn:Ha; [| exact IH].
    cbn [filter]. destruct (has_bitrate t) eqn:Hh; [| exact IH].
    elim Ht. apply adds_to_total_spec. auto.
Qed.

(** C10.  With the audio encoder [copy], the bitrate handed to the
    calculators is one value, [str] of the total that [get_audio_bitrate]
    returns, whatever the selected tracks of the file are, and the
    calculators read that very integer back from it.  That total is the
    integer part of the sum of [float(BitRate) / 1000] over the tracks of the
    inspector's answer whose [@type] is [Audio] and that have a [BitRate],
    in their order; a track of another type adds nothing whatever its
    [BitRate], and neither does an audio track whose [BitRate] is absent or
    is [N/A]. *)
Theorem pass_through_total_is_over_all_audio_tracks
    (env : environment) (self : worker) (idx : Z) (file_path file_name : string)
    (st : state) (tracks : list track) (bitrates : list string)
    (bs : list float) (total : Z) :
  selected_audio_encoder self = "copy"%string ->
  mediainfo env file_path = Ret (Some tracks) ->
  audio_bitrates_of tracks bitrates ->
  rmap float_of_str bitrates = Ret bs ->
  trunc (sum (map (fun b => b / 1000)%float bs)) = Some total ->
  get_audio_bitrate env file_path st = (Ret (Some total), st, [])
  /\ determine_audio_bitrate env self idx file_path file_name st
     = (Ret (Some [str_of_int total]), st, [])
  /\ rmap float_of_str [str_of_int total] = Ret [nearest_of_Z total]
  /\ (forall t, track_BitRate t = None \/ track_BitRate t = Some "N/A"%string ->
        ~ adds_to_total t)
  /\ (forall t, track_type t <> Some "Audio"%string -> ~ adds_to_total t).
Proof.
  intros Hcopy Hm Hof Hbs Htotal.
  apply audio_bitrates_of_filter in Hof. rewrite <- Hof in Hbs. clear Hof.
  assert (get_audio_bitrate env file_path st = (Ret (Some total), st, [])) as Hget.
  { unfold get_audio_bitrate, try_except, bind, lift, ret. rewrite Hm. cbn [fst snd app].
    rewrite (add_audio_bitrates_sum _ _ _ Hbs). cbn [fst snd app].
    unfold sum in Htotal. rewrite (int_of_float_trunc _ _ Htotal). reflexivity. }
  split; [exact Hget | split; [| split; [| split]]].
  - unfold determine_audio_bitrate. rewrite Hcopy.
    change (String.eqb "copy" "copy") with true. cbv iota.
    unfold bind at 1. rewrite Hget. reflexivity.
  - cbn [rmap]. rewrite float_of_str_str_of_int. reflexivity.
  - intros t [H | H] (_ & b & Hb & _ & Hna); rewrite H in Hb; [discriminate |].
    injection Hb as <-. apply Hna. reflexivity.
  - intros t Hty [H _]. contradiction.
Qed.

(** A run of the theorem above: next to a general, a video and a text
    track that have bitrates of their own, two audio tracks of 128000 and
    64500 bps, one of bitrate [N/A] and one without a bitrate total
    192 kbps, for a file of which only the second audio track is selected. *)
Lemma pass_through_total_is_over_all_audio_tracks_witness :
  let env := a_world (Ret (Some mixed_tracks))
                     (fun _ => Raise OSError) (fun _ => Raise OSError) in
  let self := a_worker ["/in/a.mkv"%string] "700" "copy" None [[1]] false in
  get_audio_bitrate env "/in/a.mkv" idle = (Ret (Some 192), idle, [])
  /\ determine_audio_bitrate env self 1 "/in/a.mkv" "a.mkv" idle
     = (Ret (Some ["192"%string]), idle, []).
Proof.
  intros env self.
  assert (audio_bitrates_of mixed_tracks ["128000"; "64500"]%string) as Hof.
  { unfold mixed_tracks.
    apply track_passed_over; [intros [H _]; discriminate |].
    apply track_passed_over; [intros [H _]; discriminate |].
    apply audio_track_with_bitrate;
      [split; [reflexivity |]; eexists; split; [reflexivity |];
       split; [discriminate | vm_compute; discriminate]
      | reflexivity |].
    apply track_passed_over;
      [intros (_ & b & Hb & _ & Hna); injection Hb as <-; apply Hna; reflexivity |].
    apply audio_track_with_bitrate;
      [split; [reflexivity |]; eexists; split; [reflexivity |];
       split; [discriminate | vm_compute; discriminate]
      | reflexivity |].
    apply track_passed_over; [intros (_ & b & Hb & _); discriminate |].
    apply track_passed_over; [intros [H _]; discriminate |].
    apply no_track. }
  destruct (pass_through_total_is_over_all_audio_tracks env self 1
              "/in/a.mkv" "a.mkv" idle mixed_tracks ["128000"; "64500"]%string
              [128000; 64500]%float 192 eq_refl eq_refl Hof eq_refl eq_refl)
    as (H1 & H2 & _).
  split; [exact H1 | exact H2].
Defined.

(** ** The batch loop *)




(** Parsing a line and reading the transcoder's output leave the state as
    it was. *)
Lemma parse_handbrake_output_state self line st r st' evs :
  parse_handbrake_output self line st = (r, st', evs) -> st' = st.
Proof.
  cbv beta iota zeta delta [parse_handbrake_output bind lift ret emit get fst snd].
  repeat break_match.
  all: intros H; inversion H; subst; reflexivity.
Qed.

Lemma read_output_state self lines :
  forall st r st' evs, read_output self lines st = (r, st', evs) -> st' = st.
Proof.
  induction lines as [| line lines IH]; intros st r st' evs H.
  - cbv [read_output ret] in H. now inversion H.
  - cbn [read_output should_display_line] in H.
    apply bind_inv in H. destruct H as [(a & s1 & e1 & e2 & H1 & H2 & _) | (e & H1 & _)].
    + apply IH in H2. subst st'.
      apply bind_inv in H1. destruct H1 as [(a' & s2 & e3 & e4 & H3 & H4 & _) | (e & H3 & _)].
      * cbv [emit] in H3. inversion H3; subst.
        now apply parse_handbrake_output_state in H4.
      * cbv [emit] in H3. inversion H3.
    + apply bind_inv in H1. destruct H1 as [(a' & s2 & e3 & e4 & H3 & H4 & _) | (e' & H3 & _)].
      * cbv [emit] in H3. inversion H3; subst.
        now apply parse_handbrake_output_state in H4.
      * cbv [emit] in H3. inversion H3.
Qed.


Ltac unfold_process_file :=
  cbv beta iota zeta delta [process_file determine_audio_bitrate encode_parameter
    run_handbrake report_skipped update_overall_progress set_processed_files
    try_except try_except_ValueError bind lift ret emit launch get put raise
    processed_files temp_sample_file temp_encoded_sample fst snd truthy str_or_empty negb].


(** ** The temporary files on the failing paths *)

(** C7, at the inputs where it fails.  When a sample encode exits non-zero
    the estimator returns [None] at once: the extracted sample stays in the
    destination folder, and so does whatever the failed encode wrote.  The
    same holds when the encode exits with 0 but leaves no file, and an
    extraction that fails after writing part of the sample leaves that part
    behind.  (On the paths that leave the loop by [break] or by exhaustion
    both files are deleted, as [estimate_rf_value_succeeds] shows.) *)
Lemma early_returns_leave_temporary_files :
  let self := a_worker ["/in/a.mkv"%string] "700" "av_aac" (Some "128"%string) [[0]] true in
  let inspector := Ret (Some (some_tracks (Some "100"%string) [])) in
  (exists evs,
      estimate_rf_value
        (a_world inspector (fun _ => exits 0 [] (Some 1000)) (fun _ => exits 3 [] (Some 512)))
        self "/in/a.mkv" 700%float ["128"%string] idle
      = (Ret None,
         {| processed_files := 0; temp_sample_file := true;
            temp_encoded_sample := Some 512 |}, evs))
  /\ (exists evs,
         estimate_rf_value
           (a_world inspector (fun _ => exits 0 [] (Some 1000)) (fun _ => exits 0 [] None))
           self "/in/a.mkv" 700%float ["128"%string] idle
         = (Ret None,
            {| processed_files := 0; temp_sample_file := true;
               temp_encoded_sample := None |}, evs))
  /\ (exists evs,
         estimate_rf_value
           (a_world inspector (fun _ => exits 1 [] (Some 10)) a_transcoder)
           self "/in/a.mkv" 700%float ["128"%string] idle
         = (Ret None,
            {| processed_files := 0; temp_sample_file := true;
               temp_encoded_sample := None |}, evs)).
Proof.
  intros self inspector. repeat split; eexists; vm_compute; reflexivity.
Qed.

(** X1.  On the paths that leave the loop, the temporary files are dealt with as
    the comments of the method say: a pass that falls through deletes the
    encoded sample and keeps the extracted one; what follows the loop
    deletes both; and an estimation in which the sample is extracted and
    every sample encode succeeds ends with neither file in place. *)
Theorem temporary_files_on_normal_exits :
  (forall env self d sd lo hi audio l u rf st l' u' r' st' evs,
      rf_iteration env self d sd lo hi audio l u rf st = (Ret (Next l' u' r'), st', evs) ->
      temp_encoded_sample st' = None /\ temp_sample_file st' = temp_sample_file st)
  /\ (forall rf st,
         temp_sample_file st = true ->
         clean_up_and_return rf st
         = (Ret (Some (round2 rf)),
            {| processed_files := processed_files st;
               temp_sample_file := false; temp_encoded_sample := None |}, []))
  /\ (forall env self file_path target audio st d e0 out0 b0 ratio fs,
         get_duration env file_path st = (Ret (Some d), st, e0) ->
         ffmpeg env (ffmpeg_cmd self file_path ((d - d * 0.05) / 2)%float (d * 0.05)%float)
           = Ret {| returncode := 0; stdout := out0; written := Some b0 |} ->
         (forall rf, exists out bytes size,
             handbrake env (sample_command self rf)
               = Ret {| returncode := 0; stdout := out; written := Some bytes |}
             /\ float_of_int bytes = Ret size) ->
         truediv d (d * 0.05)%float = Ret ratio ->
         rmap float_of_str audio = Ret fs ->
         exists v evs,
           estimate_rf_value env self file_path target audio st
           = (Ret (Some v),
              {| processed_files := processed_files st;
                 temp_sample_file := false; temp_encoded_sample := None |}, evs)).
Proof.
  split; [| split].
  - intros env self d sd lo hi audio l u rf st l' u' r' st' evs H.
    apply rf_iteration_step in H. destruct H as [_ H].
    destruct (H l' u' r' eq_refl) as (_ & _ & H1 & H2). auto.
  - intros rf [pf ts te] Hts. cbn in Hts. subst ts. destruct te; reflexivity.
  - intros. eapply estimate_rf_value_succeeds; eassumption.
Qed.

(** ** The duration of a file *)

Lemma find_general_spec (tracks : list track) (g : track) :
  find_general tracks = Ret g
  <-> exists pre post,
        tracks = pre ++ g :: post
        /\ Forall (fun t => exists ty, track_type t = Some ty /\ ty <> "General"%string) pre
        /\ track_type g = Some "General"%string.
Proof.
  split.
  - induction tracks as [| t rest IH]; simpl; [discriminate |].
    destruct (track_type t) as [ty |] eqn:Ety; [| discriminate].
    destruct (String.eqb ty "General") eqn:Eg.
    + intros H. inversion H; subst. apply String.eqb_eq in Eg. subst ty.
      exists [], rest. auto.
    + intros H. destruct (IH H) as (pre & post & -> & Hpre & Hg).
      exists (t :: pre), post. repeat split; auto.
      constructor; [| exact Hpre]. exists ty. split; [exact Ety |].
      now apply String.eqb_neq.
  - intros (pre & post & -> & Hpre & Hg).
    induction Hpre as [| t pre (ty & Ety & Hty) _ IH]; simpl.
    + rewrite Hg. reflexivity.
    + rewrite Ety. apply String.eqb_neq in Hty. rewrite Hty. exact IH.
Qed.

(** X3.  [get_duration] never raises, changes nothing and starts neither
    the extractor nor the transcoder.  It returns a duration exactly when the inspector answers with a
    track list in which every track before the first one of type [General]
    has a type, and that first [General] track has a [Duration] that [float]
    accepts: the duration returned is that number, whatever it is, and
    nothing is reported. *)
Theorem get_duration_reads_the_first_general_track
    (env : environment) (file_path : string) (st : state) :
  exists o evs,
    get_duration env file_path st = (Ret o, st, evs)
    /\ (forall c, ~ In (Launch c) evs)
    /\ (forall d,
          o = Some d
          <-> exists pre g post s,
                mediainfo env file_path = Ret (Some (pre ++ g :: post))
                /\ Forall (fun t => exists ty, track_type t = Some ty
                                               /\ ty <> "General"%string) pre
                /\ track_type g = Some "General"%string
                /\ track_Duration g = Some s
                /\ float_of_str s = Ret d)
    /\ (o <> None -> evs = []).
Proof.
  cbv beta iota zeta delta [get_duration try_except bind lift ret emit fst snd].
  destruct (mediainfo env file_path) as [[tracks |] | e] eqn:Em.
  2, 3: do 2 eexists; split; [reflexivity |]; split;
    [intros c Hin; cbn in Hin; intuition discriminate |]; split;
    [| intros H; now elim H];
    intros d; split; [discriminate | intros (pre & g & post & s & H & _); discriminate].
  destruct (find_general tracks) as [g | e] eqn:Eg.
  - pose proof (proj1 (find_general_spec tracks g) Eg) as (pre & post & -> & Hpre & Hg).
    destruct (track_Duration g) as [s |] eqn:Es.
    + destruct (float_of_str s) as [d | e] eqn:Ed.
      * do 2 eexists; split; [reflexivity |]; split; [intros c []|]; split; [| reflexivity].
        intros d'. split.
        -- intros H. inversion H; subst d'. exists pre, g, post, s. auto.
        -- intros (pre' & g' & post' & s' & H & Hpre' & Hg' & Hs' & Hd').
           inversion H as [Heq].
           assert (find_general (pre' ++ g' :: post') = Ret g') as E'
             by (apply find_general_spec; eauto).
           rewrite <- Heq, Eg in E'. inversion E'; subst g'.
           rewrite Es in Hs'. inversion Hs'; subst s'. rewrite Ed in Hd'.
           now inversion Hd'.
      * do 2 eexists; split; [reflexivity |]; split;
          [intros c Hin; cbn in Hin; intuition discriminate |]; split;
          [| intros H; now elim H].
        intros d'. split; [discriminate |].
        intros (pre' & g' & post' & s' & H & Hpre' & Hg' & Hs' & Hd').
        inversion H as [Heq].
        assert (find_general (pre' ++ g' :: post') = Ret g') as E'
          by (apply find_general_spec; eauto).
        rewrite <- Heq, Eg in E'. inversion E'; subst g'.
        rewrite Es in Hs'. inversion Hs'; subst s'. rewrite Ed in Hd'. discriminate.
    + do 2 eexists; split; [reflexivity |]; split;
        [intros c Hin; cbn in Hin; intuition discriminate |]; split;
        [| intros H; now elim H].
      intros d'. split; [discriminate |].
      intros (pre' & g' & post' & s' & H & Hpre' & Hg' & Hs' & Hd').
      inversion H as [Heq].
      assert (find_general (pre' ++ g' :: post') = Ret g') as E'
        by (apply find_general_spec; eauto).
      rewrite <- Heq, Eg in E'. inversion E'; subst g'.
      rewrite Es in Hs'. discriminate.
  - do 2 eexists; split; [reflexivity |]; split;
      [intros c Hin; cbn in Hin; intuition discriminate |]; split;
      [| intros H; now elim H].
    intros d'. split; [discriminate |].
    intros (pre' & g' & post' & s' & H & Hpre' & Hg' & Hs' & Hd').
    inversion H as [Heq].
    assert (find_general (pre' ++ g' :: post') = Ret g') as E'
      by (apply find_general_spec; eauto).
    rewrite <- Heq, Eg in E'. discriminate.
Qed.

(** ** The counter of processed files *)

Lemma counted_app (a b : list event) : counted (a ++ b) = counted a + counted b.
Proof.
  unfold counted. rewrite filter_app, length_app. lia.
Qed.

Lemma counted_inert (evs : list event) :
  existsb after_transcode evs = false -> counted evs = 0.
Proof.
  unfold counted. induction evs as [| e evs IH]; simpl; [reflexivity |].
  intros H. apply orb_false_elim in H. destruct H as [He Hevs].
  unfold after_transcode in He. apply orb_false_elim in He. destruct He as [He _].
  rewrite He. now apply IH.
Qed.

Lemma inert_ret {A : Type} (a : A) : inert (ret a).
Proof. intros st r st' evs H. inversion H; subst. auto. Qed.

Lemma inert_lift {A : Type} (x : res A) : inert (lift x).
Proof. intros st r st' evs H. inversion H; subst. auto. Qed.

Lemma inert_raise {A : Type} (e : exn) : inert (@raise A e).
Proof. intros st r st' evs H. inversion H; subst. auto. Qed.

Lemma inert_get : inert get.
Proof. intros st r st' evs H. inversion H; subst. auto. Qed.

Lemma inert_launch (c : list arg) : inert (launch c).
Proof. intros st r st' evs H. inversion H; subst. auto. Qed.

Lemma inert_emit (x : signal) :
  after_transcode (Signal x) = false -> inert (emit x).
Proof.
  intros Hx st r st' evs H. inversion H; subst. simpl. rewrite Hx. auto.
Qed.

Lemma inert_bind {A B : Type} (m : M A) (k : A -> M B) :
  inert m -> (forall a, inert (k a)) -> inert (bind m k).
Proof.
  intros Hm Hk st r st' evs H. apply bind_inv in H.
  destruct H as [(a & s1 & e1 & e2 & H1 & H2 & ->) | (e & H1 & _)].
  - apply Hm in H1. apply Hk in H2. destruct H1 as [Ha H1], H2 as [Hb H2].
    rewrite existsb_app, H1, H2. split; [congruence | reflexivity].
  - now apply Hm in H1.
Qed.

Lemma inert_try_except {A : Type} (m : M A) (h : exn -> M A) :
  inert m -> (forall e, inert (h e)) -> inert (try_except m h).
Proof.
  intros Hm Hh st r st' evs. unfold try_except.
  destruct (m st) as [[[a | e] s1] e1] eqn:E1.
  - intros H. inversion H; subst. now apply Hm in E1.
  - destruct (h e s1) as [[r2 s2] e2] eqn:E2. intros H. inversion H; subst.
    apply Hm in E1. apply Hh in E2. destruct E1 as [Ha E1], E2 as [Hb E2].
    rewrite existsb_app, E1, E2. split; [congruence | reflexivity].
Qed.

Lemma inert_try_except_ValueError {A : Type} (m h : M A) :
  inert m -> inert h -> inert (try_except_ValueError m h).
Proof.
  intros Hm Hh st r st' evs. unfold try_except_ValueError.
  destruct (m st) as [[[a | e] s1] e1] eqn:E1.
  - intros H. inversion H; subst. now apply Hm in E1.
  - destruct e.
    1: { destruct (h s1) as [[r2 s2] e2] eqn:E2. intros H. inversion H; subst.
         apply Hm in E1. apply Hh in E2. destruct E1 as [Ha E1], E2 as [Hb E2].
         rewrite existsb_app, E1, E2. split; [congruence | reflexivity]. }
    all: intros H; inversion H; subst; now apply Hm in E1.
Qed.

Ltac inert_step :=
  lazymatch goal with
  | |- inert (bind _ _) => apply inert_bind; [| intros ?]
  | |- inert (ret _) => apply inert_ret
  | |- inert (lift _) => apply inert_lift
  | |- inert (raise _) => apply inert_raise
  | |- inert get => apply inert_get
  | |- inert (launch _) => apply inert_launch
  | |- inert (emit _) => apply inert_emit; reflexivity
  | |- inert (try_except _ _) => apply inert_try_except; [| intros ?]
  | |- inert (try_except_ValueError _ _) => apply inert_try_except_ValueError
  | |- inert (match ?x with _ => _ end) => destruct x
  | |- inert (let _ := _ in _) => cbv zeta
  end.

Ltac inert_by_cases :=
  let H := fresh "H" in
  intros [pf ts te] r st' evs;
  cbv beta iota zeta delta [bind lift ret emit launch get put raise
    processed_files temp_sample_file temp_encoded_sample fst snd negb];
  repeat break_match; intros H; inversion H; subst; clear H; auto.

Lemma inert_exists_temp_sample : inert exists_temp_sample.
Proof. unfold exists_temp_sample. inert_by_cases. Qed.

Lemma inert_exists_temp_encoded : inert exists_temp_encoded.
Proof. unfold exists_temp_encoded. inert_by_cases. Qed.

Lemma inert_remove_temp_sample : inert remove_temp_sample.
Proof. unfold remove_temp_sample. inert_by_cases. Qed.

Lemma inert_remove_temp_encoded : inert remove_temp_encoded.
Proof. unfold remove_temp_encoded. inert_by_cases. Qed.

Lemma inert_getsize_temp_encoded : inert getsize_temp_encoded.
Proof. unfold getsize_temp_encoded. inert_by_cases. Qed.

Lemma inert_run_ffmpeg env cmd : inert (run_ffmpeg env cmd).
Proof. unfold run_ffmpeg. inert_by_cases. Qed.

Lemma inert_run_handbrake_sample env cmd : inert (run_handbrake_sample env cmd).
Proof. unfold run_handbrake_sample. inert_by_cases. Qed.

Create HintDb inert.
#[local] Hint Resolve inert_exists_temp_sample inert_exists_temp_encoded
  inert_remove_temp_sample inert_remove_temp_encoded inert_getsize_temp_encoded
  inert_run_ffmpeg inert_run_handbrake_sample : inert.

Ltac inert_tac := repeat first [inert_step | solve [auto with inert]].

Lemma inert_get_duration env file_path : inert (get_duration env file_path).
Proof. unfold get_duration. inert_tac. Qed.

Lemma inert_get_audio_bitrate env file_path : inert (get_audio_bitrate env file_path).
Proof. unfold get_audio_bitrate. inert_tac. Qed.

Lemma inert_calculate_video_bitrate self duration arg audio :
  inert (calculate_video_bitrate self duration arg audio).
Proof. unfold calculate_video_bitrate. inert_tac. Qed.

Lemma inert_update_overall_progress self processed current :
  inert (update_overall_progress self processed current).
Proof. unfold update_overall_progress. inert_tac. Qed.

Lemma inert_report_skipped self : inert (report_skipped self).
Proof. unfold report_skipped. inert_tac. apply inert_update_overall_progress. Qed.

Lemma inert_parse_handbrake_output self line : inert (parse_handbrake_output self line).
Proof. unfold parse_handbrake_output. inert_tac. Qed.

Lemma inert_read_output self lines : inert (read_output self lines).
Proof.
  induction lines as [| line lines IH]; cbn [read_output should_display_line].
  - apply inert_ret.
  - inert_tac; first [apply inert_parse_handbrake_output | exact IH].
Qed.

Lemma inert_rf_iteration env self d sd lo hi audio l u rf :
  inert (rf_iteration env self d sd lo hi audio l u rf).
Proof. unfold rf_iteration. inert_tac. Qed.

Lemma inert_rf_loop env self d sd lo hi audio (n : nat) :
  forall l u rf, inert (rf_loop env self n d sd lo hi audio l u rf).
Proof.
  induction n as [| n IH]; intros l u rf; cbn [rf_loop].
  - apply inert_ret.
  - inert_tac; first [apply inert_rf_iteration | apply IH].
Qed.

Lemma inert_clean_up_and_return rf : inert (clean_up_and_return rf).
Proof. unfold clean_up_and_return. inert_tac. Qed.

Lemma inert_estimate_rf_value env self file_path target audio :
  inert (estimate_rf_value env self file_path target audio).
Proof.
  unfold estimate_rf_value. inert_tac.
  all: first [apply inert_get_duration | apply inert_rf_loop
             | apply inert_clean_up_and_return].
Qed.

Lemma inert_determine_audio_bitrate env self idx file_path file_name :
  inert (determine_audio_bitrate env self idx file_path file_name).
Proof.
  unfold determine_audio_bitrate. inert_tac.
  all: first [apply inert_get_audio_bitrate | apply inert_report_skipped].
Qed.

Lemma inert_encode_parameter env self file_path file_name duration audio :
  inert (encode_parameter env self file_path file_name duration audio).
Proof.
  unfold encode_parameter. inert_tac.
  all: first [apply inert_calculate_video_bitrate | apply inert_report_skipped
             | apply inert_estimate_rf_value].
Qed.

Lemma inert_no_deletion (evs : list event) (p m : string) :
  existsb after_transcode evs = false -> ~ In (Signal (delete_file_signal p m)) evs.
Proof.
  intros H Hin.
  assert (existsb after_transcode evs = true) as H'
    by (apply existsb_exists; eexists; split; [exact Hin | reflexivity]).
  congruence.
Qed.


(** Once the transcoder is started on a file, the file is counted, exactly
    one outcome is reported for it, and the deletion of the source is
    requested only if the transcoder ran and exited with code 0. *)
Lemma run_handbrake_tally env self file_path file_name command st r st' evs :
  run_handbrake env self file_path file_name command st = (r, st', evs) ->
  processed_files st' = processed_files st + 1
  /\ counted evs = 1
  /\ In (Launch command) evs
  /\ forall p m,
       In (Signal (delete_file_signal p m)) evs ->
       p = file_path /\ m = delete_source_files self
       /\ In (Signal (progress (MsgCompleted file_name))) evs
       /\ exists result, handbrake env command = Ret result /\ returncode result = 0.
Proof.
  destruct st as [pf ts te].
  cbv beta iota zeta delta [run_handbrake update_overall_progress set_processed_files
    try_except bind lift ret emit launch get put
    processed_files temp_sample_file temp_encoded_sample fst snd negb].
  change (int_truediv 0 100) with (Ret 0%float). cbv beta iota zeta.
  destruct (handbrake env command) as [result | e] eqn:Ehb; cbv beta iota zeta.
  - destruct (read_output self (stdout result) _) as [[ro st1] ev] eqn:Hout.
    pose proof (inert_read_output _ _ _ _ _ _ Hout) as [_ Hev].
    pose proof (counted_inert _ Hev) as Hc.
    apply read_output_state in Hout. subst st1.
    destruct ro as [[] | e]; cbv beta iota zeta.
    + destruct (returncode result =? 0) eqn:Erc; cbv beta iota zeta;
        destruct (overall_percent self (pf + 1) 0) as [o | e]; cbv beta iota zeta;
        intros H; inversion H; subst; clear H; cbn [processed_files].
      all: split; [reflexivity |]; split;
        [cbn [app]; change (Launch command :: ?l) with ([Launch command] ++ l);
         rewrite !counted_app, Hc; reflexivity |]; split; [left; reflexivity |].
      all: intros p m [Hin | Hin]; [discriminate |].
      all: rewrite <- ?app_assoc in Hin; apply in_app_or in Hin;
        destruct Hin as [Hin | Hin]; [now apply inert_no_deletion in Hin |].
      all: cbn in Hin; repeat (destruct Hin as [Hin | Hin]; try discriminate);
        try contradiction.
      all: inversion Hin; subst; split; [reflexivity |]; split; [reflexivity |];
        apply Z.eqb_eq in Erc; split; [| eauto].
      all: right; rewrite <- ?app_assoc; apply in_or_app; right; cbn; auto.
    + destruct (overall_percent self (pf + 1) 0) as [o | e']; cbv beta iota zeta;
        intros H; inversion H; subst; clear H; cbn [processed_files].
      all: split; [reflexivity |]; split;
        [cbn [app]; change (Launch command :: ?l) with ([Launch command] ++ l);
         rewrite !counted_app, Hc; reflexivity |]; split; [left; reflexivity |].
      all: intros p m [Hin | Hin]; [discriminate |].
      all: rewrite <- ?app_assoc in Hin; apply in_app_or in Hin;
        destruct Hin as [Hin | Hin]; [now apply inert_no_deletion in Hin |].
      all: cbn in Hin; repeat (destruct Hin as [Hin | Hin]; try discriminate);
        contradiction.
  - destruct (overall_percent self (pf + 1) 0) as [o | e']; cbv beta iota zeta;
      intros H; inversion H; subst; clear H; cbn [processed_files].
    all: split; [reflexivity |]; split; [reflexivity |]; split; [left; reflexivity |].
    all: intros p m Hin; cbn in Hin;
      repeat (destruct Hin as [Hin | Hin]; try discriminate); contradiction.
Qed.

Lemma accounts_inert {A : Type} env self files (m : M A) :
  inert m -> accounts env self files m.
Proof.
  intros Hm st r st' evs H. apply Hm in H. destruct H as [Hpf Hev].
  rewrite (counted_inert _ Hev). split; [lia |]. split; [lia |].
  intros p mode Hin. now apply (inert_no_deletion _ _ _ Hev) in Hin.
Qed.

Lemma accounts_seq {A B : Type} env self f1 f2 (m : M A) (k : A -> M B) :
  accounts env self f1 m -> (forall a, accounts env self f2 (k a)) ->
  accounts env self (f1 ++ f2) (bind m k).
Proof.
  intros Hm Hk st r st' evs H. apply bind_inv in H.
  destruct H as [(a & s1 & e1 & e2 & H1 & H2 & ->) | (e & H1 & _)].
  - apply Hm in H1. apply Hk in H2.
    destruct H1 as (Ha & Hb & Hc), H2 as (Ha' & Hb' & Hc').
    rewrite counted_app, length_app. split; [lia |]. split; [lia |].
    intros p mode Hin. apply in_app_or in Hin. destruct Hin as [Hin | Hin].
    + destruct (Hc p mode Hin) as (H1 & H2 & H3 & c & res & H4 & H5 & H6).
      split; [apply in_or_app; auto |]. split; [exact H2 |].
      split; [apply in_or_app; auto |].
      exists c, res. split; [apply in_or_app; auto | auto].
    + destruct (Hc' p mode Hin) as (H1 & H2 & H3 & c & res & H4 & H5 & H6).
      split; [apply in_or_app; auto |]. split; [exact H2 |].
      split; [apply in_or_app; auto |].
      exists c, res. split; [apply in_or_app; auto | auto].
  - apply Hm in H1. destruct H1 as (Ha & Hb & Hc).
    rewrite length_app. split; [lia |]. split; [lia |].
    intros p mode Hin.
    destruct (Hc p mode Hin) as (H1 & H2 & H3 & c & res & H4 & H5 & H6).
    split; [apply in_or_app; auto |]. eauto 10.
Qed.

Lemma accounts_after_inert {A B : Type} env self files (m : M A) (k : A -> M B) :
  inert m -> (forall a, accounts env self files (k a)) ->
  accounts env self files (bind m k).
Proof.
  intros Hm Hk.
  apply (accounts_seq env self [] files); [now apply accounts_inert | exact Hk].
Qed.

Lemma accounts_run_handbrake env self file_path command :
  accounts env self [file_path]
    (run_handbrake env self file_path (basename file_path) command).
Proof.
  intros st r st' evs H. apply run_handbrake_tally in H.
  destruct H as (Ha & Hb & Hc & Hd). rewrite Hb. split; [exact Ha |].
  split; [simpl; lia |].
  intros p mode Hin. destruct (Hd p mode Hin) as (-> & -> & H3 & res & H4 & H5).
  split; [left; reflexivity |]. eauto 10.
Qed.

(** The loop body accounts for its file. *)
Lemma accounts_process_file env self idx file_path :
  accounts env self [file_path] (process_file env self idx file_path).
Proof.
  unfold process_file.
  repeat (apply accounts_after_inert; [solve [inert_tac] | intros ?]).
  apply accounts_after_inert; [apply inert_get_duration | intros [duration |]].
  2: { apply accounts_inert. inert_tac. apply inert_report_skipped. }
  apply accounts_after_inert; [apply inert_determine_audio_bitrate | intros [selected |]].
  2: { apply accounts_inert. apply inert_ret. }
  apply accounts_after_inert; [apply inert_encode_parameter | intros [p |]].
  2: { apply accounts_inert. apply inert_ret. }
  apply accounts_after_inert; [apply inert_lift | intros selected_tracks].
  apply accounts_after_inert; [inert_tac | intros _].
  apply accounts_run_handbrake.
Qed.

Lemma accounts_run_files env self (files : list string) :
  forall idx, accounts env self files (run_files env self idx files).
Proof.
  induction files as [| f files IH]; intros idx; cbn [run_files].
  - apply accounts_inert, inert_ret.
  - apply (accounts_seq env self [f] files); [apply accounts_process_file |].
    intros _. apply IH.
Qed.

Lemma accounts_run env self st r st' evs :
  run env self st = (r, st', evs) ->
  processed_files st' = counted evs
  /\ 0 <= counted evs <= total_files self
  /\ forall p mode,
       In (Signal (delete_file_signal p mode)) evs ->
       In p (media_files self)
       /\ mode = delete_source_files self
       /\ In (Signal (progress (MsgCompleted (basename p)))) evs
       /\ exists command result,
            In (Launch command) evs
            /\ handbrake env command = Ret result
            /\ returncode result = 0.
Proof.
  unfold run. intros H.
  apply bind_inv in H. destruct H as [(a & s1 & e1 & e2 & H1 & H2 & ->) | (e & H1 & _)];
    [| inversion H1].
  cbv [emit] in H1. inversion H1; subst a s1 e1. clear H1.
  apply bind_inv in H2. destruct H2 as [(a & s1 & e1 & e3 & H1 & H2 & ->) | (e & H1 & _)];
    [| destruct st; inversion H1].
  destruct st as [pf ts te]. cbv [set_processed_files bind get put] in H1.
  inversion H1; subst a s1 e1. clear H1.
  assert (accounts env self (media_files self)
            (run_files env self 1 (media_files self) ;;
             emit (overall_progress 100) ;; emit finished)) as Hacc.
  { replace (media_files self) with (media_files self ++ []) at 1 by apply app_nil_r.
    apply accounts_seq; [apply accounts_run_files |].
    intros _. apply accounts_inert. inert_tac. }
  apply Hacc in H2. cbn [processed_files] in H2. destruct H2 as (Ha & Hb & Hc).
  cbn [app]. change (Signal (progress MsgStarting) :: e3)
    with ([Signal (progress MsgStarting)] ++ e3).
  rewrite counted_app. change (counted [Signal (progress MsgStarting)]) with 0.
  split; [lia |]. split; [exact Hb |].
  intros p mode Hin. apply in_app_or in Hin. destruct Hin as [Hin | Hin].
  - cbn in Hin. destruct Hin as [Hin | []]. discriminate.
  - destruct (Hc p mode Hin) as (H1 & H2' & H3 & c & res & H4 & H5 & H6).
    split; [exact H1 |]. split; [exact H2' |]. split; [apply in_or_app; auto |].
    exists c, res. split; [apply in_or_app; auto | auto].
Qed.

(** X4.  The counter of processed files counts the files the transcoder
    was run on, not the files of the batch taken up: at the end of a run,
    however it ends, the counter equals the number of outcome reports
    ([Completed], [HandBrakeCLI exited with an error], [Error encoding]), and
    it is at most the number of files. *)
Theorem processed_files_counts_the_transcodes
    (env : environment) (self : worker) (st : state)
    (r : res unit) (st' : state) (evs : list event) :
  run env self st = (r, st', evs) ->
  processed_files st' = counted evs
  /\ 0 <= processed_files st' <= total_files self.
Proof.
  intros H. apply accounts_run in H. destruct H as (Ha & Hb & _).
  rewrite Ha. auto.
Qed.

(** X5.  The deletion of a source file is requested only for a file of
    the batch that is reported completed, with the mode the worker was given,
    and only after a transcoder process that the run started has exited with
    code 0. *)
Theorem source_is_deleted_only_after_a_successful_transcode
    (env : environment) (self : worker) (st : state)
    (r : res unit) (st' : state) (evs : list event) (p mode : string) :
  run env self st = (r, st', evs) ->
  In (Signal (delete_file_signal p mode)) evs ->
  In p (media_files self)
  /\ mode = delete_source_files self
  /\ In (Signal (progress (MsgCompleted (basename p)))) evs
  /\ exists command result,
       In (Launch command) evs
       /\ handbrake env command = Ret result
       /\ returncode result = 0.
Proof.
  intros H. apply accounts_run in H. destruct H as (_ & _ & Hc). apply Hc.
Qed.

(** A run of the theorem above: of three files the second is given up for
    a mismatch; the counter ends at 2, the number of files completed. *)
Lemma processed_files_counts_the_transcodes_witness :
  (processed_files (snd (fst (run two_track_world three_files idle)))
   = counted (snd (run two_track_world three_files idle))
   /\ 0 <= processed_files (snd (fst (run two_track_world three_files idle)))
        <= total_files three_files)
  /\ processed_files (snd (fst (run two_track_world three_files idle))) = 2
  /\ total_files three_files = 3.
Proof.
  split; [| split; vm_compute; reflexivity].
  apply (processed_files_counts_the_transcodes two_track_world three_files idle
           (fst (fst (run two_track_world three_files idle)))).
  destruct (run two_track_world three_files idle) as [[r st'] evs]. reflexivity.
Defined.

(** A run of the theorem above: the deletion of the first file of the
    batch is requested, after its transcode. *)
Lemma source_is_deleted_only_after_a_successful_transcode_witness :
  In "/in/a.mkv"%string (media_files three_files)
  /\ "Never"%string = delete_source_files three_files
  /\ In (Signal (progress (MsgCompleted (basename "/in/a.mkv"))))
        (snd (run two_track_world three_files idle))
  /\ exists command result,
       In (Launch command) (snd (run two_track_world three_files idle))
       /\ handbrake two_track_world command = Ret result
       /\ returncode result = 0.
Proof.
  apply (source_is_deleted_only_after_a_successful_transcode
           two_track_world three_files idle
           (fst (fst (run two_track_world three_files idle)))
           (snd (fst (run two_track_world three_files idle)))).
  - destruct (run two_track_world three_files idle) as [[r st'] evs]. reflexivity.
  - vm_compute. repeat (first [left; reflexivity | right]).
Defined.

(** ** Where the output is written *)

Lemma list_ascii_of_string_app (a b : string) :
  list_ascii_of_string (a ++ b) = list_ascii_of_string a ++ list_ascii_of_string b.
Proof. induction a as [| c a IH]; simpl; [reflexivity | now rewrite IH]. Qed.

Lemma basename_chars_plain (name cur : list ascii) :
  ~ In "/"%char name -> basename_chars name cur = rev cur ++ name.
Proof.
  revert cur. induction name as [| c name IH]; intros cur Hno; simpl.
  - now rewrite app_nil_r.
  - destruct (Ascii.eqb c "/") eqn:E.
    + apply Ascii.eqb_eq in E. subst c. elim Hno. left. reflexivity.
    + rewrite IH by (intros Hin; apply Hno; right; exact Hin).
      simpl. now rewrite <- app_assoc.
Qed.

Lemma basename_chars_after_slash (l name cur : list ascii) :
  ~ In "/"%char name -> basename_chars (l ++ "/"%char :: name) cur = name.
Proof.
  intros Hno. revert cur. induction l as [| c l IH]; intros cur; simpl.
  - now rewrite basename_chars_plain.
  - destruct (Ascii.eqb c "/"); apply IH.
Qed.

(** The name of a file joined to a folder is found again by [basename]. *)
Lemma basename_path_join (folder name : string) :
  ~ In "/"%char (list_ascii_of_string name) ->
  basename (path_join folder name) = name.
Proof.
  intros Hno. unfold basename, path_join.
  destruct (rev (list_ascii_of_string folder)) as [| c r] eqn:Er.
  - rewrite basename_chars_plain by exact Hno. simpl.
    apply string_of_list_ascii_of_string.
  - assert (list_ascii_of_string folder = rev r ++ [c]) as Ef.
    { rewrite <- (rev_involutive (list_ascii_of_string folder)), Er. reflexivity. }
    destruct (Ascii.eqb c "/") eqn:Ec.
    + apply Ascii.eqb_eq in Ec. subst c.
      rewrite list_ascii_of_string_app, Ef, <- app_assoc. simpl.
      rewrite basename_chars_after_slash by exact Hno.
      apply string_of_list_ascii_of_string.
    + rewrite !list_ascii_of_string_app. simpl.
      rewrite basename_chars_after_slash by exact Hno.
      apply string_of_list_ascii_of_string.
Qed.

(** X6.  The output of a file is written directly into the destination
    folder under the file's own name, whatever folder the file comes from:
    two files of the same name from different folders have the same output
    path, and for a file that lies in the destination folder the output path
    is the input path, so that the transcoder is given the same path after
    [-i] and after [-o]. *)
Theorem output_path_is_destination_folder_and_name
    (self : worker) (folder name : string) :
  ~ In "/"%char (list_ascii_of_string name) ->
  get_output_file_path self (path_join folder name)
  = path_join (destination_folder self) name
  /\ (forall other : string,
        get_output_file_path self (path_join other name)
        = get_output_file_path self (path_join folder name))
  /\ (folder = destination_folder self ->
      forall (p : parameter) (selected_tracks : list Z),
      exists rest,
        handbrake_command self (path_join folder name) p selected_tracks
        = Str (handbrake_cli self)
          :: Str "-i" :: Str (path_join folder name)
          :: Str "-o" :: Str (path_join folder name) :: rest).
Proof.
  intros Hno. unfold get_output_file_path.
  split; [now rewrite basename_path_join |]. split.
  - intros other. now rewrite !basename_path_join.
  - intros -> p sel. unfold handbrake_command, get_output_file_path.
    rewrite basename_path_join by exact Hno. eexists. reflexivity.
Qed.

(** A run of the theorem above: [/out/a.mkv], encoded into [/out]. *)
Lemma output_path_is_destination_folder_and_name_witness :
  get_output_file_path three_files (path_join "/out" "a.mkv") = "/out/a.mkv"%string
  /\ get_output_file_path three_files "/in/a.mkv" = "/out/a.mkv"%string.
Proof.
  destruct (output_path_is_destination_folder_and_name three_files "/out" "a.mkv")
    as (H1 & H2 & _).
  - vm_compute. intuition discriminate.
  - split; [exact H1 |]. exact (H2 "/in"%string).
Defined.

(** ** The bitrate values of the selected tracks *)

Lemma getitem_in_range {A : Type} (l : list A) (i : Z) (d : A) :
  0 <= i < Z.of_nat (List.length l) ->
  getitem l i = Ret (nth (Z.to_nat i) l d).
Proof.
  intros Hi. unfold getitem.
  destruct (i <? 0) eqn:E0; [apply Z.ltb_lt in E0; lia |].
  destruct (0 <=? i) eqn:E1; [| apply Z.leb_gt in E1; lia].
  destruct (i <? Z.of_nat (List.length l)) eqn:E2; [| apply Z.ltb_ge in E2; lia].
  simpl. rewrite (nth_error_nth' l d) by lia. reflexivity.
Qed.

Lemma filter_keeps_all {A : Type} (f : A -> bool) (l : list A) :
  List.length (filter f l) = List.length l <-> Forall (fun x => f x = true) l.
Proof.
  induction l as [| x l IH]; simpl.
  - split; auto.
  - destruct (f x) eqn:E; simpl.
    + split.
      * intros H. constructor; [exact E |]. apply IH. lia.
      * intros H. inversion H; subst. f_equal. now apply IH.
    + split.
      * intros H. pose proof (filter_length_le f l). lia.
      * intros H. inversion H; subst. congruence.
Qed.

Lemma select_bitrates_value (bitrate_values : list string) (selected_tracks : list Z) :
  Forall (fun i => 0 <= i) selected_tracks ->
  select_bitrates bitrate_values selected_tracks
  = Ret (map (fun i => nth (Z.to_nat i) bitrate_values ""%string)
             (filter (fun i => i <? Z.of_nat (List.length bitrate_values)) selected_tracks)).
Proof.
  induction 1 as [| i rest Hi _ IH]; simpl; [reflexivity |].
  destruct (i <? Z.of_nat (List.length bitrate_values)) eqn:E.
  - apply Z.ltb_lt in E.
    rewrite (getitem_in_range bitrate_values i ""%string) by lia.
    simpl. rewrite IH. reflexivity.
  - exact IH.
Qed.

(** X7.  Of the selected track indices (none negative, as the selection
    dialog produces them) the worker keeps those below the number of bitrate
    values, in order, each with the bitrate value at its index; so the values
    kept are as many as the selected tracks, which is what the worker tests
    before it goes on to the calculators, exactly when every selected index
    is below the number of bitrate values. *)
Theorem select_bitrates_keeps_the_indices_in_range
    (bitrate_values : list string) (selected_tracks : list Z) :
  Forall (fun i => 0 <= i) selected_tracks ->
  exists selected_bitrate_values,
    select_bitrates bitrate_values selected_tracks = Ret selected_bitrate_values
    /\ selected_bitrate_values
       = map (fun i => nth (Z.to_nat i) bitrate_values ""%string)
             (filter (fun i => i <? Z.of_nat (List.length bitrate_values)) selected_tracks)
    /\ (List.length selected_bitrate_values = List.length selected_tracks
        <-> Forall (fun i => i < Z.of_nat (List.length bitrate_values)) selected_tracks).
Proof.
  intros Hnn. eexists. split; [| split; [reflexivity |]].
  - now apply select_bitrates_value.
  - rewrite length_map, filter_keeps_all. split; intros H.
    + eapply Forall_impl; [| exact H]. intros i Hi. now apply Z.ltb_lt.
    + eapply Forall_impl; [| exact H]. intros i Hi. now apply Z.ltb_lt.
Qed.

(** A run of the theorem above: with two bitrate values, the selection of
    the first and the third track keeps one value for two tracks. *)
Lemma select_bitrates_keeps_the_indices_in_range_witness :
  exists selected_bitrate_values,
    select_bitrates ["128"; "64"]%string [0; 2] = Ret selected_bitrate_values
    /\ selected_bitrate_values = ["128"%string]
    /\ (List.length selected_bitrate_values = List.length [0; 2]
        <-> Forall (fun i => i < 2) [0; 2]).
Proof.
  apply (select_bitrates_keeps_the_indices_in_range ["128"; "64"]%string [0; 2]).
  repeat constructor; lia.
Defined.

(** ** A batch without audio bitrate values *)

(** With an audio encoder other than [copy] and no audio bitrate, the loop
    body gives every file up before any process is started. *)
Lemma process_file_without_audio_bitrate env self idx file_path st r st' evs :
  String.eqb (selected_audio_encoder self) "copy" = false ->
  truthy (audio_bitrate self) = false ->
  process_file env self idx file_path st = (r, st', evs) ->
  st' = st
  /\ (forall c, ~ In (Launch c) evs)
  /\ (In (Signal (progress (MsgNoAudioBitrateSpecified (basename file_path)))) evs
      \/ In (Signal (progress (MsgErrorGettingDuration (basename file_path)))) evs).
Proof.
  intros Hcopy Hab. destruct st as [pf ts te].
  cbv beta iota zeta delta [truthy negb] in Hab.
  destruct (get_duration_total env file_path
              {| processed_files := pf; temp_sample_file := ts;
                 temp_encoded_sample := te |}) as (o & e0 & Hd & _ & Hl).
  unfold process_file. destruct (per_file_output_only self).
  all: unfold_process_file; rewrite Hd; cbv beta iota zeta.
  all: destruct o as [d |]; cbv beta iota zeta; rewrite ?Hcopy; cbv beta iota zeta;
    rewrite ?Hab; cbv beta iota zeta.
  all: change (int_truediv 0 100) with (Ret 0%float); cbv beta iota zeta.
  all: destruct (overall_percent self pf 0) as [p | e]; cbv beta iota zeta.
  all: intros H; inversion H; subst; clear H; split; [reflexivity |]; split.
  all: try (intros c Hin; cbn [app In] in Hin; rewrite ?in_app_iff in Hin; cbn [In] in Hin;
            repeat (destruct Hin as [Hin | Hin]; try discriminate);
            solve [contradiction | eapply Hl; eassumption]).
  all: cbn [app In]; rewrite ?in_app_iff; cbn [In]; intuition eauto.
Qed.

Lemma run_files_without_audio_bitrate env self (files : list string) :
  String.eqb (selected_audio_encoder self) "copy" = false ->
  truthy (audio_bitrate self) = false ->
  forall idx st r st' evs,
    run_files env self idx files st = (r, st', evs) ->
    st' = st
    /\ (forall c, ~ In (Launch c) evs)
    /\ (r = Ret tt ->
        forall file_path, In file_path files ->
          In (Signal (progress (MsgNoAudioBitrateSpecified (basename file_path)))) evs
          \/ In (Signal (progress (MsgErrorGettingDuration (basename file_path)))) evs).
Proof.
  intros Hcopy Hab.
  induction files as [| f files IH]; intros idx st r st' evs H; cbn [run_files] in H.
  - cbv [ret] in H. inversion H; subst. split; [reflexivity |].
    split; [intros c [] | intros _ p []].
  - apply bind_inv in H.
    destruct H as [(a & s1 & e1 & e2 & H1 & H2 & ->) | (e & H1 & ->)].
    + apply (process_file_without_audio_bitrate _ _ _ _ _ _ _ _ Hcopy Hab) in H1.
      destruct H1 as (-> & Hl1 & Hr1). apply IH in H2. destruct H2 as (-> & Hl2 & Hr2).
      split; [reflexivity |]. split.
      * intros c Hin. apply in_app_or in Hin. destruct Hin as [Hin | Hin];
          [eapply Hl1 | eapply Hl2]; eassumption.
      * intros Hr p [<- | Hin].
        -- destruct Hr1 as [Hr1 | Hr1]; [left | right]; apply in_or_app; auto.
        -- destruct (Hr2 Hr p Hin) as [Hp | Hp]; [left | right]; apply in_or_app; auto.
    + apply (process_file_without_audio_bitrate _ _ _ _ _ _ _ _ Hcopy Hab) in H1.
      destruct H1 as (-> & Hl1 & Hr1). split; [reflexivity |].
      split; [exact Hl1 | discriminate].
Qed.

(** A run is the announcement, the loop over the files from a counter of
    zero, and, when the loop returns, the two closing signals. *)
Lemma run_inv env self st r st' evs :
  run env self st = (r, st', evs) ->
  exists r1 e1,
    run_files env self 1 (media_files self)
      {| processed_files := 0; temp_sample_file := temp_sample_file st;
         temp_encoded_sample := temp_encoded_sample st |} = (r1, st', e1)
    /\ r = r1
    /\ evs = Signal (progress MsgStarting) :: e1
             ++ match r1 with
                | Ret _ => [Signal (overall_progress 100); Signal finished]
                | Raise _ => []
                end.
Proof.
  unfold run. destruct st as [pf ts te].
  cbv beta iota zeta delta [bind emit set_processed_files get put
    processed_files temp_sample_file temp_encoded_sample].
  destruct (run_files env self 1 (media_files self) _) as [[rr s1] e1] eqn:Hrun.
  destruct rr as [[] | e]; intros H; inversion H; subst; clear H.
  - do 2 eexists. split; [reflexivity |]. split; reflexivity.
  - do 2 eexists. split; [reflexivity |]. split; [reflexivity |].
    cbn [app]. now rewrite app_nil_r.
Qed.

(** X8.  When the audio encoder is not [copy] and no audio bitrate is
    given, a run starts neither the sample extractor nor the transcoder, for
    no file (these are the processes that an event [Launch] records; the
    inspector is still asked for the duration of each file): every file is
    given up, for want of a duration or of an audio bitrate, and none is
    counted as processed.  The audio encoder named [None] is such an
    encoder. *)
Theorem batch_without_audio_bitrate_is_not_transcoded
    (env : environment) (self : worker) (st : state)
    (r : res unit) (st' : state) (evs : list event) :
  String.eqb (selected_audio_encoder self) "copy" = false ->
  truthy (audio_bitrate self) = false ->
  run env self st = (r, st', evs) ->
  (forall c, ~ In (Launch c) evs)
  /\ processed_files st' = 0
  /\ (r = Ret tt ->
      forall file_path, In file_path (media_files self) ->
        In (Signal (progress (MsgNoAudioBitrateSpecified (basename file_path)))) evs
        \/ In (Signal (progress (MsgErrorGettingDuration (basename file_path)))) evs).
Proof.
  intros Hcopy Hab H. apply run_inv in H. destruct H as (r1 & e1 & Hrun & -> & ->).
  apply (run_files_without_audio_bitrate _ _ _ Hcopy Hab) in Hrun.
  destruct Hrun as (-> & Hl & Hr). split; [| split; [reflexivity |]].
  - intros c [Hin | Hin]; [discriminate |].
    apply in_app_or in Hin. destruct Hin as [Hin | Hin]; [now apply Hl in Hin |].
    destruct r1; cbn in Hin; intuition discriminate.
  - intros Hret p Hp. destruct (Hr Hret p Hp) as [Hin | Hin]; [left | right].
    all: right; apply in_or_app; left; exact Hin.
Qed.

(** A run of the theorem above, with the audio encoder [None]. *)
Lemma batch_without_audio_bitrate_is_not_transcoded_witness :
  (forall c, ~ In (Launch c) (snd (run two_track_world encoder_None idle)))
  /\ processed_files (snd (fst (run two_track_world encoder_None idle))) = 0
  /\ (fst (fst (run two_track_world encoder_None idle)) = Ret tt ->
      forall file_path, In file_path (media_files encoder_None) ->
        In (Signal (progress (MsgNoAudioBitrateSpecified (basename file_path))))
           (snd (run two_track_world encoder_None idle))
        \/ In (Signal (progress (MsgErrorGettingDuration (basename file_path))))
              (snd (run two_track_world encoder_None idle))).
Proof.
  apply (batch_without_audio_bitrate_is_not_transcoded two_track_world encoder_None idle).
  - reflexivity.
  - reflexivity.
  - destruct (run two_track_world encoder_None idle) as [[r st'] evs]. reflexivity.
Defined.

(** ** The media checker *)

Section CheckMediaWorkerProperties.

Import CheckMediaWorker.

Variable world : Type.
Variable env : tools world.
Variable self : CheckMediaWorker.worker.

Lemma scan_tracks_spec (tracks : list track) :
  forall v a,
    scan_tracks tracks v a
    = (v || existsb (fun t => has_type t "Video" && bitrate_missing t) tracks,
       a || existsb (fun t => has_type t "Audio" && bitrate_missing t) tracks).
Proof.
  induction tracks as [| t rest IH]; intros v a; simpl.
  - now rewrite !orb_false_r.
  - destruct (has_type t "Video") eqn:Ev.
    + assert (has_type t "Audio" = false) as Ea.
      { unfold has_type in *. destruct (track_type t) as [ty |]; [| reflexivity].
        apply String.eqb_eq in Ev. subst ty. reflexivity. }
      rewrite IH, Ea. simpl.
      destruct (bitrate_missing t), v; reflexivity.
    + destruct (has_type t "Audio") eqn:Ea; rewrite IH; simpl; [| reflexivity].
      destruct (bitrate_missing t), a; reflexivity.
Qed.

(** A bitrate is missing when the track has none, an empty one, or one that
    reads [n/a] in any letter case. *)
Lemma bitrate_missing_spec (t : track) :
  bitrate_missing t = true
  <-> track_BitRate t = None
      \/ track_BitRate t = Some ""%string
      \/ exists s, track_BitRate t = Some s /\ lower_str s = "n/a"%string.
Proof.
  unfold bitrate_missing, truthy, str_or_empty.
  destruct (track_BitRate t) as [s |]; simpl.
  - destruct (String.eqb s "") eqn:Es; simpl.
    + apply String.eqb_eq in Es. subst s. split; auto.
    + split.
      * intros H. apply String.eqb_eq in H. right. right. eauto.
      * intros [H | [H | (s' & H & Hs)]]; try discriminate.
        -- inversion H; subst. now rewrite String.eqb_refl in Es.
        -- inversion H; subst. now apply String.eqb_eq.
  - split; auto.
Qed.

(** X9.  [check_needs_update] inspects the file once, changes nothing and
    edits nothing.  It answers [True] exactly when the inspector answers and
    some track of type [Video] or [Audio] has no usable bitrate; when the
    inspector fails, the failure is reported and the answer is [False], as
    for a file that needs no update. *)
Theorem check_needs_update_spec (file_path : string) (w : world) :
  exists needs_update evs,
    check_needs_update world env self file_path w = (needs_update, w, evs)
    /\ launches MediaInfo evs = 1
    /\ launches MkvPropEdit evs = 0
    /\ (needs_update = true
        <-> exists data t,
              inspect env w file_path = Ret data
              /\ In t (match data with Some tr => tr | None => [] end)
              /\ (has_type t "Video" = true \/ has_type t "Audio" = true)
              /\ bitrate_missing t = true)
    /\ (forall e, inspect env w file_path = Raise e ->
          needs_update = false
          /\ In (Signal (progress (MsgErrorChecking file_path e))) evs).
Proof.
  unfold check_needs_update, check_output, bind, emit, ret.
  destruct (inspect env w file_path) as [data | e] eqn:Ei.
  - rewrite scan_tracks_spec. cbn [orb].
    do 2 eexists. split; [reflexivity |]. split; [reflexivity |].
    split; [reflexivity |]. split; [| discriminate].
    rewrite orb_true_iff, !existsb_exists. split.
    + intros [(t & Hin & Ht) | (t & Hin & Ht)]; apply andb_true_iff in Ht;
        exists data, t; intuition.
    + intros (data' & t & Hd & Hin & Hty & Hm). inversion Hd; subst data'.
      destruct Hty as [Hty | Hty]; [left | right]; exists t; rewrite Hty, Hm; auto.
  - do 2 eexists. split; [reflexivity |]. split; [reflexivity |].
    split; [reflexivity |]. split.
    + split; [discriminate | intros (data & t & H & _); discriminate].
    + intros e' He. inversion He; subst. split; [reflexivity |].
      simpl. auto.
Qed.


(** *** How often the tools are run *)

Lemma bind_inv_C {A B : Type} (m : C world A) (k : A -> C world B) w b w2 evs :
  CheckMediaWorker.bind world m k w = (b, w2, evs) ->
  exists a w1 e1 e2, m w = (a, w1, e1) /\ k a w1 = (b, w2, e2) /\ evs = e1 ++ e2.
Proof.
  unfold CheckMediaWorker.bind. destruct (m w) as [[a w1] e1] eqn:Em.
  destruct (k a w1) as [[b' w2'] e2] eqn:Ek. intros H. inversion H; subst.
  exists a, w1, e1, e2. auto.
Qed.

Lemma launches_app (t : tool) (a b : list CheckMediaWorker.event) :
  launches t (a ++ b) = launches t a + launches t b.
Proof. unfold launches. rewrite filter_app, length_app. lia. Qed.

Lemma launches_nonneg (t : tool) (evs : list CheckMediaWorker.event) :
  0 <= launches t evs.
Proof. unfold launches. lia. Qed.

Lemma effort_weaken {A : Type} lo hi edits lo' hi' edits' (m : C world A) :
  lo' <= lo -> hi <= hi' -> edits <= edits' ->
  effort lo hi edits m -> effort lo' hi' edits' m.
Proof.
  intros H1 H2 H3 Hm w a w' evs H. apply Hm in H. lia.
Qed.

Lemma effort_ret {A : Type} (a : A) : effort 0 0 0 (CheckMediaWorker.ret world a).
Proof. intros w a' w' evs H. inversion H; subst. cbv. intuition discriminate. Qed.

Lemma effort_emit (x : CheckMediaWorker.signal) :
  effort 0 0 0 (CheckMediaWorker.emit world x).
Proof. intros w a' w' evs H. inversion H; subst. cbv. intuition discriminate. Qed.

Lemma effort_bind {A B : Type} l1 h1 e1 l2 h2 e2 (m : C world A) (k : A -> C world B) :
  effort l1 h1 e1 m -> (forall a, effort l2 h2 e2 (k a)) ->
  effort (l1 + l2) (h1 + h2) (e1 + e2) (CheckMediaWorker.bind world m k).
Proof.
  intros Hm Hk w b w2 evs H. apply bind_inv_C in H.
  destruct H as (a & w1 & ev1 & ev2 & H1 & H2 & ->).
  apply Hm in H1. apply Hk in H2. rewrite !launches_app. lia.
Qed.

Lemma effort_check_needs_update file_path :
  effort 1 1 0 (check_needs_update world env self file_path).
Proof.
  intros w a w' evs. unfold check_needs_update, check_output, CheckMediaWorker.bind,
    CheckMediaWorker.emit, CheckMediaWorker.ret.
  destruct (inspect env w file_path) as [data | e].
  - destruct (scan_tracks _ _ _). intros H. inversion H; subst. cbv. intuition discriminate.
  - intros H. inversion H; subst. cbv. intuition discriminate.
Qed.

Lemma effort_update_attempts file_path (attempts : list Z) :
  effort 0 0 (Z.of_nat (List.length attempts))
    (update_attempts world env self file_path attempts).
Proof.
  induction attempts as [| attempt rest IH]; cbn [update_attempts].
  - apply effort_ret.
  - intros w a w' evs H. apply bind_inv_C in H.
    destruct H as (r & w1 & ev1 & ev2 & H1 & H2 & ->).
    unfold subprocess_run in H1. destruct (propedit env w file_path) as [r' w1'].
    inversion H1; subst r' w1' ev1. clear H1. rewrite !launches_app.
    change (launches MediaInfo [Launch MkvPropEdit _]) with 0.
    change (launches MkvPropEdit [Launch MkvPropEdit _]) with 1.
    assert (0 <= launches MediaInfo ev2 <= 0
            /\ 0 <= launches MkvPropEdit ev2 <= Z.of_nat (List.length rest)) as Hb.
    { destruct r as [result | e].
      - destruct (negb (code result =? 0)).
        + cbv [CheckMediaWorker.bind CheckMediaWorker.emit CheckMediaWorker.ret] in H2.
          inversion H2; subst. cbv [launches]. simpl. lia.
        + now apply IH in H2.
      - cbv [CheckMediaWorker.bind CheckMediaWorker.emit CheckMediaWorker.ret] in H2.
        inversion H2; subst. cbv [launches]. simpl. lia. }
    cbn [List.length]. lia.
Qed.

Lemma effort_update_duration file_path :
  effort 0 0 2 (update_duration world env self file_path).
Proof. apply (effort_update_attempts file_path [0; 1]). Qed.

Lemma effort_update_loop file_path file_name (remaining : nat) :
  forall needs_update attempts success,
    effort 0 (Z.of_nat remaining) (2 * Z.of_nat remaining)
      (update_loop world env self remaining file_path file_name
         needs_update attempts success).
Proof.
  induction remaining as [| n IH]; intros needs_update attempts success;
    cbn [update_loop].
  - apply effort_ret.
  - destruct needs_update;
      [| eapply effort_weaken; [| | | apply effort_ret]; lia].
    apply (effort_weaken (0 + (0 + 0)) (0 + (0 + (1 + Z.of_nat n)))
             (0 + (2 + (0 + 2 * Z.of_nat n)))); try lia.
    apply effort_bind; [apply effort_emit | intros _].
    apply effort_bind; [apply effort_update_duration | intros update_success].
    destruct update_success.
    + apply (effort_weaken (1 + 0) (1 + Z.of_nat n) (0 + 2 * Z.of_nat n)); try lia.
      apply effort_bind; [apply effort_check_needs_update | intros needs_update'].
      destruct needs_update'; cbn [negb].
      * eapply effort_weaken; [| | | apply IH]; lia.
      * apply (effort_weaken (0 + 0) (0 + 0) (0 + 0)); try lia.
        apply effort_bind; [apply effort_emit | intros _; apply effort_ret].
    + apply (effort_weaken (0 + 0) (0 + 0) (0 + 0)); try lia.
      apply effort_bind; [apply effort_emit | intros _; apply effort_ret].
Qed.

Lemma effort_check_file file_path :
  effort 1 3 4 (check_file world env self file_path).
Proof.
  unfold check_file.
  apply (effort_weaken (0 + (0 + (1 + 0))) (0 + (0 + (1 + 2))) (0 + (0 + (0 + 4))));
    try lia.
  apply effort_bind; [| intros _].
  { destruct (CheckMediaWorker.per_file_output_only self); [| apply effort_ret].
    apply (effort_bind 0 0 0 0 0 0); [apply effort_emit | intros _; apply effort_emit]. }
  apply effort_bind; [apply effort_emit | intros _].
  apply effort_bind; [apply effort_check_needs_update | intros needs_update].
  destruct needs_update; cbn [negb].
  - apply (effort_weaken (0 + 0) (2 + 0) (4 + 0)); try lia.
    apply effort_bind; [apply (effort_update_loop file_path _ 2) | intros [[nu att] succ]].
    destruct (negb succ && nu); [apply effort_emit | apply effort_ret].
  - eapply effort_weaken; [| | | apply effort_emit]; lia.
Qed.

Lemma effort_run_files (files : list string) :
  effort (Z.of_nat (List.length files)) (3 * Z.of_nat (List.length files))
    (4 * Z.of_nat (List.length files)) (run_files world env self files).
Proof.
  induction files as [| f files IH]; cbn [run_files].
  - apply effort_ret.
  - eapply effort_weaken; [| | | apply effort_bind;
                                 [apply effort_check_file | intros _; exact IH]];
      cbn [List.length]; lia.
Qed.

(** X10.  A run of the checker inspects every file at least once and at
    most three times, and runs the editor on it at most four times: two
    update attempts of two editor runs each, each attempt followed by one
    inspection. *)
Theorem check_effort_is_bounded (w w' : world) (evs : list CheckMediaWorker.event) :
  CheckMediaWorker.run world env self w = (tt, w', evs) ->
  Z.of_nat (List.length (CheckMediaWorker.media_files self))
    <= launches MediaInfo evs
    <= 3 * Z.of_nat (List.length (CheckMediaWorker.media_files self))
  /\ launches MkvPropEdit evs
     <= 4 * Z.of_nat (List.length (CheckMediaWorker.media_files self)).
Proof.
  intros H.
  assert (effort (0 + (Z.of_nat (List.length (CheckMediaWorker.media_files self)) + (0 + 0)))
            (0 + (3 * Z.of_nat (List.length (CheckMediaWorker.media_files self)) + (0 + 0)))
            (0 + (4 * Z.of_nat (List.length (CheckMediaWorker.media_files self)) + (0 + 0)))
            (CheckMediaWorker.run world env self)) as He.
  { unfold CheckMediaWorker.run.
    apply effort_bind; [apply effort_emit | intros _].
    apply effort_bind; [apply effort_run_files | intros _].
    apply effort_bind; [apply effort_emit | intros _; apply effort_emit]. }
  apply He in H. lia.
Qed.

(** *** The verdict on a file *)

Lemma check_needs_update_quiet file_path w b w' evs :
  check_needs_update world env self file_path w = (b, w', evs) ->
  w' = w /\ filter verdict evs = [] /\ launches MkvPropEdit evs = 0.
Proof.
  unfold check_needs_update, check_output, CheckMediaWorker.bind,
    CheckMediaWorker.emit, CheckMediaWorker.ret.
  destruct (inspect env w file_path) as [data | e].
  - destruct (scan_tracks _ _ _). intros H. inversion H; subst. auto.
  - intros H. inversion H; subst. auto.
Qed.

Lemma update_attempts_quiet file_path (attempts : list Z) :
  forall w b w' evs,
    update_attempts world env self file_path attempts w = (b, w', evs) ->
    filter verdict evs = []
    /\ (b = true -> launches MkvPropEdit evs = Z.of_nat (List.length attempts)).
Proof.
  induction attempts as [| attempt rest IH]; intros w b w' evs H;
    cbn [update_attempts] in H.
  - inversion H; subst. auto.
  - apply bind_inv_C in H. destruct H as (r & w1 & ev1 & ev2 & H1 & H2 & ->).
    unfold subprocess_run in H1. destruct (propedit env w file_path) as [r' w1'].
    inversion H1; subst r' w1' ev1. clear H1.
    destruct r as [result | e].
    + destruct (negb (code result =? 0)).
      * cbv [CheckMediaWorker.bind CheckMediaWorker.emit CheckMediaWorker.ret] in H2.
        inversion H2; subst. split; [reflexivity | discriminate].
      * apply IH in H2. destruct H2 as [Hq Hl]. split; [exact Hq |].
        intros Hb. rewrite launches_app, (Hl Hb). cbn [List.length].
        change (launches MkvPropEdit [Launch MkvPropEdit _]) with 1. lia.
    + cbv [CheckMediaWorker.bind CheckMediaWorker.emit CheckMediaWorker.ret] in H2.
      inversion H2; subst. split; [reflexivity | discriminate].
Qed.

(** The loop ends either with a success, reported once and checked by an
    inspection of the file as the loop leaves it, or without one, the file
    still in need of an update. *)
Lemma update_loop_verdict file_path file_name (remaining : nat) :
  forall attempts w needs_update attempts' success w' evs,
    update_loop world env self remaining file_path file_name true attempts false w
    = (needs_update, attempts', success, w', evs) ->
    (success = true /\ needs_update = false
     /\ filter verdict evs = [Signal (progress (MsgUpdated file_name (attempts' + 1)))]
     /\ fst (fst (check_needs_update world env self file_path w')) = false
     /\ attempts <= attempts' < attempts + Z.of_nat remaining
     /\ launches MkvPropEdit evs = 2 * (attempts' + 1 - attempts))
    \/ (success = false /\ needs_update = true /\ filter verdict evs = []).
Proof.
  induction remaining as [| n IH]; intros attempts w nu att succ w' evs H;
    cbn [update_loop] in H.
  - inversion H; subst. right. auto.
  - apply bind_inv_C in H. destruct H as ([] & w1 & ev1 & ev2 & H1 & H2 & ->).
    inversion H1; subst w1 ev1. clear H1.
    apply bind_inv_C in H2. destruct H2 as (ok & w2 & ev2' & ev3 & H2 & H3 & ->).
    apply update_attempts_quiet in H2. destruct H2 as [Hq2 Hl2].
    destruct ok.
    + specialize (Hl2 eq_refl). cbn [List.length] in Hl2.
      apply bind_inv_C in H3. destruct H3 as (nu' & w3 & ev4 & ev5 & H3 & H4 & ->).
      pose proof H3 as H3'. apply check_needs_update_quiet in H3'.
      destruct H3' as (-> & Hq4 & Hl4).
      destruct nu'; cbn [negb] in H4.
      * apply IH in H4.
        destruct H4 as [(-> & -> & Hq & Hv & Hr & Hl) | (-> & -> & Hq)]; [left | right].
        -- repeat split; try exact Hv; try lia.
           ++ cbn [app filter verdict]. rewrite !filter_app, Hq2, Hq4, Hq. reflexivity.
           ++ cbn [app]. change (Signal ?x :: ?l) with ([Signal x] ++ l).
              rewrite !launches_app, Hl2, Hl4, Hl.
              change (launches MkvPropEdit [Signal _]) with 0. lia.
        -- repeat split. cbn [app filter verdict]. rewrite !filter_app, Hq2, Hq4, Hq.
           reflexivity.
      * cbv [CheckMediaWorker.bind CheckMediaWorker.emit CheckMediaWorker.ret] in H4.
        inversion H4; subst. left. repeat split; try lia.
        -- cbn [app filter verdict]. rewrite !filter_app, Hq2, Hq4. reflexivity.
        -- now rewrite H3.
        -- cbn [app]. change (Signal ?x :: ?l) with ([Signal x] ++ l).
           rewrite !launches_app, Hl2, Hl4.
           change (launches MkvPropEdit [Signal _]) with 0.
           change (launches MkvPropEdit [Signal _]) with 0. lia.
    + cbv [CheckMediaWorker.bind CheckMediaWorker.emit CheckMediaWorker.ret] in H3.
      inversion H3; subst. right. repeat split.
      cbn [app filter verdict]. rewrite !filter_app, Hq2. reflexivity.
Qed.

(** X11.  Every file checked gets exactly one verdict: no update needed,
    successfully updated, or failed.  A file is reported updated after [k]
    attempts only when [k] is 1 or 2, the editor has run [2 k] times on it,
    and an inspection of the file as the check leaves it finds no bitrate
    missing; a file is reported in no need of an update without the editor
    being run, the world left as it was. *)
Theorem every_checked_file_gets_one_verdict
    (file_path : string) (w w' : world) (evs : list CheckMediaWorker.event) :
  check_file world env self file_path w = (tt, w', evs) ->
  (exists v, filter verdict evs = [v])
  /\ (forall name k,
        In (Signal (progress (MsgUpdated name k))) evs ->
        name = basename file_path
        /\ (k = 1 \/ k = 2)
        /\ launches MkvPropEdit evs = 2 * k
        /\ fst (fst (check_needs_update world env self file_path w')) = false)
  /\ (forall name,
        In (Signal (progress (MsgNoUpdateNeeded name))) evs ->
        w' = w /\ launches MkvPropEdit evs = 0).
Proof.
  unfold check_file. intros H.
  apply bind_inv_C in H. destruct H as ([] & w1 & ev1 & ev2 & H1 & H2 & ->).
  assert (w1 = w /\ filter verdict ev1 = [] /\ launches MkvPropEdit ev1 = 0
          /\ forall m, In (Signal (progress m)) ev1 -> m = MsgStarting)
    as (-> & Hq1 & Hl1 & Hm1).
  { destruct (CheckMediaWorker.per_file_output_only self);
      cbv [CheckMediaWorker.bind CheckMediaWorker.emit CheckMediaWorker.ret] in H1;
      inversion H1; subst; repeat split; try reflexivity.
    - intros m [Hin | [Hin | []]]; [discriminate | now inversion Hin].
    - intros m []. }
  clear H1.
  apply bind_inv_C in H2. destruct H2 as ([] & w1 & ev3 & ev4 & H1 & H2 & ->).
  inversion H1; subst w1 ev3. clear H1.
  apply bind_inv_C in H2. destruct H2 as (nu & w1 & ev5 & ev6 & H1 & H2 & ->).
  pose proof H1 as H1'. apply check_needs_update_quiet in H1'.
  destruct H1' as (-> & Hq5 & Hl5).
  assert (forall m, In (Signal (progress m)) ev5 ->
            exists e, m = MsgErrorChecking file_path e) as Hm5.
  { revert H1. unfold check_needs_update, check_output, CheckMediaWorker.bind,
      CheckMediaWorker.emit, CheckMediaWorker.ret.
    destruct (inspect env w file_path) as [data | e].
    - destruct (scan_tracks _ _ _). intros H. inversion H; subst.
      intros m [Hin | []]. discriminate.
    - intros H. inversion H; subst.
      intros m [Hin | [Hin | []]]; [discriminate | inversion Hin; eauto]. }
  destruct nu; cbn [negb] in H2.
  - apply bind_inv_C in H2.
    destruct H2 as ([[nu att] succ] & w2 & ev7 & ev8 & H2 & H3 & ->).
    apply update_loop_verdict in H2.
    destruct H2 as [(-> & -> & Hq & Hv & Hr & Hl) | (-> & -> & Hq)]; cbn in H3;
      inversion H3; subst w2 ev8; clear H3.
    + split; [| split].
      * eexists. rewrite !filter_app, Hq1, Hq5, Hq. reflexivity.
      * intros name k Hin.
        assert (In (Signal (progress (MsgUpdated name k)))
                   (filter verdict
                      (ev1 ++ [Signal (progress (MsgChecking (basename file_path)))]
                           ++ ev5 ++ ev7 ++ []))) as Hf
          by (apply filter_In; split; [exact Hin | reflexivity]).
        rewrite !filter_app, Hq1, Hq5, Hq in Hf. cbn in Hf.
        destruct Hf as [Hf | []]. inversion Hf; subst name k.
        split; [reflexivity |]. cbn [Z.to_nat max_attempts] in Hr.
        change (Z.of_nat (Z.to_nat max_attempts)) with 2 in Hr.
        split; [lia |]. split; [| exact Hv].
        rewrite !launches_app, Hl1, Hl5, Hl.
        change (launches MkvPropEdit [Signal _]) with 0.
        change (launches MkvPropEdit []) with 0. lia.
      * intros name Hin.
        assert (In (Signal (progress (MsgNoUpdateNeeded name)))
                   (filter verdict
                      (ev1 ++ [Signal (progress (MsgChecking (basename file_path)))]
                           ++ ev5 ++ ev7 ++ []))) as Hf
          by (apply filter_In; split; [exact Hin | reflexivity]).
        rewrite !filter_app, Hq1, Hq5, Hq in Hf. cbn in Hf.
        destruct Hf as [Hf | []]. discriminate.
    + split; [| split].
      * eexists. rewrite !filter_app, Hq1, Hq5, Hq. reflexivity.
      * intros name k Hin.
        assert (In (Signal (progress (MsgUpdated name k)))
                   (filter verdict
                      (ev1 ++ [Signal (progress (MsgChecking (basename file_path)))]
                           ++ ev5 ++ ev7
                           ++ [Signal (progress (MsgFailedAfter (basename file_path) att))])))
          as Hf by (apply filter_In; split; [exact Hin | reflexivity]).
        rewrite !filter_app, Hq1, Hq5, Hq in Hf. cbn in Hf.
        destruct Hf as [Hf | []]. discriminate.
      * intros name Hin.
        assert (In (Signal (progress (MsgNoUpdateNeeded name)))
                   (filter verdict
                      (ev1 ++ [Signal (progress (MsgChecking (basename file_path)))]
                           ++ ev5 ++ ev7
                           ++ [Signal (progress (MsgFailedAfter (basename file_path) att))])))
          as Hf by (apply filter_In; split; [exact Hin | reflexivity]).
        rewrite !filter_app, Hq1, Hq5, Hq in Hf. cbn in Hf.
        destruct Hf as [Hf | []]. discriminate.
  - inversion H2; subst w' ev6. clear H2. split; [| split].
    + eexists. rewrite !filter_app, Hq1, Hq5. reflexivity.
    + intros name k Hin.
      assert (In (Signal (progress (MsgUpdated name k)))
                 (filter verdict
                    (ev1 ++ [Signal (progress (MsgChecking (basename file_path)))]
                         ++ ev5
                         ++ [Signal (progress (MsgNoUpdateNeeded (basename file_path)))])))
        as Hf by (apply filter_In; split; [exact Hin | reflexivity]).
      rewrite !filter_app, Hq1, Hq5 in Hf. cbn in Hf.
      destruct Hf as [Hf | []]. discriminate.
    + intros name _. split; [reflexivity |].
      rewrite !launches_app, Hl1, Hl5. reflexivity.
Qed.

(** X12.  Two failures as the checker reports them.  When the inspector
    fails on a file, the error is reported and the file is then reported in
    no need of an update, the editor not being run.  When the editor exits
    non-zero at its first run on a file that needs an update, the file is
    reported failed on attempt 1 and then failed after 0 attempts: the
    attempt counter is not advanced by a failed attempt. *)
Theorem failures_as_the_checker_reports_them (file_path : string) (w : world) :
  let announced :=
    (if CheckMediaWorker.per_file_output_only self
     then [Signal CheckMediaWorker.clear_progress;
           Signal (progress CheckMediaWorker.MsgStarting)]
     else [])
    ++ [Signal (progress (MsgChecking (basename file_path)));
        Launch MediaInfo
          [CheckMediaWorker.mediainfo_exe self; "--Output=JSON"; file_path]%string] in
  (forall e,
      inspect env w file_path = Raise e ->
      check_file world env self file_path w
      = (tt, w,
         announced
         ++ [Signal (progress (MsgErrorChecking file_path e));
             Signal (progress (MsgNoUpdateNeeded (basename file_path)))]))
  /\ (forall result w1,
         fst (fst (check_needs_update world env self file_path w)) = true ->
         propedit env w file_path = (Ret result, w1) ->
         code result <> 0 ->
         check_file world env self file_path w
         = (tt, w1,
            announced
            ++ [Signal (progress (MsgUpdating (basename file_path) 1));
                Launch MkvPropEdit
                  [mkvpropedit_exe self; file_path; "--add-track-statistics-tags"]%string;
                Signal (progress (MsgErrorUpdating file_path 1 (stderr result)));
                Signal (progress (MsgFailedOnAttempt (basename file_path) 1));
                Signal (progress (MsgFailedAfter (basename file_path) 0))])).
Proof.
  intros announced. subst announced. split.
  - intros e He.
    unfold check_file, check_needs_update, check_output, CheckMediaWorker.bind,
      CheckMediaWorker.emit, CheckMediaWorker.ret.
    destruct (CheckMediaWorker.per_file_output_only self); rewrite He; reflexivity.
  - intros result w1 Hn Hp Hc. apply Z.eqb_neq in Hc.
    assert (check_needs_update world env self file_path w
            = (true, w,
               [Launch MediaInfo
                  [CheckMediaWorker.mediainfo_exe self; "--Output=JSON"; file_path]%string]))
      as Hcn.
    { revert Hn. unfold check_needs_update, check_output, CheckMediaWorker.bind,
        CheckMediaWorker.emit, CheckMediaWorker.ret.
      destruct (inspect env w file_path) as [data | e]; cbn [fst].
      - destruct (scan_tracks _ _ _) as [v a]. cbn [fst]. intros ->. reflexivity.
      - discriminate. }
    unfold check_file, CheckMediaWorker.bind, CheckMediaWorker.emit, CheckMediaWorker.ret.
    destruct (CheckMediaWorker.per_file_output_only self); cbv beta iota zeta;
      rewrite Hcn; cbv beta iota zeta.
    all: change (Z.to_nat max_attempts) with 2%nat;
      cbn [negb update_loop update_duration update_attempts].
    all: unfold subprocess_run, CheckMediaWorker.bind, CheckMediaWorker.emit,
           CheckMediaWorker.ret.
    all: cbv beta iota zeta; rewrite Hp; cbv beta iota zeta; rewrite Hc; reflexivity.
Qed.

End CheckMediaWorkerProperties.

(** A run of the theorem above: two files whose audio bitrate shows after
    two runs of the editor; the first file takes two inspections and two
    editor runs, the second one inspection. *)
Lemma check_effort_is_bounded_witness :
  (2 <= CheckMediaWorker.launches CheckMediaWorker.MediaInfo
          (snd (CheckMediaWorker.run nat (CheckMediaWorker.after_edits 2)
                  CheckMediaWorker.two_files O)) <= 3 * 2
   /\ CheckMediaWorker.launches CheckMediaWorker.MkvPropEdit
        (snd (CheckMediaWorker.run nat (CheckMediaWorker.after_edits 2)
                CheckMediaWorker.two_files O)) <= 4 * 2)
  /\ CheckMediaWorker.launches CheckMediaWorker.MediaInfo
       (snd (CheckMediaWorker.run nat (CheckMediaWorker.after_edits 2)
               CheckMediaWorker.two_files O)) = 3
  /\ CheckMediaWorker.launches CheckMediaWorker.MkvPropEdit
       (snd (CheckMediaWorker.run nat (CheckMediaWorker.after_edits 2)
               CheckMediaWorker.two_files O)) = 2.
Proof.
  split; [| split; vm_compute; reflexivity].
  apply (check_effort_is_bounded nat (CheckMediaWorker.after_edits 2)
           CheckMediaWorker.two_files O
           (snd (fst (CheckMediaWorker.run nat (CheckMediaWorker.after_edits 2)
                        CheckMediaWorker.two_files O)))).
  destruct (CheckMediaWorker.run nat (CheckMediaWorker.after_edits 2)
              CheckMediaWorker.two_files O) as [[[] w'] evs]. reflexivity.
Defined.

(** A run of the theorem above: a file whose audio bitrate shows after two
    runs of the editor is reported updated after 1 attempt. *)
Lemma every_checked_file_gets_one_verdict_witness :
  (exists v,
     filter CheckMediaWorker.verdict
       (snd (CheckMediaWorker.check_file nat (CheckMediaWorker.after_edits 2)
               CheckMediaWorker.two_files "/in/a.mkv" O)) = [v])
  /\ filter CheckMediaWorker.verdict
       (snd (CheckMediaWorker.check_file nat (CheckMediaWorker.after_edits 2)
               CheckMediaWorker.two_files "/in/a.mkv" O))
     = [CheckMediaWorker.Signal
          (CheckMediaWorker.progress (CheckMediaWorker.MsgUpdated "a.mkv" 1))].
Proof.
  split; [| vm_compute; reflexivity].
  apply (every_checked_file_gets_one_verdict nat (CheckMediaWorker.after_edits 2)
           CheckMediaWorker.two_files "/in/a.mkv"%string O
           (snd (fst (CheckMediaWorker.check_file nat (CheckMediaWorker.after_edits 2)
                        CheckMediaWorker.two_files "/in/a.mkv" O)))).
  destruct (CheckMediaWorker.check_file nat (CheckMediaWorker.after_edits 2)
              CheckMediaWorker.two_files "/in/a.mkv" O) as [[[] w'] evs]. reflexivity.
Defined.

(** ** The media list *)

Lemma gather_track_kinds (t : Media.full_track) :
  (Media.has_type t "General" = true ->
   Media.has_type t "Video" = false /\ Media.has_type t "Audio" = false)
  /\ (Media.has_type t "Video" = true -> Media.has_type t "Audio" = false).
Proof.
  unfold Media.has_type. destruct (Media.type_ t) as [ty |]; [| split; discriminate].
  split; intros H; apply String.eqb_eq in H; subst ty; auto.
Qed.

Lemma find_append {A : Type} (f : A -> bool) (l l' : list A) :
  find f (l ++ l') = match find f l with Some x => Some x | None => find f l' end.
Proof.
  induction l as [| x l IH]; cbn [app find]; [reflexivity |].
  destruct (f x); [reflexivity | exact IH].
Qed.

(** What the loop over the tracks gathers: the last track of type
    [General], the first of type [Video], and the tracks of type [Audio] in
    their order. *)
Lemma gather_spec (tracks : list Media.full_track) :
  Media.general_track (Media.gather tracks)
  = find (fun t => Media.has_type t "General") (rev tracks)
  /\ Media.video_track (Media.gather tracks)
     = find (fun t => Media.has_type t "Video") tracks
  /\ Media.audio_tracks_found (Media.gather tracks)
     = filter (fun t => Media.has_type t "Audio") tracks.
Proof.
  unfold Media.gather.
  assert (forall l g,
             Media.general_track (fold_left Media.gather_track l g)
             = match find (fun t => Media.has_type t "General") (rev l) with
               | Some t => Some t
               | None => Media.general_track g
               end
             /\ Media.video_track (fold_left Media.gather_track l g)
                = match Media.video_track g with
                  | Some v => Some v
                  | None => find (fun t => Media.has_type t "Video") l
                  end
             /\ Media.audio_tracks_found (fold_left Media.gather_track l g)
                = Media.audio_tracks_found g
                  ++ filter (fun t => Media.has_type t "Audio") l) as H.
  { induction l as [| t l IH]; intros g; cbn [fold_left rev find filter].
    - rewrite app_nil_r. destruct (Media.video_track g); auto.
    - destruct (IH (Media.gather_track g t)) as (H1 & H2 & H3).
      rewrite H1, H2, H3. clear IH H1 H2 H3.
      rewrite find_append. unfold Media.gather_track.
      destruct (gather_track_kinds t) as [Hg Hv].
      destruct (Media.has_type t "General") eqn:Eg;
        [destruct (Hg eq_refl) as [Ev Ea]
        | destruct (Media.has_type t "Video") eqn:Ev;
          [pose proof (Hv eq_refl) as Ea | destruct (Media.has_type t "Audio") eqn:Ea]].
      all: destruct (Media.video_track g) as [v |] eqn:Evt.
      all: cbn; rewrite ?Eg, ?Ev, ?Ea, ?Evt; cbn; rewrite ?Evt.
      all: destruct (find _ (rev l)); rewrite <- ?app_assoc; auto.
  }
  destruct (H tracks {| Media.general_track := None; Media.video_track := None;
                        Media.audio_tracks_found := []; Media.total_kbps := 0 |})
    as (H1 & H2 & H3).
  rewrite H1, H2, H3. cbn. destruct (find _ (rev tracks)); auto.
Qed.

Lemma find_in {A : Type} (f : A -> bool) (l : list A) (x : A) :
  find f l = Some x -> In x l /\ f x = true.
Proof. apply find_some. Qed.

Lemma media_info_inv (env : Media.environment) (fd : float -> res string)
    (file_path : string) (i : Media.info) :
  Media.media_info env fd file_path = Ret i ->
  exists tracks general_track video_track file_size,
    Media.mediainfo env file_path = Ret (Some tracks)
    /\ Media.general_track (Media.gather tracks) = Some general_track
    /\ Media.video_track (Media.gather tracks) = Some video_track
    /\ Media.audio_tracks_found (Media.gather tracks) <> []
    /\ Media.getsize env file_path = Ret file_size
    /\ Media.filename i = basename file_path
    /\ Media.video i = snd (Media.video_texts video_track)
    /\ Media.video_info i = fst (Media.video_texts video_track)
    /\ rbind (Media.audio_texts (Media.languages env) 1
                (Media.audio_tracks_found (Media.gather tracks)))
             (fun l => Ret (join Text.newline l)) = Ret (Media.audio i)
    /\ rbind (rbind (int_truediv file_size (1024 * 1024)) int_of_float)
             (fun mb => Ret (str_of_int mb ++ " MB")%string) = Ret (Media.size i)
    /\ Media.size_bytes i = file_size
    /\ Media.total_audio_bitrate_kbps i = Media.total_kbps (Media.gather tracks)
    /\ Media.path i = file_path
    /\ Media.audio_tracks i = Media.audio_tracks_found (Media.gather tracks)
    /\ Media.duration_texts fd general_track
       = Ret (Media.duration i, Media.duration_seconds i).
Proof.
  unfold Media.media_info. intros H.
  destruct (Media.mediainfo env file_path) as [data | e]; [| discriminate].
  cbn [rbind] in H.
  destruct data as [tracks |]; [| discriminate].
  destruct (Media.general_track (Media.gather tracks)) as [g |] eqn:Eg; [| discriminate].
  destruct (Media.video_track (Media.gather tracks)) as [v |] eqn:Ev; [| discriminate].
  destruct (Media.audio_tracks_found (Media.gather tracks)) as [| a rest] eqn:Ea;
    [discriminate |].
  destruct (Media.getsize env file_path) as [file_size | e]; [| discriminate].
  cbn [rbind] in H.
  destruct (Media.video_texts v) as [vi vs] eqn:Evt.
  destruct (Media.audio_texts (Media.languages env) 1 (a :: rest)) as [al | e] eqn:Eat;
    [| discriminate].
  cbn [rbind] in H.
  destruct (Media.duration_texts fd g) as [d | e] eqn:Ed; [| discriminate].
  cbn [rbind] in H.
  destruct (int_truediv file_size (1024 * 1024)) as [mb | e] eqn:Emb; [| discriminate].
  cbn [rbind] in H.
  destruct (int_of_float mb) as [n | e] eqn:En; [| discriminate].
  cbn [rbind] in H. injection H as <-.
  exists tracks, g, v, file_size.
  rewrite Emb. cbn [rbind]. rewrite En. cbn [rbind]. destruct d.
  rewrite Eg, Ev, Ea, Evt, Eat, Ed. cbn [rbind].
  repeat split; try reflexivity; try discriminate.
Qed.

(** X16.  A file is put on the media list only when the inspector finds in it a
    [General] track, a [Video] track and at least one [Audio] track; the
    file is then listed with exactly its [Audio] tracks, in their order,
    under its own path and with its size on disk. *)
Theorem a_listed_file_has_general_video_and_audio_tracks
    (env : Media.environment) (fd : float -> res string)
    (file_path : string) (i : Media.info) :
  Media.media_info env fd file_path = Ret i ->
  exists tracks,
    Media.mediainfo env file_path = Ret (Some tracks)
    /\ (exists t, In t tracks /\ Media.has_type t "General" = true)
    /\ (exists t, In t tracks /\ Media.has_type t "Video" = true)
    /\ Media.audio_tracks i = filter (fun t => Media.has_type t "Audio") tracks
    /\ Media.audio_tracks i <> []
    /\ Media.path i = file_path
    /\ Media.getsize env file_path = Ret (Media.size_bytes i).
Proof.
  intros H. apply media_info_inv in H.
  destruct H as (tracks & g & v & file_size & Hm & Hg & Hv & Ha & Hs & _ & _ & _ & _
                 & _ & Hb & _ & Hp & Hat & _).
  destruct (gather_spec tracks) as (G1 & G2 & G3).
  exists tracks. split; [exact Hm |].
  split.
  { rewrite G1 in Hg. apply find_in in Hg. destruct Hg as [Hin Ht].
    exists g. split; [apply in_rev; exact Hin | exact Ht]. }
  split.
  { rewrite G2 in Hv. apply find_in in Hv. exists v. exact Hv. }
  rewrite Hat, Hb, Hp. rewrite <- G3. auto.
Qed.

Lemma a_listed_file_has_general_video_and_audio_tracks_witness :
  exists tracks,
    Media.mediainfo a_library "/in/a.mkv" = Ret (Some tracks)
    /\ (exists t, In t tracks /\ Media.has_type t "General" = true)
    /\ (exists t, In t tracks /\ Media.has_type t "Video" = true)
    /\ Media.audio_tracks (info_in a_library "/in/a.mkv")
       = filter (fun t => Media.has_type t "Audio") tracks
    /\ Media.audio_tracks (info_in a_library "/in/a.mkv") <> []
    /\ Media.path (info_in a_library "/in/a.mkv") = "/in/a.mkv"%string
    /\ Media.getsize a_library "/in/a.mkv"
       = Ret (Media.size_bytes (info_in a_library "/in/a.mkv")).
Proof.
  apply (a_listed_file_has_general_video_and_audio_tracks
           a_library (fun d => Ret (AddMediaWorker.format_duration d))).
  vm_compute. reflexivity.
Defined.

Section AddMediaWorkerProperties.

Import AddMediaWorker.

Variable env : Media.environment.
Variable mediainfo_exe : string.

Lemma run_files_app (l1 l2 : list string) :
  run_files env mediainfo_exe (l1 ++ l2)
  = match run_files env mediainfo_exe l1 with
    | (Returns _, evs) =>
        let '(r, evs') := run_files env mediainfo_exe l2 in (r, evs ++ evs')
    | (Raises e, evs) => (Raises e, evs)
    end.
Proof.
  induction l1 as [| f l1 IH]; cbn [app run_files].
  - destruct (run_files env mediainfo_exe l2); reflexivity.
  - destruct (is_media_file f); [| exact IH].
    destruct (get_media_info env mediainfo_exe f) as [[m | e] evs]; [| reflexivity].
    rewrite IH.
    destruct (run_files env mediainfo_exe l1) as [[[] | e] evs1]; [| reflexivity].
    destruct (run_files env mediainfo_exe l2) as [r evs2].
    rewrite <- !app_assoc. reflexivity.
Qed.

Lemma run_files_described (info : string -> Media.info) (files : list string) :
  (forall f, In f files -> is_media_file f = true -> described env f = Ret (info f)) ->
  run_files env mediainfo_exe files = (Returns tt, listing mediainfo_exe info files).
Proof.
  unfold listing.
  induction files as [| f files IH]; intros H; cbn [run_files filter flat_map];
    [reflexivity |].
  destruct (is_media_file f) eqn:Ef.
  - unfold get_media_info. rewrite (H f (or_introl eq_refl) Ef).
    rewrite IH by (intros g Hg; apply H; right; exact Hg).
    reflexivity.
  - apply IH. intros g Hg. apply H. right. exact Hg.
Qed.

(** X17.  When every media file of the batch can be described, [AddMediaWorker]
    inspects the media files in their order, each once, shows each as soon
    as it is described, and ends with [finished]; the files with another
    extension are passed over without a word. *)
Theorem each_media_file_is_inspected_and_shown_in_turn
    (info : string -> Media.info) (files : list string) :
  (forall f, In f files -> is_media_file f = true -> described env f = Ret (info f)) ->
  run env mediainfo_exe files
  = (Returns tt, listing mediainfo_exe info files ++ [Signal finished]).
Proof.
  intros H. unfold run.
  assert (run_files env mediainfo_exe files
          = (Returns tt, listing mediainfo_exe info files)) as ->; [| reflexivity].
  unfold listing.
  induction files as [| f files IH]; cbn [run_files filter flat_map]; [reflexivity |].
  destruct (is_media_file f) eqn:Ef.
  - unfold get_media_info. rewrite (H f (or_introl eq_refl) Ef).
    rewrite IH by (intros g Hg; apply H; right; exact Hg).
    reflexivity.
  - apply IH. intros g Hg. apply H. right. exact Hg.
Qed.

(** X18.  [get_media_info] of [AddMediaWorker] never returns [None]: its handler
    calls [self.update_progress], which the class does not have.  So the
    first media file that cannot be described ends the run with an
    [AttributeError]: the files after it are not inspected, and [finished]
    is not emitted. *)
Theorem a_file_that_cannot_be_described_ends_the_listing
    (info : string -> Media.info) (before after : list string)
    (file_path : string) (e : exn) :
  (forall f, In f before -> is_media_file f = true -> described env f = Ret (info f)) ->
  is_media_file file_path = true ->
  described env file_path = Raise e ->
  run env mediainfo_exe (before ++ file_path :: after)
  = (Raises (AttributeError "update_progress"),
     listing mediainfo_exe info before
     ++ [Launch [mediainfo_exe; "--Output=JSON"; file_path]%string]).
Proof.
  intros Hb Hm He. unfold run.
  rewrite run_files_app, (run_files_described info before Hb).
  cbn [run_files]. rewrite Hm. unfold get_media_info. rewrite He.
  reflexivity.
Qed.

End AddMediaWorkerProperties.

Lemma each_media_file_is_inspected_and_shown_in_turn_witness :
  AddMediaWorker.run a_library "mediainfo" ["/in/a.mkv"; "/in/notes.txt"; "/in/B.MP4"]%string
  = (AddMediaWorker.Returns tt,
     listing "mediainfo" (info_in a_library)
       ["/in/a.mkv"; "/in/notes.txt"; "/in/B.MP4"]%string
     ++ [AddMediaWorker.Signal AddMediaWorker.finished]).
Proof.
  apply (each_media_file_is_inspected_and_shown_in_turn a_library "mediainfo"
           (info_in a_library)).
  intros f [<- | [<- | [<- | []]]] Hf; vm_compute in Hf; try discriminate;
    vm_compute; reflexivity.
Defined.

Lemma a_file_that_cannot_be_described_ends_the_listing_witness :
  AddMediaWorker.run a_library "mediainfo"
    (["/in/a.mkv"; "/in/notes.txt"]%string ++ "/silent/c.mkv"%string :: ["/in/b.mp4"%string])%list
  = (AddMediaWorker.Raises (AddMediaWorker.AttributeError "update_progress"),
     listing "mediainfo" (info_in a_library) ["/in/a.mkv"; "/in/notes.txt"]%string
     ++ [AddMediaWorker.Launch ["mediainfo"; "--Output=JSON"; "/silent/c.mkv"]%string]).
Proof.
  apply (a_file_that_cannot_be_described_ends_the_listing a_library "mediainfo"
           (info_in a_library) _ _ _ ValueError).
  - intros f [<- | [<- | []]] Hf; vm_compute in Hf; try discriminate;
      vm_compute; reflexivity.
  - vm_compute. reflexivity.
  - vm_compute. reflexivity.
Defined.

(** The loop of the media list adds up the audio bitrates as the loop of
    [get_audio_bitrate] does, whenever that one gets through. *)
Lemma total_kbps_is_add_audio_bitrates (l : list Media.full_track)
    (g : Media.gathered) (total : float) :
  add_audio_bitrates (filter is_audio (map Media.brief l)) (Media.total_kbps g) = Ret total ->
  Media.total_kbps (fold_left Media.gather_track l g) = total.
Proof.
  revert g. induction l as [| t l IH]; intros g; cbn [map filter fold_left].
  - cbn. congruence.
  - change (is_audio (Media.brief t)) with (Media.has_type t "Audio").
    destruct (gather_track_kinds t) as [Hg Hv].
    unfold Media.gather_track at 2.
    destruct (Media.has_type t "General") eqn:Eg.
    { destruct (Hg eq_refl) as [_ ->]. intros H. apply IH. exact H. }
    destruct (Media.has_type t "Video") eqn:Ev.
    { rewrite (Hv eq_refl).
      destruct (Media.video_track g); cbn [andb]; intros H; apply IH; exact H. }
    cbn [andb].
    destruct (Media.has_type t "Audio") eqn:Ea; [| intros H; apply IH; exact H].
    cbn [add_audio_bitrates].
    change (has_bitrate (Media.brief t)) with (Media.usable (Media.BitRate t)).
    change (track_BitRate (Media.brief t)) with (Media.BitRate t).
    destruct (Media.usable (Media.BitRate t)); [| intros H; apply IH; exact H].
    destruct (float_of_str (str_or_empty (Media.BitRate t))) as [b | e];
      cbn [rbind]; [| discriminate].
    intros H. apply IH. exact H.
Qed.

(** X19.  For a file on the media list, an audio bitrate that the encoder measures
    is the whole part of the total that the list keeps for the file (the
    one that the info panel computes with for the audio encoders [copy] and
    [None]): both loops add the bitrates of the [Audio] tracks in the same
    order. *)
Theorem measured_audio_bitrate_is_the_total_of_the_media_list
    (env : Media.environment) (encoder_env : environment)
    (fd : float -> res string) (file_path : string)
    (tracks : list Media.full_track) (i : Media.info)
    (st st' : state) (n : Z) (evs : list event) :
  Media.mediainfo env file_path = Ret (Some tracks) ->
  mediainfo encoder_env file_path = Ret (Some (map Media.brief tracks)) ->
  Media.media_info env fd file_path = Ret i ->
  get_audio_bitrate encoder_env file_path st = (Ret (Some n), st', evs) ->
  int_of_float (Media.total_audio_bitrate_kbps i) = Ret n.
Proof.
  intros Hm Hm' Hi Hget.
  apply media_info_inv in Hi.
  destruct Hi as (tracks' & g & v & file_size & Ht & _ & _ & _ & _ & _ & _ & _ & _ & _
                  & _ & Htot & _).
  rewrite Hm in Ht. injection Ht as Ht. subst tracks'. rewrite Htot. clear Htot.
  unfold get_audio_bitrate, try_except, bind, lift, ret, emit in Hget.
  rewrite Hm' in Hget. cbn [fst snd app] in Hget.
  destruct (add_audio_bitrates (filter is_audio (map Media.brief tracks)) 0)
    as [total | e] eqn:Eadd; cbn in Hget; [| discriminate].
  apply (total_kbps_is_add_audio_bitrates tracks
           {| Media.general_track := None; Media.video_track := None;
              Media.audio_tracks_found := []; Media.total_kbps := 0 |}) in Eadd.
  fold (Media.gather tracks) in Eadd. rewrite Eadd.
  destruct (int_of_float total) as [k | e]; cbn in Hget; [| discriminate].
  congruence.
Qed.

Lemma measured_audio_bitrate_is_the_total_of_the_media_list_witness :
  int_of_float (Media.total_audio_bitrate_kbps (info_in a_library "/in/a.mkv")) = Ret 192.
Proof.
  apply (measured_audio_bitrate_is_the_total_of_the_media_list
           a_library (encoder_view a_library)
           (fun d => Ret (AddMediaWorker.format_duration d)) "/in/a.mkv"
           [a_track "General" None; a_track "Video" (Some "5000000"%string);
            a_track "Audio" (Some "128000"%string);
            a_track "Audio" (Some "64000"%string)]
           (info_in a_library "/in/a.mkv") idle idle 192 []);
    vm_compute; reflexivity.
Defined.

Lemma starts_with_spec (p l : list ascii) :
  Text.starts_with p l = true <-> exists r, l = p ++ r.
Proof.
  revert l. induction p as [| a p IH]; intros l; cbn [Text.starts_with app].
  - split; [intros _; exists l; reflexivity | reflexivity].
  - destruct l as [| b l].
    + split; [discriminate | intros [r Hr]; discriminate].
    + rewrite andb_true_iff, Ascii.eqb_eq, IH. split.
      * intros [-> [r ->]]. exists r. reflexivity.
      * intros [r Hr]. injection Hr as -> ->. split; [reflexivity | exists r; reflexivity].
Qed.

Lemma string_of_list_ascii_app (l l' : list ascii) :
  string_of_list_ascii (l ++ l')
  = (string_of_list_ascii l ++ string_of_list_ascii l')%string.
Proof. induction l as [| c l IH]; simpl; [reflexivity | now rewrite IH]. Qed.

Lemma endswith_spec (s suffix : string) :
  Text.endswith s suffix = true <-> exists stem, s = (stem ++ suffix)%string.
Proof.
  unfold Text.endswith. rewrite starts_with_spec. split.
  - intros [r Hr]. exists (string_of_list_ascii (rev r)).
    rewrite <- (string_of_list_ascii_of_string s),
      <- (rev_involutive (list_ascii_of_string s)), Hr.
    rewrite rev_app_distr, rev_involutive, string_of_list_ascii_app.
    rewrite string_of_list_ascii_of_string. reflexivity.
  - intros [stem ->]. exists (rev (list_ascii_of_string stem)).
    rewrite list_ascii_of_string_app, rev_app_distr. reflexivity.
Qed.

Lemma lower_str_app (a b : string) :
  lower_str (a ++ b) = (lower_str a ++ lower_str b)%string.
Proof.
  unfold lower_str.
  rewrite list_ascii_of_string_app, map_app, string_of_list_ascii_app.
  reflexivity.
Qed.

(** X20.  A file counts as a media file exactly when its name ends in [.mp4],
    [.mkv], [.avi] or [.mov], in capitals or small letters (of ASCII, as
    all text here). *)
Theorem media_files_are_told_by_their_extension (file_path : string) :
  AddMediaWorker.is_media_file file_path = true
  <-> exists stem ext,
        file_path = (stem ++ ext)%string
        /\ In (lower_str ext) [".mp4"; ".mkv"; ".avi"; ".mov"]%string.
Proof.
  unfold AddMediaWorker.is_media_file. rewrite existsb_exists. split.
  - intros [suffix [Hin Hends]]. apply endswith_spec in Hends.
    destruct Hends as [stem' Hl].
    set (k := List.length (list_ascii_of_string stem')).
    set (chars := list_ascii_of_string file_path).
    exists (string_of_list_ascii (firstn k chars)), (string_of_list_ascii (skipn k chars)).
    assert (map lower chars
            = list_ascii_of_string stem' ++ list_ascii_of_string suffix) as Hmap.
    { rewrite <- list_ascii_of_string_app, <- Hl. unfold lower_str.
      rewrite list_ascii_of_string_of_list_ascii. reflexivity. }
    split.
    + rewrite <- string_of_list_ascii_app, firstn_skipn. unfold chars.
      rewrite string_of_list_ascii_of_string. reflexivity.
    + unfold lower_str. rewrite list_ascii_of_string_of_list_ascii.
      rewrite <- skipn_map, Hmap. unfold k.
      rewrite skipn_app, skipn_all, Nat.sub_diag. cbn [app skipn].
      rewrite string_of_list_ascii_of_string. exact Hin.
  - intros (stem & ext & -> & Hin). exists (lower_str ext). split; [exact Hin |].
    apply endswith_spec. exists (lower_str stem). apply lower_str_app.
Qed.

(** X21.  A file that the window can describe when it refreshes its list is one
    that [AddMediaWorker] can describe, and the two tell the same of it in
    every field but the text of the duration; a duration in seconds that the
    window keeps is the one that the worker keeps. *)
Theorem refreshed_list_tells_what_the_added_list_tells
    (env : Media.environment) (file_path : string) (i' : Media.info) :
  fst (MediaList.get_media_info env file_path) = Some i' ->
  exists i,
    AddMediaWorker.described env file_path = Ret i
    /\ Media.filename i = Media.filename i'
    /\ Media.video i = Media.video i'
    /\ Media.video_info i = Media.video_info i'
    /\ Media.audio i = Media.audio i'
    /\ Media.size i = Media.size i'
    /\ Media.size_bytes i = Media.size_bytes i'
    /\ Media.total_audio_bitrate_kbps i = Media.total_audio_bitrate_kbps i'
    /\ Media.path i = Media.path i'
    /\ Media.audio_tracks i = Media.audio_tracks i'
    /\ (forall d, Media.duration_seconds i' = Some d -> Media.duration_seconds i = Some d).
Proof.
  unfold MediaList.get_media_info, AddMediaWorker.described, Media.media_info.
  destruct (Media.mediainfo env file_path) as [data | e]; [| discriminate].
  cbn [rbind].
  destruct data as [tracks |]; [| discriminate].
  destruct (Media.general_track (Media.gather tracks)) as [g |]; [| discriminate].
  destruct (Media.video_track (Media.gather tracks)) as [v |]; [| discriminate].
  destruct (Media.audio_tracks_found (Media.gather tracks)) as [| a rest];
    [discriminate |].
  destruct (Media.getsize env file_path) as [file_size | e]; [| discriminate].
  cbn [rbind].
  destruct (Media.video_texts v) as [vi vs].
  destruct (Media.audio_texts (Media.languages env) 1 (a :: rest)) as [al | e];
    [| discriminate].
  cbn [rbind].
  assert (forall d', Media.duration_texts MediaList.format_duration g = Ret d' ->
          exists d, Media.duration_texts
                      (fun x => Ret (AddMediaWorker.format_duration x)) g = Ret d
                    /\ forall x, snd d' = Some x -> snd d = Some x) as Hd.
  { unfold Media.duration_texts.
    destruct (Media.Duration g) as [duration_str |];
      [| intros d' [= <-]; eexists; split; [reflexivity | auto]].
    destruct (String.eqb (lower_str duration_str) "n/a");
      [intros d' [= <-]; eexists; split; [reflexivity | auto] |].
    destruct (float_of_str duration_str) as [x | []];
      try discriminate;
      try (intros d' [= <-]; eexists; split; [reflexivity | auto]).
    destruct (MediaList.format_duration x) as [t | []];
      try discriminate;
      intros d' [= <-]; eexists; split; try reflexivity; cbn; auto; discriminate. }
  destruct (Media.duration_texts MediaList.format_duration g) as [d' | e];
    [| discriminate].
  destruct (Hd d' eq_refl) as (d & -> & Hsec). clear Hd.
  cbn [rbind].
  destruct (int_truediv file_size (1024 * 1024)) as [mb | e]; [| discriminate].
  cbn [rbind].
  destruct (int_of_float mb) as [n | e]; [| discriminate].
  cbn [rbind fst]. intros [= <-]. eexists. split; [reflexivity |].
  cbn. repeat split; try reflexivity. exact Hsec.
Qed.

Lemma refreshed_list_tells_what_the_added_list_tells_witness :
  exists i,
    AddMediaWorker.described a_library "/in/a.mkv" = Ret i
    /\ Media.filename i = "a.mkv"%string
    /\ Media.video i = "X 5.000 kbps"%string
    /\ Media.video_info i
       = Media.video_info (info_in a_library "/in/a.mkv")
    /\ Media.audio i = Media.audio (info_in a_library "/in/a.mkv")
    /\ Media.size i = "1024 MB"%string
    /\ Media.size_bytes i = 1073741824
    /\ Media.total_audio_bitrate_kbps i = 192%float
    /\ Media.path i = "/in/a.mkv"%string
    /\ Media.audio_tracks i
       = [a_track "Audio" (Some "128000"%string); a_track "Audio" (Some "64000"%string)]
    /\ (forall d, Some 3725.5%float = Some d -> Media.duration_seconds i = Some d).
Proof.
  apply (refreshed_list_tells_what_the_added_list_tells a_library "/in/a.mkv"
           {| Media.filename := "a.mkv"; Media.duration := "1h:2min";
              Media.duration_seconds := Some 3725.5%float;
              Media.video := "X 5.000 kbps";
              Media.video_info := Media.video_info (info_in a_library "/in/a.mkv");
              Media.audio := Media.audio (info_in a_library "/in/a.mkv");
              Media.size := "1024 MB"; Media.size_bytes := 1073741824;
              Media.total_audio_bitrate_kbps := 192%float;
              Media.path := "/in/a.mkv";
              Media.audio_tracks :=
                [a_track "Audio" (Some "128000"%string);
                 a_track "Audio" (Some "64000"%string)] |}).
  vm_compute. reflexivity.
Defined.

(** ** The selections of audio tracks *)

Lemma selected_from_spec (checked : list bool) :
  forall index,
    StronglySorted Z.lt (AudioSelectionDialog.selected_from index checked)
    /\ forall i,
         In i (AudioSelectionDialog.selected_from index checked)
         <-> index <= i < index + Z.of_nat (List.length checked)
             /\ nth (Z.to_nat (i - index)) checked false = true.
Proof.
  induction checked as [| c rest IH]; intros index; cbn [AudioSelectionDialog.selected_from].
  - split; [constructor |]. intros i. cbn [In List.length]. split; [tauto | lia].
  - destruct (IH (index + 1)) as [Hs Hin].
    assert (forall i, index + 1 <= i -> nth (Z.to_nat (i - index)) (c :: rest) false
                                        = nth (Z.to_nat (i - (index + 1))) rest false) as Hn.
    { intros i Hi. replace (Z.to_nat (i - index)) with (S (Z.to_nat (i - (index + 1))))
        by lia. reflexivity. }
    destruct c.
    + split.
      * constructor; [exact Hs |]. apply Forall_forall. intros i Hi.
        apply Hin in Hi. lia.
      * intros i. cbn [In List.length]. rewrite Hin. split.
        -- intros [<- | [Hr Hc]].
           ++ rewrite Z.sub_diag. split; [lia | reflexivity].
           ++ rewrite Hn by lia. split; [lia | exact Hc].
        -- intros [Hr Hc]. destruct (Z.eq_dec index i) as [-> | Hne]; [now left |].
           right. rewrite Hn in Hc by lia. split; [lia | exact Hc].
    + split; [exact Hs |].
      intros i. cbn [List.length]. rewrite Hin. split.
      * intros [Hr Hc]. rewrite Hn by lia. split; [lia | exact Hc].
      * intros [Hr Hc]. destruct (Z.eq_dec index i) as [-> | Hne].
        -- rewrite Z.sub_diag in Hc. discriminate.
        -- rewrite Hn in Hc by lia. split; [lia | exact Hc].
Qed.

Lemma StronglySorted_filter (f : Z -> bool) (l : list Z) :
  StronglySorted Z.lt l -> StronglySorted Z.lt (filter f l).
Proof.
  induction 1 as [| x l Hs IH Hx]; simpl; [constructor |].
  destruct (f x); [| exact IH].
  constructor; [exact IH |].
  apply Forall_forall. intros y Hy. apply filter_In in Hy.
  rewrite Forall_forall in Hx. now apply Hx.
Qed.

Lemma range_spec (n : nat) :
  StronglySorted Z.lt (MediaEncoderGUI.range n)
  /\ forall i, In i (MediaEncoderGUI.range n) <-> 0 <= i < Z.of_nat n.
Proof.
  unfold MediaEncoderGUI.range.
  assert (forall len start,
             StronglySorted Z.lt (map Z.of_nat (seq start len))
             /\ forall i, In i (map Z.of_nat (seq start len))
                          <-> Z.of_nat start <= i < Z.of_nat start + Z.of_nat len) as H.
  { induction len as [| len IH]; intros start; cbn [seq map].
    - split; [constructor |]. intros i. cbn. lia.
    - destruct (IH (S start)) as [Hs Hin]. split.
      + constructor; [exact Hs |]. apply Forall_forall. intros i Hi.
        apply Hin in Hi. lia.
      + intros i. cbn [In]. rewrite Hin. lia. }
  destruct (H n O) as [Hs Hin]. split; [exact Hs |].
  intros i. rewrite Hin. lia.
Qed.

(** X13.  Every selection of audio tracks that the window stores for a
    file is a list of indices of tracks of that file in increasing order,
    none negative: the selection a file is added with is all the tracks of
    the file, and the selection taken from the dialog holds the indices of
    the checked items, in order, without those the file has no track for. *)
Theorem stored_selections_are_increasing_track_indices :
  (forall n : nat,
      selection_of (Z.of_nat n) (MediaEncoderGUI.range n)
      /\ List.length (MediaEncoderGUI.range n) = n)
  /\ (forall (checked : list bool) (i : Z),
         In i (AudioSelectionDialog.get_selected_tracks checked)
         <-> 0 <= i < Z.of_nat (List.length checked)
             /\ nth (Z.to_nat i) checked false = true)
  /\ (forall (checked : list bool) (available_tracks : Z),
         selection_of available_tracks
           (MediaEncoderGUI.adjusted_selected_tracks
              (AudioSelectionDialog.get_selected_tracks checked) available_tracks)).
Proof.
  split; [| split].
  - intros n. destruct (range_spec n) as [Hs Hin]. split.
    + split; [exact Hs |]. apply Forall_forall. intros i Hi. now apply Hin.
    + unfold MediaEncoderGUI.range. now rewrite length_map, length_seq.
  - intros checked i. unfold AudioSelectionDialog.get_selected_tracks.
    destruct (selected_from_spec checked 0) as [_ Hin]. rewrite Hin.
    rewrite Z.sub_0_r, Z.add_0_l. reflexivity.
  - intros checked available_tracks.
    unfold MediaEncoderGUI.adjusted_selected_tracks, AudioSelectionDialog.get_selected_tracks.
    destruct (selected_from_spec checked 0) as [Hs Hin]. split.
    + now apply StronglySorted_filter.
    + apply Forall_forall. intros i Hi. apply filter_In in Hi. destruct Hi as [Hi Hlt].
      apply Hin in Hi. apply Z.ltb_lt in Hlt. lia.
Qed.

(** ** The validation of the settings *)

Lemma isdigit_digits (s : string) :
  MediaEncoderGUI.isdigit s = true -> digits (list_ascii_of_string s).
Proof.
  unfold MediaEncoderGUI.isdigit, digits.
  destruct (list_ascii_of_string s) as [| c l]; [discriminate |].
  intros H. split; [discriminate |]. apply Forall_forall. intros x Hx.
  rewrite forallb_forall in H. now apply H.
Qed.

Lemma isdigit_int_of_str (s : string) :
  MediaEncoderGUI.isdigit s = true ->
  int_of_str s = Ret (digits_value (list_ascii_of_string s) 0).
Proof.
  intros H. apply isdigit_digits in H. apply int_of_str_digits in H.
  now rewrite string_of_list_ascii_of_string in H.
Qed.

Lemma isdigit_float_of_str (s : string) :
  MediaEncoderGUI.isdigit s = true -> exists f, float_of_str s = Ret f.
Proof.
  intros H. apply isdigit_digits in H. apply float_of_str_digits in H.
  destruct H as [H _]. rewrite string_of_list_ascii_of_string in H. eauto.
Qed.

Lemma check_bitrate_values_spec (bitrate_values : list string)
    (v : bool * list MediaEncoderGUI.validation_error) :
  exists v',
    MediaEncoderGUI.check_bitrate_values bitrate_values v = Ret v'
    /\ (fst v' = true <-> fst v = true /\ Forall valid_bitrate bitrate_values).
Proof.
  induction bitrate_values as [| b rest IH]; cbn [MediaEncoderGUI.check_bitrate_values].
  - exists v. split; [reflexivity |]. split; [auto | tauto].
  - destruct (MediaEncoderGUI.isdigit b) eqn:Ed; cbn [negb].
    + rewrite (isdigit_int_of_str b Ed). cbn [rbind].
      destruct (digits_value (list_ascii_of_string b) 0 <=? 0) eqn:Ep.
      * eexists. split; [reflexivity |]. cbn [MediaEncoderGUI.invalid fst].
        split; [discriminate |]. intros [_ H]. inversion H as [| ? ? [_ Hp] _]; subst.
        apply Z.leb_le in Ep. lia.
      * destruct IH as (v' & Hc & Hiff). exists v'. split; [exact Hc |].
        rewrite Hiff. apply Z.leb_gt in Ep. split.
        -- intros [Hv Hr]. split; [exact Hv |]. constructor; [split; assumption | exact Hr].
        -- intros [Hv Hr]. inversion Hr; subst. auto.
    + eexists. split; [reflexivity |]. cbn [MediaEncoderGUI.invalid fst].
      split; [discriminate |]. intros [_ H]. inversion H as [| ? ? [Hd _] _]; subst.
      congruence.
Qed.

(** The validation always comes to a result, and it finds the inputs valid
    exactly when there is a media file, the target size is accepted by
    [float], the destination folder is a folder, the audio bitrate is as
    required, and the preset is [None] or a known one. *)
Lemma validate_spec (isdir : string -> bool) (g : MediaEncoderGUI.gui) :
  exists v,
    MediaEncoderGUI.validate isdir g = Ret v
    /\ (fst v = true
        <-> MediaEncoderGUI.media_files g <> []
            /\ (exists T, float_of_str (MediaEncoderGUI.target_size_mb g) = Ret T)
            /\ String.eqb (MediaEncoderGUI.destination_folder g) "" = false
            /\ isdir (MediaEncoderGUI.destination_folder g) = true
            /\ audio_bitrate_accepted g
            /\ (String.eqb (MediaEncoderGUI.selected_preset g) "None" = false ->
                MediaEncoderGUI.contains (MediaEncoderGUI.preset_files g)
                  (MediaEncoderGUI.selected_preset g) = true)).
Proof.
  unfold MediaEncoderGUI.validate, audio_bitrate_accepted.
  set (vals := map strip (split "," (str_or_empty (MediaEncoderGUI.audio_bitrate g)))).
  set (mx := MediaEncoderGUI.max_selected_audio_tracks (MediaEncoderGUI.media_files g)).
  destruct (float_of_str (MediaEncoderGUI.target_size_mb g)) as [T | e] eqn:Et;
    [| apply float_of_str_raises in Et as Ee; subst e].
  all: cbn [rbind].
  all: match goal with
       | |- context [MediaEncoderGUI.check_bitrate_values ?l ?v] =>
           destruct (check_bitrate_values_spec l v) as (v' & Hc & Hiff)
       end.
  all: destruct (MediaEncoderGUI.media_files g) as [| m ms] eqn:Em.
  all: destruct (String.eqb (MediaEncoderGUI.destination_folder g) "") eqn:Ed;
    destruct (isdir (MediaEncoderGUI.destination_folder g)) eqn:Ei;
    destruct (String.eqb (MediaEncoderGUI.selected_audio_encoder g) "copy") eqn:Ec;
    destruct (String.eqb (MediaEncoderGUI.selected_audio_encoder g) "None") eqn:En;
    destruct (String.eqb (MediaEncoderGUI.selected_preset g) "None") eqn:Ep;
    destruct (MediaEncoderGUI.contains (MediaEncoderGUI.preset_files g)
                (MediaEncoderGUI.selected_preset g)) eqn:Ek;
    cbn [orb andb negb MediaEncoderGUI.invalid fst snd] in *.
  all: try (destruct (0 <? mx) eqn:Emx;
            [destruct (truthy (MediaEncoderGUI.audio_bitrate g)) eqn:Ea;
             [destruct (Z.of_nat (List.length vals) =? mx) eqn:El |] |];
            cbn [orb andb negb MediaEncoderGUI.invalid fst snd rbind] in *).
  all: rewrite ?Hc; cbn [rbind]; eexists; (split; [reflexivity |]).
  all: cbn [fst snd MediaEncoderGUI.invalid] in *.
  all: try rewrite Hiff.
  all: repeat match goal with
              | H : (_ <? _) = true |- _ => apply Z.ltb_lt in H
              | H : (_ <? _) = false |- _ => apply Z.ltb_ge in H
              | H : (_ =? _) = true |- _ => apply Z.eqb_eq in H
              | H : (_ =? _) = false |- _ => apply Z.eqb_neq in H
              end.
  all: split;
    [intros H; try discriminate;
     repeat split; eauto; try discriminate; try tauto; try lia; try congruence;
     try (intros; lia); try (intros; discriminate)
    | intros (H1 & (T' & H2) & H3 & H4 & H5 & H6);
      try congruence; try discriminate; try (now elim H1);
      try (specialize (H6 eq_refl); discriminate)].
  all: try (specialize (H5 eq_refl eq_refl Emx)); try tauto;
    try (destruct H5 as (Ha & Hb & Hc'); try congruence; try tauto).
Qed.

Lemma max_selected_audio_tracks_bound (files : list MediaEncoderGUI.media) :
  forall m, In m files ->
    Z.of_nat (List.length (MediaEncoderGUI.selected_audio_tracks m))
    <= MediaEncoderGUI.max_selected_audio_tracks files.
Proof.
  unfold MediaEncoderGUI.max_selected_audio_tracks.
  assert (forall l acc,
             acc <= fold_left (fun m media =>
                                 Z.max m (Z.of_nat (List.length
                                   (MediaEncoderGUI.selected_audio_tracks media)))) l acc
             /\ forall m, In m l ->
                  Z.of_nat (List.length (MediaEncoderGUI.selected_audio_tracks m))
                  <= fold_left (fun m media =>
                                  Z.max m (Z.of_nat (List.length
                                    (MediaEncoderGUI.selected_audio_tracks media)))) l acc)
    as H.
  { induction l as [| x l IH]; intros acc; cbn [fold_left].
    - split; [lia | intros m []].
    - destruct (IH (Z.max acc (Z.of_nat (List.length
                         (MediaEncoderGUI.selected_audio_tracks x))))) as [H1 H2].
      split; [lia |]. intros m [<- | Hin]; [lia | now apply H2]. }
  intros m. apply H.
Qed.

Lemma rmap_returns {A B : Type} (f : A -> res B) (l : list A) :
  Forall (fun a => exists b, f a = Ret b) l -> exists bs, rmap f l = Ret bs.
Proof.
  induction 1 as [| a l [b Hb] _ [bs IH]]; cbn [rmap].
  - eauto.
  - rewrite Hb, IH. cbn [rbind]. eauto.
Qed.

(** X14.  What the enabled start button guarantees to the worker it
    starts, when the audio encoder is neither [copy] nor [None].  For every
    file whose selected track indices are all below the largest number of
    tracks selected in any file of the batch (and there is one selected),
    the worker finds the audio bitrate given, all its values integers, and
    as many values as selected tracks: it reports neither a missing nor an
    invalid audio bitrate nor a mismatch, and it hands the calculators a
    non-empty list of values that [float] accepts. *)
Theorem enabled_start_button_vouches_for_the_audio_bitrates
    (isdir : string -> bool) (g : MediaEncoderGUI.gui) (self : worker)
    (k : nat) (m : MediaEncoderGUI.media) :
  MediaEncoderGUI.start_encoding_btn_enabled isdir g = Ret true ->
  MediaEncoderGUI.start_encoding g = Ret self ->
  MediaEncoderGUI.audio_encoder_combo g = MediaEncoderGUI.selected_audio_encoder g ->
  String.eqb (MediaEncoderGUI.selected_audio_encoder g) "copy" = false ->
  String.eqb (MediaEncoderGUI.selected_audio_encoder g) "None" = false ->
  nth_error (MediaEncoderGUI.media_files g) k = Some m ->
  MediaEncoderGUI.selected_audio_tracks m <> [] ->
  Forall (fun i => 0 <= i < MediaEncoderGUI.max_selected_audio_tracks
                               (MediaEncoderGUI.media_files g))
         (MediaEncoderGUI.selected_audio_tracks m) ->
  forall (env : environment) (file_path file_name : string) (st : state),
  exists (selected_bitrate_values : list string) (fs : list float),
    determine_audio_bitrate env self (Z.of_nat k + 1) file_path file_name st
    = (Ret (Some selected_bitrate_values), st, [])
    /\ List.length selected_bitrate_values
       = List.length (MediaEncoderGUI.selected_audio_tracks m)
    /\ selected_bitrate_values <> []
    /\ rmap float_of_str selected_bitrate_values = Ret fs.
Proof.
  intros Hbtn Hstart Hcombo Hcopy Hnone Hk Hsel Hrange env file_path file_name st.
  (* what the validation has checked *)
  assert (In m (MediaEncoderGUI.media_files g)) as Hin by (eapply nth_error_In; eassumption).
  pose proof (max_selected_audio_tracks_bound _ m Hin) as Hmax.
  assert (0 < MediaEncoderGUI.max_selected_audio_tracks (MediaEncoderGUI.media_files g))
    as Hpos.
  { destruct (MediaEncoderGUI.selected_audio_tracks m) as [| i sel];
      [now elim Hsel | cbn [List.length] in Hmax; lia]. }
  unfold MediaEncoderGUI.start_encoding_btn_enabled in Hbtn.
  destruct (validate_spec isdir g) as (v & Hv & Hiff). rewrite Hv in Hbtn.
  cbn [rbind] in Hbtn.
  assert (fst v = true) as Hvalid
    by (destruct (MediaEncoderGUI.encoding_in_progress g); congruence).
  apply Hiff in Hvalid. destruct Hvalid as (_ & _ & _ & _ & Haudio & _).
  destruct (Haudio Hcopy Hnone Hpos) as (Htruthy & Hlen & Hvals). clear Haudio Hiff Hv Hbtn.
  (* the worker *)
  unfold MediaEncoderGUI.start_encoding in Hstart.
  assert (exists pf pn,
             self = EncodingWorker (map MediaEncoderGUI.path (MediaEncoderGUI.media_files g))
                      (MediaEncoderGUI.handbrake_cli g) (MediaEncoderGUI.mediainfo_exe g)
                      (MediaEncoderGUI.target_size_mb g) (MediaEncoderGUI.audio_bitrate g)
                      pf pn (MediaEncoderGUI.destination_folder g)
                      MediaEncoderGUI.PER_FILE_OUTPUT_ONLY
                      (MediaEncoderGUI.delete_source_combo g)
                      (MediaEncoderGUI.encoder_combo g)
                      (MediaEncoderGUI.audio_encoder_combo g)
                      (map MediaEncoderGUI.selected_audio_tracks
                           (MediaEncoderGUI.media_files g))
                      (MediaEncoderGUI.variable_bitrate_checkbox g)
                      (MediaEncoderGUI.ffmpeg_exe g)
                      (MediaEncoderGUI.multi_pass_checkbox g)) as (pf & pn & ->).
  { destruct (String.eqb (MediaEncoderGUI.selected_preset g) "None").
    - cbn [rbind fst snd] in Hstart. inversion Hstart. eauto.
    - destruct (MediaEncoderGUI.lookup _ _); cbn [rbind fst snd] in Hstart;
        inversion Hstart. eauto. }
  clear Hstart.
  set (vals := map strip (split "," (str_or_empty (MediaEncoderGUI.audio_bitrate g)))) in *.
  assert (exists ints, rmap int_of_str vals = Ret ints) as [ints Hints].
  { apply rmap_returns. eapply Forall_impl; [| exact Hvals].
    intros b [Hd _]. rewrite (isdigit_int_of_str b Hd). eauto. }
  assert (getitem (map MediaEncoderGUI.selected_audio_tracks (MediaEncoderGUI.media_files g))
            (Z.of_nat k + 1 - 1) = Ret (MediaEncoderGUI.selected_audio_tracks m)) as Hget.
  { assert (k < List.length (MediaEncoderGUI.media_files g))%nat as Hlt
      by (apply nth_error_Some; congruence).
    rewrite (getitem_in_range _ _ []) by (rewrite length_map; lia).
    replace (Z.to_nat (Z.of_nat k + 1 - 1)) with k by lia.
    f_equal. apply nth_error_nth. now apply map_nth_error. }
  pose proof (select_bitrates_value vals (MediaEncoderGUI.selected_audio_tracks m))
    as Hselect.
  set (sel := map (fun i => nth (Z.to_nat i) vals ""%string)
                  (filter (fun i => i <? Z.of_nat (List.length vals))
                          (MediaEncoderGUI.selected_audio_tracks m))) in *.
  assert (sel = sel) as Hsel_eq by reflexivity. unfold sel at 2 in Hsel_eq.
  specialize (Hselect ltac:(eapply Forall_impl; [| exact Hrange];
                            intros i Hi; cbv beta in *; lia)).
  assert (List.length sel = List.length (MediaEncoderGUI.selected_audio_tracks m)) as Hl.
  { unfold sel. rewrite length_map. apply filter_keeps_all.
    eapply Forall_impl; [| exact Hrange]. intros i Hi.
    cbv beta in *. fold vals in Hlen. apply Z.ltb_lt. lia. }
  assert (Forall (fun b => In b vals) sel) as Hsub.
  { subst sel. apply Forall_forall. intros b Hb. apply in_map_iff in Hb.
    destruct Hb as (i & <- & Hi). apply filter_In in Hi. destruct Hi as [Hi Hlt].
    apply Z.ltb_lt in Hlt. rewrite Forall_forall in Hrange. specialize (Hrange i Hi).
    cbv beta in Hrange. apply nth_In. lia. }
  assert (exists fs, rmap float_of_str sel = Ret fs) as [fs Hfs].
  { apply rmap_returns. eapply Forall_impl; [| exact Hsub].
    intros b Hb. rewrite Forall_forall in Hvals. destruct (Hvals b Hb) as [Hd _].
    now apply isdigit_float_of_str. }
  exists sel, fs. split; [| split; [exact Hl | split; [| exact Hfs]]].
  - destruct st as [pf' ts te].
    cbv beta iota zeta delta [determine_audio_bitrate EncodingWorker
      selected_audio_encoder audio_bitrate selected_audio_tracks
      try_except_ValueError bind lift ret emit].
    rewrite Hcombo, Hcopy, Htruthy. cbv beta iota zeta. fold vals.
    rewrite Hints. cbv beta iota zeta. rewrite Hget. cbv beta iota zeta.
    rewrite Hselect. cbv beta iota zeta. rewrite Hl, Nat.eqb_refl. reflexivity.
  - intros ->. destruct (MediaEncoderGUI.selected_audio_tracks m); [now elim Hsel |].
    discriminate.
Qed.

(** A run of the theorem above: the second file of the example window,
    with the audio bitrates [128, 64]. *)
Lemma enabled_start_button_vouches_for_the_audio_bitrates_witness :
  exists fs,
    determine_audio_bitrate two_track_world (worker_of (a_window "av_aac" "128, 64"))
      2 "/in/b.mkv" "b.mkv" idle
    = (Ret (Some ["128"%string]), idle, [])
    /\ rmap float_of_str ["128"%string] = Ret fs.
Proof.
  destruct (enabled_start_button_vouches_for_the_audio_bitrates
              (fun _ => true) (a_window "av_aac" "128, 64")
              (worker_of (a_window "av_aac" "128, 64")) 1
              {| MediaEncoderGUI.path := "/in/b.mkv";
                 MediaEncoderGUI.selected_audio_tracks := [0] |}
              eq_refl eq_refl eq_refl eq_refl eq_refl eq_refl
              ltac:(discriminate)
              ltac:(repeat constructor; vm_compute; congruence)
              two_track_world "/in/b.mkv"%string "b.mkv"%string idle)
    as (vals & fs & H1 & _ & _ & H4).
  assert (vals = ["128"%string]) as ->.
  { vm_compute in H1. now inversion H1. }
  exists fs. split; [exact H1 | exact H4].
Defined.

(** The slot sets the start button only if the validation block does. *)
Lemma on_settings_changed_validates (isdir : string -> bool) (g : MediaEncoderGUI.gui)
    (items : list MediaEncoderGUI.item) (text : string) (b : bool) :
  MediaEncoderGUI.on_settings_changed isdir g items text = Ret b ->
  MediaEncoderGUI.start_encoding_btn_enabled isdir g = Ret b.
Proof.
  unfold MediaEncoderGUI.on_settings_changed.
  destruct (MediaEncoderGUI.update_info_panel g items text); [| discriminate].
  cbn [rbind]. auto.
Qed.

(** X15.  With the audio encoder [None] and an empty audio bitrate (the
    state in which the choice of a preset leaves the window: it sets both
    encoder boxes to [None], and the audio bitrate field is cleared for that
    encoder), the validation asks nothing of the audio bitrate: the slot
    [on_settings_changed] enables the start button exactly when the update
    of the info panel, which comes first, returns, no encoding is in
    progress and the other inputs are valid.  The worker then started starts
    neither the sample extractor nor the transcoder on any file: every file
    is given up for want of an audio bitrate, or of a duration. *)
Theorem audio_encoder_None_is_accepted_and_transcodes_nothing
    (isdir : string -> bool) (g : MediaEncoderGUI.gui) (self : worker)
    (items : list MediaEncoderGUI.item) (text : string) :
  MediaEncoderGUI.selected_audio_encoder g = "None"%string ->
  MediaEncoderGUI.audio_encoder_combo g = "None"%string ->
  MediaEncoderGUI.audio_bitrate g = None ->
  MediaEncoderGUI.start_encoding g = Ret self ->
  (MediaEncoderGUI.on_settings_changed isdir g items text = Ret true
   <-> (exists labels, MediaEncoderGUI.update_info_panel g items text = Ret labels)
       /\ MediaEncoderGUI.encoding_in_progress g = false
       /\ MediaEncoderGUI.media_files g <> []
       /\ (exists T, float_of_str (MediaEncoderGUI.target_size_mb g) = Ret T)
       /\ String.eqb (MediaEncoderGUI.destination_folder g) "" = false
       /\ isdir (MediaEncoderGUI.destination_folder g) = true
       /\ (String.eqb (MediaEncoderGUI.selected_preset g) "None" = false ->
           MediaEncoderGUI.contains (MediaEncoderGUI.preset_files g)
             (MediaEncoderGUI.selected_preset g) = true))
  /\ forall (env : environment) (st : state)
            (r : res unit) (st' : state) (evs : list event),
       run env self st = (r, st', evs) ->
       (forall c, ~ In (Launch c) evs)
       /\ processed_files st' = 0
       /\ (r = Ret tt ->
           forall m, In m (MediaEncoderGUI.media_files g) ->
             In (Signal (progress (MsgNoAudioBitrateSpecified
                                     (basename (MediaEncoderGUI.path m))))) evs
             \/ In (Signal (progress (MsgErrorGettingDuration
                                        (basename (MediaEncoderGUI.path m))))) evs).
Proof.
  intros Henc Hcombo Hab Hstart. split.
  - unfold MediaEncoderGUI.on_settings_changed,
      MediaEncoderGUI.start_encoding_btn_enabled.
    destruct (validate_spec isdir g) as (v & Hv & Hiff). rewrite Hv.
    assert (audio_bitrate_accepted g) as Hacc.
    { unfold audio_bitrate_accepted. rewrite Henc. discriminate. }
    destruct (MediaEncoderGUI.update_info_panel g items text) as [labels | e];
      cbn [rbind].
    + split.
      * intros H.
        assert (MediaEncoderGUI.encoding_in_progress g = false /\ fst v = true)
          as [Hp Hf]
          by (destruct (MediaEncoderGUI.encoding_in_progress g); split; congruence).
        apply Hiff in Hf. split; [eauto | tauto].
      * intros (_ & Hp & H1 & H2 & H3 & H4 & H5). rewrite Hp. f_equal.
        apply Hiff. tauto.
    + split; [discriminate | intros [[labels Hl] _]; discriminate].
  - intros env st r st' evs Hrun.
    unfold MediaEncoderGUI.start_encoding in Hstart.
    assert (selected_audio_encoder self = "None"%string
            /\ audio_bitrate self = None
            /\ media_files self = map MediaEncoderGUI.path (MediaEncoderGUI.media_files g))
      as (Hse & Hsa & Hsm).
    { destruct (String.eqb (MediaEncoderGUI.selected_preset g) "None").
      - cbn [rbind fst snd] in Hstart. inversion Hstart. cbn. auto.
      - destruct (MediaEncoderGUI.lookup _ _); cbn [rbind fst snd] in Hstart;
          inversion Hstart. cbn. auto. }
    apply run_inv in Hrun. destruct Hrun as (r1 & e1 & Hrun & -> & ->).
    apply run_files_without_audio_bitrate in Hrun;
      [| now rewrite Hse | now rewrite Hsa].
    destruct Hrun as (-> & Hl & Hr). split; [| split; [reflexivity |]].
    + intros c [Hin | Hin]; [discriminate |].
      apply in_app_or in Hin. destruct Hin as [Hin | Hin]; [now apply Hl in Hin |].
      destruct r1; cbn in Hin; intuition discriminate.
    + intros Hret m Hm.
      destruct (Hr Hret (MediaEncoderGUI.path m)) as [Hin | Hin];
        [rewrite Hsm; now apply in_map | left | right].
      all: right; apply in_or_app; left; exact Hin.
Qed.

(** A run of the theorem above: the example window with the audio encoder
    [None] and its first file selected; its start button is enabled, and
    its worker starts neither the extractor nor the transcoder.  With the
    target size [nan] the same window has all its inputs valid, but the
    update of the info panel raises and the slot never gets to the button. *)
Lemma audio_encoder_None_is_accepted_and_transcodes_nothing_witness :
  MediaEncoderGUI.on_settings_changed (fun _ => true) (a_window "None" "")
    first_selected "" = Ret true
  /\ (forall c, ~ In (Launch c)
                    (snd (run two_track_world (worker_of (a_window "None" "")) idle)))
  /\ MediaEncoderGUI.update_info_panel (a_window "None" "") first_selected ""
     = Ret (MediaEncoderGUI.BitrateKbps 1384, MediaEncoderGUI.SpaceSaved 31.640625)
  /\ MediaEncoderGUI.start_encoding_btn_enabled (fun _ => true)
       (with_target "nan" (a_window "None" "")) = Ret true
  /\ MediaEncoderGUI.on_settings_changed (fun _ => true)
       (with_target "nan" (a_window "None" "")) first_selected "" = Raise ValueError.
Proof.
  destruct (audio_encoder_None_is_accepted_and_transcodes_nothing
              (fun _ => true) (a_window "None" "") (worker_of (a_window "None" ""))
              first_selected "" eq_refl eq_refl eq_refl eq_refl) as [H1 H2].
  split; [| split; [| split; [| split]]].
  - apply H1. split; [eexists; vm_compute; reflexivity |].
    repeat split; try reflexivity; try discriminate.
    eexists. vm_compute. reflexivity.
  - apply (H2 two_track_world idle
             (fst (fst (run two_track_world (worker_of (a_window "None" "")) idle)))
             (snd (fst (run two_track_world (worker_of (a_window "None" "")) idle)))).
    destruct (run two_track_world (worker_of (a_window "None" "")) idle) as [[r st'] evs].
    reflexivity.
  - vm_compute. reflexivity.
  - vm_compute. reflexivity.
  - vm_compute. reflexivity.
Defined.

(** ** A batch with failing files *)








(** ** An exception that the loop body does not catch *)

Lemma unfinished_ret {A : Type} (a : A) : unfinished (ret a).
Proof. intros st r st' evs H. inversion H; subst. reflexivity. Qed.

Lemma unfinished_lift {A : Type} (x : res A) : unfinished (lift x).
Proof. intros st r st' evs H. inversion H; subst. reflexivity. Qed.

Lemma unfinished_raise {A : Type} (e : exn) : unfinished (@raise A e).
Proof. intros st r st' evs H. inversion H; subst. reflexivity. Qed.

Lemma unfinished_get : unfinished get.
Proof. intros st r st' evs H. inversion H; subst. reflexivity. Qed.

Lemma unfinished_put (s : state) : unfinished (put s).
Proof. intros st r st' evs H. inversion H; subst. reflexivity. Qed.

Lemma unfinished_launch (c : list arg) : unfinished (launch c).
Proof. intros st r st' evs H. inversion H; subst. reflexivity. Qed.

Lemma unfinished_emit (x : signal) :
  closing (Signal x) = false -> unfinished (emit x).
Proof. intros Hx st r st' evs H. inversion H; subst. cbn [existsb]. now rewrite Hx. Qed.

Lemma unfinished_bind {A B : Type} (m : M A) (k : A -> M B) :
  unfinished m -> (forall a, unfinished (k a)) -> unfinished (bind m k).
Proof.
  intros Hm Hk st r st' evs H. apply bind_inv in H.
  destruct H as [(a & s1 & e1 & e2 & H1 & H2 & ->) | (e & H1 & _)].
  - apply Hm in H1. apply Hk in H2. now rewrite existsb_app, H1, H2.
  - now apply Hm in H1.
Qed.

Lemma unfinished_try_except {A : Type} (m : M A) (h : exn -> M A) :
  unfinished m -> (forall e, unfinished (h e)) -> unfinished (try_except m h).
Proof.
  intros Hm Hh st r st' evs. unfold try_except.
  destruct (m st) as [[[a | e] s1] e1] eqn:E1.
  - intros H. inversion H; subst. now apply Hm in E1.
  - destruct (h e s1) as [[r2 s2] e2] eqn:E2. intros H. inversion H; subst.
    apply Hm in E1. apply Hh in E2. now rewrite existsb_app, E1, E2.
Qed.

Lemma unfinished_try_except_ValueError {A : Type} (m h : M A) :
  unfinished m -> unfinished h -> unfinished (try_except_ValueError m h).
Proof.
  intros Hm Hh st r st' evs. unfold try_except_ValueError.
  destruct (m st) as [[[a | e] s1] e1] eqn:E1.
  - intros H. inversion H; subst. now apply Hm in E1.
  - destruct e.
    1: { destruct (h s1) as [[r2 s2] e2] eqn:E2. intros H. inversion H; subst.
         apply Hm in E1. apply Hh in E2. now rewrite existsb_app, E1, E2. }
    all: intros H; inversion H; subst; now apply Hm in E1.
Qed.

Ltac unfinished_step :=
  lazymatch goal with
  | |- unfinished (bind _ _) => apply unfinished_bind; [| intros ?]
  | |- unfinished (ret _) => apply unfinished_ret
  | |- unfinished (lift _) => apply unfinished_lift
  | |- unfinished (raise _) => apply unfinished_raise
  | |- unfinished get => apply unfinished_get
  | |- unfinished (put _) => apply unfinished_put
  | |- unfinished (launch _) => apply unfinished_launch
  | |- unfinished (emit _) => apply unfinished_emit; reflexivity
  | |- unfinished (try_except _ _) => apply unfinished_try_except; [| intros ?]
  | |- unfinished (try_except_ValueError _ _) => apply unfinished_try_except_ValueError
  | |- unfinished (match ?x with _ => _ end) => destruct x
  | |- unfinished (let _ := _ in _) => cbv zeta
  end.

Ltac unfinished_tac := repeat unfinished_step.

Lemma unfinished_read_output self lines : unfinished (read_output self lines).
Proof.
  induction lines as [| line lines IH]; cbn [read_output should_display_line].
  - apply unfinished_ret.
  - unfold parse_handbrake_output. unfinished_tac. exact IH.
Qed.

Lemma unfinished_rf_loop env self d sd lo hi audio (n : nat) :
  forall l u rf, unfinished (rf_loop env self n d sd lo hi audio l u rf).
Proof.
  induction n as [| n IH]; intros l u rf; cbn [rf_loop].
  - apply unfinished_ret.
  - unfold rf_iteration, run_handbrake_sample, exists_temp_encoded,
      getsize_temp_encoded, remove_temp_encoded.
    unfinished_tac. all: apply IH.
Qed.

Lemma unfinished_get_duration env file_path : unfinished (get_duration env file_path).
Proof. unfold get_duration. unfinished_tac. Qed.

Lemma unfinished_report_skipped self : unfinished (report_skipped self).
Proof. unfold report_skipped, update_overall_progress. unfinished_tac. Qed.

Lemma unfinished_determine_audio_bitrate env self idx file_path file_name :
  unfinished (determine_audio_bitrate env self idx file_path file_name).
Proof.
  unfold determine_audio_bitrate, get_audio_bitrate.
  unfinished_tac. all: apply unfinished_report_skipped.
Qed.

Lemma unfinished_calculate_video_bitrate self duration arg audio :
  unfinished (calculate_video_bitrate self duration arg audio).
Proof. unfold calculate_video_bitrate. unfinished_tac. Qed.

Lemma unfinished_estimate_rf_value env self file_path target audio :
  unfinished (estimate_rf_value env self file_path target audio).
Proof.
  unfold estimate_rf_value, clean_up_and_return, run_ffmpeg, exists_temp_sample,
    exists_temp_encoded, remove_temp_sample, remove_temp_encoded.
  unfinished_tac.
  all: first [apply unfinished_get_duration | apply unfinished_rf_loop].
Qed.

Lemma unfinished_encode_parameter env self file_path file_name duration audio :
  unfinished (encode_parameter env self file_path file_name duration audio).
Proof.
  unfold encode_parameter. unfinished_tac.
  all: first [apply unfinished_calculate_video_bitrate | apply unfinished_report_skipped
             | apply unfinished_estimate_rf_value].
Qed.

Lemma unfinished_process_file env self idx file_path :
  unfinished (process_file env self idx file_path).
Proof.
  unfold process_file, run_handbrake, set_processed_files, update_overall_progress.
  unfinished_tac.
  all: first [apply unfinished_get_duration | apply unfinished_determine_audio_bitrate
             | apply unfinished_encode_parameter | apply unfinished_read_output
             | apply unfinished_report_skipped].
Qed.

Lemma unfinished_run_files env self (files : list string) :
  forall idx, unfinished (run_files env self idx files).
Proof.
  induction files as [| f files IH]; intros idx; cbn [run_files].
  - apply unfinished_ret.
  - apply unfinished_bind; [apply unfinished_process_file | intros _; apply IH].
Qed.

Lemma unfinished_not_in (evs : list event) :
  existsb closing evs = false -> ~ In (Signal finished) evs.
Proof.
  intros H Hin.
  assert (existsb closing evs = true) as H'
    by (apply existsb_exists; eexists; split; [exact Hin | reflexivity]).
  congruence.
Qed.

Lemma run_files_after env self (before rest : list string) :
  forall idx st,
    run_files env self idx (before ++ rest) st
    = match run_files env self idx before st with
      | (Ret _, s1, e1) =>
          let '(r, s2, e2) :=
            run_files env self (idx + Z.of_nat (List.length before)) rest s1 in
          (r, s2, e1 ++ e2)
      | (Raise e, s1, e1) => (Raise e, s1, e1)
      end.
Proof.
  induction before as [| f before IH]; intros idx st; cbn [app run_files List.length].
  - cbv [ret]. rewrite Z.add_0_r.
    destruct (run_files env self idx rest st) as [[r s2] e2]. reflexivity.
  - unfold bind at 1 2.
    destruct (process_file env self idx f st) as [[[[] | e] s1] e1]; [| reflexivity].
    rewrite IH.
    destruct (run_files env self (idx + 1) before s1) as [[[[] | e] s2] e2];
      [| reflexivity].
    replace (idx + 1 + Z.of_nat (List.length before))
      with (idx + Z.of_nat (S (List.length before))) by lia.
    destruct (run_files env self _ rest s2) as [[r s3] e3].
    rewrite app_assoc. reflexivity.
Qed.

(** The calculator raises where its formula has no finite value. *)
Lemma calculate_video_bitrate_raises (self : worker) (d T : float)
    (audio : list string) (fs : list float) :
  (0 <? d)%float = true ->
  float_of_str (target_size_mb self) = Ret T ->
  audio <> [] ->
  rmap float_of_str audio = Ret fs ->
  trunc (((T * 8 * 1024 * 1024 / d) - sum fs * 1000) / 1000)%float = None ->
  exists e, forall (arg : string) (st : state),
    calculate_video_bitrate self (Some d) arg audio st = (Raise e, st, []).
Proof.
  intros Hd HT Hne Hfs Hz.
  exists (if is_nan (((T * 8 * 1024 * 1024 / d) - sum fs * 1000) / 1000)%float
          then ValueError else OverflowError).
  intros arg st.
  unfold calculate_video_bitrate, bind, try_except_ValueError, lift, ret, emit.
  rewrite HT. cbn [fst snd app].
  rewrite (positive_not_le_0 d Hd).
  destruct audio as [| a audio]; [congruence |].
  rewrite Hfs. cbn [fst snd app].
  unfold truediv. rewrite (positive_not_zero d Hd).
  unfold int_of_float. rewrite Hz. cbn [rbind].
  destruct (is_nan _); reflexivity.
Qed.

(** X2.  A target size that parses as a float but leaves the formula
    without a finite value (the target [nan] or [inf], which the validation
    of the window accepts) makes [int] raise in the calculator, past its
    [except] clauses, and [run] has no handler around the calculator.  So
    the first file of a batch that gets to the calculator with such a value
    ends the run with the exception: the events of the run stop with what
    the file's duration and audio bitrates were obtained with, the files
    after it are not taken up, and [finished] is not emitted. *)
Theorem non_finite_bitrate_raises
    (env : environment) (self : worker) (before after : list string)
    (file_path : string) (st st1 sa : state) (e1 e0 ea : list event)
    (d T : float) (sel : list string) (fs : list float) :
  media_files self = before ++ file_path :: after ->
  run_files env self 1 before
    {| processed_files := 0; temp_sample_file := temp_sample_file st;
       temp_encoded_sample := temp_encoded_sample st |} = (Ret tt, st1, e1) ->
  get_duration env file_path st1 = (Ret (Some d), st1, e0) ->
  determine_audio_bitrate env self (1 + Z.of_nat (List.length before)) file_path
    (basename file_path) st1 = (Ret (Some sel), sa, ea) ->
  (0 <? d)%float = true ->
  float_of_str (target_size_mb self) = Ret T ->
  sel <> [] ->
  rmap float_of_str sel = Ret fs ->
  trunc (((T * 8 * 1024 * 1024 / d) - sum fs * 1000) / 1000)%float = None ->
  exists (e : exn) (evs : list event),
    (forall (arg : string) (s : state),
        calculate_video_bitrate self (Some d) arg sel s = (Raise e, s, []))
    /\ run env self st = (Raise e, sa, evs)
    /\ evs = Signal (progress MsgStarting)
             :: e1
             ++ (if per_file_output_only self
                 then [Signal clear_progress; Signal (progress MsgStarting)] else [])
             ++ [Signal (current_file (1 + Z.of_nat (List.length before))
                           (total_files self) (basename file_path));
                 Signal (progress (MsgProcessing (basename file_path)));
                 Signal (current_file_progress 0)]
             ++ e0 ++ ea
    /\ ~ In (Signal finished) evs.
Proof.
  intros Hfiles Hbefore Hd Hdet Hpos HT Hne Hfs Hz.
  destruct (calculate_video_bitrate_raises self d T sel fs Hpos HT Hne Hfs Hz)
    as [e Hcalc].
  exists e. eexists. split; [exact Hcalc |].
  assert (process_file env self (1 + Z.of_nat (List.length before)) file_path st1
          = (Raise e, sa,
             (if per_file_output_only self
              then [Signal clear_progress; Signal (progress MsgStarting)] else [])
             ++ [Signal (current_file (1 + Z.of_nat (List.length before))
                           (total_files self) (basename file_path));
                 Signal (progress (MsgProcessing (basename file_path)));
                 Signal (current_file_progress 0)]
             ++ e0 ++ ea)) as Hbody.
  { unfold process_file, encode_parameter.
    cbv beta iota zeta delta [bind emit ret lift fst snd].
    destruct (per_file_output_only self); cbv beta iota zeta;
      rewrite Hd; cbv beta iota zeta; rewrite Hdet; cbv beta iota zeta;
      rewrite Hcalc; cbn [app]; rewrite ?app_nil_r; reflexivity. }
  assert (run env self st
          = (Raise e, sa,
             Signal (progress MsgStarting)
             :: e1
             ++ (if per_file_output_only self
                 then [Signal clear_progress; Signal (progress MsgStarting)] else [])
             ++ [Signal (current_file (1 + Z.of_nat (List.length before))
                           (total_files self) (basename file_path));
                 Signal (progress (MsgProcessing (basename file_path)));
                 Signal (current_file_progress 0)]
             ++ e0 ++ ea)) as Hrun.
  { destruct st as [pf ts te]. cbn [temp_sample_file temp_encoded_sample] in Hbefore.
    cbv beta iota zeta delta [run set_processed_files bind emit get put ret
      processed_files temp_sample_file temp_encoded_sample].
    rewrite Hfiles, run_files_after, Hbefore. cbn [run_files]. unfold bind at 1.
    rewrite Hbody. cbn [app]. rewrite ?app_nil_r. reflexivity. }
  split; [exact Hrun |]. split; [reflexivity |].
  apply unfinished_run_files in Hbefore. apply unfinished_get_duration in Hd.
  apply unfinished_determine_audio_bitrate in Hdet.
  apply unfinished_not_in.
  cbn [existsb closing]. rewrite !existsb_app, Hbefore, Hd, Hdet.
  destruct (per_file_output_only self); reflexivity.
Qed.

(** A run of the theorem above: with the target size [nan] the run ends at
    the second file of the batch, the first one being given up before the
    calculator for want of a duration; the third file is never taken up. *)
Lemma non_finite_bitrate_raises_witness :
  exists (e : exn) (evs : list event),
    (forall (arg : string) (s : state),
        calculate_video_bitrate nan_target (Some 3600.5%float) arg ["128"; "64"]%string s
        = (Raise e, s, []))
    /\ run no_duration_for_a nan_target idle = (Raise e, idle, evs)
    /\ evs = Signal (progress MsgStarting)
             :: [Signal (current_file 1 3 "a.mkv");
                 Signal (progress (MsgProcessing "a.mkv"));
                 Signal (current_file_progress 0);
                 Signal (progress (MsgDurationNotFound "a.mkv"));
                 Signal (progress (MsgErrorGettingDuration "a.mkv"));
                 Signal (overall_progress 0)]
             ++ []
             ++ [Signal (current_file 2 3 "b.mkv");
                 Signal (progress (MsgProcessing "b.mkv"));
                 Signal (current_file_progress 0)]
             ++ [] ++ []
    /\ ~ In (Signal finished) evs.
Proof.
  apply (non_finite_bitrate_raises no_duration_for_a nan_target
           ["/in/a.mkv"%string] ["/in/c.mkv"%string] "/in/b.mkv" idle idle idle
           _ [] [] 3600.5%float nan ["128"; "64"]%string [128; 64]%float);
    solve [vm_compute; reflexivity | discriminate].
Defined.
